(** * Climatology helpers of [research_helpers.py]

    A shallow embedding of [monthly_mean], [monthly_regression] and
    [monthly_anomaly_series], together with the part of numpy they call.

    - Numbers are an abstract scalar type [F] with the operations numpy
      applies to array items ([Scalar]); nothing is assumed about them
      unless a theorem says so.
    - An array is its shape and its items in row-major order ([ndarray]).
    - Python objects live in a store ([heap]); a variable holds a
      reference ([ref]) which is an array object or a view of one, so that
      in-place assignment and aliasing are visible.
    - A call either raises ([inl]) or returns ([inr]) and leaves a store
      ([py]). *)

From Stdlib Require Import String.
From Stdlib Require Import List Arith Lia Reals Lra.
From Stdlib Require Import ZArith Ascii SpecFloat.
From stdpp Require Import base list strings gmap.
Import ListNotations.

Set Default Proof Using "Type".

#[local] Arguments Nat.div _ _ : simpl never.
#[local] Arguments Nat.modulo _ _ : simpl never.
#[local] Arguments Nat.mul _ _ : simpl never.

(** ** Scalars *)

(** The item type of a numpy array with the operations the source applies
    to items: [+], [-], [*], [/], conversion of a Python int, [np.pi],
    [np.cos] and [np.sin]. *)
Class Scalar (F : Type) := {
  f_zero : F;
  f_one : F;
  f_add : F -> F -> F;
  f_sub : F -> F -> F;
  f_mul : F -> F -> F;
  f_div : F -> F -> F;
  f_of_nat : nat -> F;
  f_pi : F;
  f_cos : F -> F;
  f_sin : F -> F
}.

(** ** Exceptions and results *)

Inductive exn : Type :=
| ValueError (msg : string)
| IndexError (msg : string)
| TypeError (msg : string)
| AxisError (msg : string)
| LinAlgError (msg : string)
| SystemError (msg : string).

Definition result (A : Type) : Type := (exn + A)%type.

Definition raise {A : Type} (e : exn) : result A := inl e.
Definition ok {A : Type} (a : A) : result A := inr a.

Definition rbind {A B : Type} (c : result A) (k : A -> result B) : result B :=
  match c with
  | inl e => inl e
  | inr a => k a
  end.

Declare Scope result_scope.
Delimit Scope result_scope with result.
Notation "'let?' x ':=' c 'in' k" := (rbind c (fun x => k))
  (at level 10, x name, c at level 100, k at level 200) : result_scope.

Definition is_ok {A : Type} (r : result A) : bool :=
  match r with inr _ => true | inl _ => false end.

(** ** Arrays as values *)

Section Arrays.
Context {F : Type} `{Scalar F}.
Local Open Scope result_scope.

(** A numpy array: [shape] and the items in C (row-major) order. *)
Record ndarray : Type := NDArray { shape : list nat; data : list F }.

(** [a.size] as numpy computes it from the shape. *)
Definition shape_size (s : list nat) : nat := fold_right Nat.mul 1 s.

Definition well_formed (a : ndarray) : Prop :=
  length (data a) = shape_size (shape a).

(** The item at flat position [k]. *)
Definition item (a : ndarray) (k : nat) : F := nth k (data a) f_zero.

(** The item of a three-dimensional array at index [(t, i, j)]. *)
Definition item3 (a : ndarray) (t i j : nat) : F :=
  match shape a with
  | [_; n1; n2] => item a ((t * n1 + i) * n2 + j)
  | _ => f_zero
  end.

(** [s[i]] on a shape tuple. *)
Definition tuple_get (s : list nat) (i : nat) : result nat :=
  match s !! i with
  | Some n => ok n
  | None => raise (IndexError "tuple index out of range")
  end.

(** [len(a)]. *)
Definition len (a : ndarray) : result nat :=
  match shape a with
  | n :: _ => ok n
  | [] => raise (TypeError "len() of unsized object")
  end.

(** [a[:k]] for [0 <= k]: the first [min k n] blocks along axis 0. *)
Definition slice_to (k : nat) (a : ndarray) : result ndarray :=
  match shape a with
  | [] => raise (IndexError "too many indices for array")
  | n :: rest =>
      ok {| shape := Nat.min k n :: rest;
            data := take (Nat.min k n * shape_size rest) (data a) |}
  end.

(** The target of [reshape]: [None] stands for the entry [-1]. *)
Definition known_size (dims : list (option nat)) : nat :=
  fold_right (fun d acc => match d with Some n => n * acc | None => acc end) 1 dims.

Definition unknown_count (dims : list (option nat)) : nat :=
  fold_right (fun d acc => match d with Some _ => acc | None => S acc end) 0 dims.

Definition fill_unknown (q : nat) (dims : list (option nat)) : list nat :=
  map (fun d => match d with Some n => n | None => q end) dims.

(** numpy's resolution of the unknown dimension: with one [-1] the known
    dimensions must have a non-zero product that divides the size. *)
Definition resolve_shape (size : nat) (dims : list (option nat)) : result (list nat) :=
  let s_known := known_size dims in
  match unknown_count dims with
  | 0 =>
      if size =? s_known then ok (fill_unknown 0 dims)
      else raise (ValueError "cannot reshape array")
  | 1 =>
      if (s_known =? 0) || negb (size mod s_known =? 0)
      then raise (ValueError "cannot reshape array")
      else ok (fill_unknown (size / s_known) dims)
  | _ => raise (ValueError "can only specify one unknown dimension")
  end.

(** [a.reshape(dims)]: same items, new shape. *)
Definition reshape (a : ndarray) (dims : list (option nat)) : result ndarray :=
  let? s := resolve_shape (shape_size (shape a)) dims in
  ok {| shape := s; data := data a |}.

(** [np.add.reduce] of a list of items, started at the identity. *)
Definition sum_items (l : list F) : F := fold_left f_add l f_zero.

(** [np.mean(a, axis=0)]: the sum along axis 0 divided by the count. *)
Definition mean_axis0 (a : ndarray) : result ndarray :=
  match shape a with
  | [] => raise (AxisError "axis 0 is out of bounds for array of dimension 0")
  | n :: rest =>
      let stride := shape_size rest in
      ok {| shape := rest;
            data := map (fun k =>
                      f_div (sum_items (map (fun y => item a (y * stride + k)) (seq 0 n)))
                            (f_of_nat n))
                    (seq 0 stride) |}
  end.

(** [np.zeros(s)] and [np.ones(s)]. *)
Definition zeros (s : list nat) : ndarray :=
  {| shape := s; data := replicate (shape_size s) f_zero |}.

Definition ones (s : list nat) : ndarray :=
  {| shape := s; data := replicate (shape_size s) f_one |}.

(** [np.arange(a, b)]: the integers [a .. b-1], held as items. *)
Definition arange (a b : nat) : ndarray :=
  {| shape := [b - a]; data := map f_of_nat (seq a (b - a)) |}.

(** Item-wise operations with a Python scalar, and item-wise functions. *)
Definition map_items (f : F -> F) (a : ndarray) : ndarray :=
  {| shape := shape a; data := map f (data a) |}.

Definition scalar_mul (s : F) (a : ndarray) : ndarray := map_items (f_mul s) a.
Definition div_scalar (a : ndarray) (s : F) : ndarray := map_items (fun x => f_div x s) a.
Definition cos_items (a : ndarray) : ndarray := map_items f_cos a.
Definition sin_items (a : ndarray) : ndarray := map_items f_sin a.

(** [np.tile(a, (reps, 1, 1))] for a three-dimensional [a]: [reps] copies
    of [a] one after the other along axis 0. *)
Definition tile_axis0 (a : ndarray) (reps : nat) : result ndarray :=
  match shape a with
  | [n0; n1; n2] =>
      ok {| shape := [reps * n0; n1; n2];
            data := concat (replicate reps (data a)) |}
  | _ => raise (ValueError "tile: array is not three-dimensional")
  end.

(** Broadcasting of two shapes, both given last axis first: equal
    extents, or one of them 1; the shorter shape is padded with 1. *)
Fixpoint broadcast_rev (s1 s2 : list nat) : option (list nat) :=
  match s1, s2 with
  | [], s => Some s
  | s, [] => Some s
  | a :: r1, b :: r2 =>
      if a =? b then option_map (cons a) (broadcast_rev r1 r2)
      else if a =? 1 then option_map (cons b) (broadcast_rev r1 r2)
      else if b =? 1 then option_map (cons a) (broadcast_rev r1 r2)
      else None
  end.

(** The flat position, in an operand of shape [s], of the item that the
    broadcast result of shape [rs] has at flat position [k] (shapes last
    axis first): an axis of extent 1 is read at index 0. *)
Fixpoint broadcast_offset (rs s : list nat) (k : nat) : nat :=
  match rs, s with
  | r :: rs', d :: s' =>
      (if d =? 1 then 0 else k mod r) + d * broadcast_offset rs' s' (k / r)
  | _, _ => 0
  end.

(** [a - b] on arrays, with broadcasting. *)
Definition subtract (a b : ndarray) : result ndarray :=
  match broadcast_rev (rev (shape a)) (rev (shape b)) with
  | None => raise (ValueError "operands could not be broadcast together")
  | Some rs =>
      ok {| shape := rev rs;
            data := map (fun k =>
                      f_sub (item a (broadcast_offset rs (rev (shape a)) k))
                            (item b (broadcast_offset rs (rev (shape b)) k)))
                    (seq 0 (shape_size rs)) |}
  end.

(** [a + b] on arrays of one shape, item by item (used to state
    properties; the source has no array addition). *)
Definition add_items (a b : ndarray) : ndarray :=
  {| shape := shape a; data := zip_with f_add (data a) (data b) |}.

(** [a[:, i, j]] on a three-dimensional array. *)
Definition getitem_col3 (a : ndarray) (i j : nat) : result ndarray :=
  match shape a with
  | [n0; n1; n2] =>
      if (i <? n1) && (j <? n2)
      then ok {| shape := [n0];
                 data := map (fun t => item a ((t * n1 + i) * n2 + j)) (seq 0 n0) |}
      else raise (IndexError "index is out of bounds")
  | _ => raise (IndexError "too many indices for array")
  end.

(** The one-dimensional value [v] broadcast to length [n]: its own items
    when it has [n] of them, its single item repeated when it has one. *)
Definition broadcast_to_length (v : ndarray) (n : nat) : result (list F) :=
  match shape v with
  | [l] =>
      if l =? n then ok (map (item v) (seq 0 n))
      else if l =? 1 then ok (replicate n (item v 0))
      else raise (ValueError "could not broadcast input array")
  | _ => raise (ValueError "could not broadcast input array")
  end.

(** The array [a] after [a[:, i, j] = v] (three-dimensional [a]). *)
Definition setitem_col3 (a : ndarray) (i j : nat) (v : ndarray) : result ndarray :=
  match shape a with
  | [n0; n1; n2] =>
      if (i <? n1) && (j <? n2)
      then
        let? col := broadcast_to_length v n0 in
        ok {| shape := shape a;
              data := map (fun k =>
                        if (k mod (n1 * n2) =? i * n2 + j)
                        then nth (k / (n1 * n2)) col f_zero
                        else item a k)
                      (seq 0 (n0 * (n1 * n2))) |}
      else raise (IndexError "index is out of bounds")
  | _ => raise (IndexError "too many indices for array")
  end.

(** The array [a] after [a[:, k] = v] (two-dimensional [a]). *)
Definition setitem_col2 (a : ndarray) (k : nat) (v : ndarray) : result ndarray :=
  match shape a with
  | [n; c] =>
      if k <? c
      then
        let? col := broadcast_to_length v n in
        ok {| shape := shape a;
              data := map (fun p =>
                        if (p mod c =? k) then nth (p / c) col f_zero else item a p)
                      (seq 0 (n * c)) |}
      else raise (IndexError "index is out of bounds")
  | _ => raise (IndexError "too many indices for array")
  end.

(** [np.matmul(a, b)] for a two-dimensional [a] and a one- or
    two-dimensional [b]. *)
Definition dot_row (a b : ndarray) (c stride_b col_b r : nat) : F :=
  sum_items (map (fun k => f_mul (item a (r * c + k)) (item b (k * stride_b + col_b)))
                 (seq 0 c)).

Definition matmul (a b : ndarray) : result ndarray :=
  match shape a, shape b with
  | [n; c], [c'] =>
      if c =? c'
      then ok {| shape := [n]; data := map (dot_row a b c 1 0) (seq 0 n) |}
      else raise (ValueError "matmul: mismatch in core dimension")
  | [n; c], [c'; m] =>
      if c =? c'
      then ok {| shape := [n; m];
                 data := map (fun p => dot_row a b c m (p mod m) (p / m)) (seq 0 (n * m)) |}
      else raise (ValueError "matmul: mismatch in core dimension")
  | _, _ => raise (ValueError "matmul: operand shapes outside the modelled cases")
  end.

End Arrays.

Arguments ndarray F : clear implicits.

(** ** The store, references and the monad of Python calls *)

Definition loc : Type := nat.

(** What a Python variable holds: an array object, or a view of a
    reference made by basic slicing or [reshape]. A view owns no items;
    it is read through to its base. *)
Inductive ref : Type :=
| Arr (l : loc)
| SliceTo (k : nat) (r : ref)
| Reshaped (dims : list (option nat)) (r : ref)
| Col3 (i j : nat) (r : ref).

(** The store: the array objects made so far, by location. *)
Abbreviation heap F := (list (ndarray F)).

Section Store.
Context {F : Type} `{Scalar F}.

Definition result_to_option {A : Type} (r : result A) : option A :=
  match r with inr a => Some a | inl _ => None end.

(** The array seen through a reference in store [h]. *)
Fixpoint view (h : heap F) (r : ref) : option (ndarray F) :=
  match r with
  | Arr l => h !! l
  | SliceTo k r' =>
      match view h r' with
      | Some a => result_to_option (slice_to k a)
      | None => None
      end
  | Reshaped dims r' =>
      match view h r' with
      | Some a => result_to_option (reshape a dims)
      | None => None
      end
  | Col3 i j r' =>
      match view h r' with
      | Some a => result_to_option (getitem_col3 a i j)
      | None => None
      end
  end.

(** A call: from a store to an exception or a value, and the store left. *)
Definition py (A : Type) : Type := heap F -> result A * heap F.

Definition ret {A : Type} (a : A) : py A := fun h => (ok a, h).

Definition bind {A B : Type} (c : py A) (k : A -> py B) : py B :=
  fun h =>
    match c h with
    | (inl e, h') => (inl e, h')
    | (inr a, h') => k a h'
    end.

Definition lift {A : Type} (r : result A) : py A := fun h => (r, h).

Definition read (r : ref) : py (ndarray F) :=
  fun h =>
    match view h r with
    | Some a => (ok a, h)
    | None => (raise (SystemError "reference to no array"), h)
    end.

(** A new array object, at the first free location. *)
Definition alloc (a : ndarray F) : py loc :=
  fun h => (ok (length h), h ++ [a]).

(** In-place replacement of the items of the array object at [l]. *)
Definition store (l : loc) (a : ndarray F) : py unit :=
  fun h => (ok tt, <[l := a]> h).

End Store.

Arguments py F A : clear implicits.

Declare Scope py_scope.
Delimit Scope py_scope with py.
Notation "x <- c ;; k" := (bind c (fun x => k))
  (at level 100, c at next level, right associativity) : py_scope.
Notation "c ;; k" := (bind c (fun _ => k))
  (at level 100, right associativity) : py_scope.

(** ** numpy calls on references *)

Section Numpy.
Context {F : Type} `{Scalar F}.

(** The solver behind [np.linalg.lstsq(a, b, rcond=None)[0]]: LAPACK's
    least-squares driver, taken as given. It reads its arguments and
    returns the solution as a new array (or raises [LinAlgError]). *)
Variable lstsq : ndarray F -> ndarray F -> result (ndarray F).

Local Open Scope py_scope.

(** [r.shape] *)
Definition ndarray_shape (r : ref) : py F (list nat) :=
  a <- read r ;; ret (shape a).

(** [s[i]] on a tuple *)
Definition getitem_tuple (s : list nat) (i : nat) : py F nat :=
  lift (tuple_get s i).

(** [len(r)] *)
Definition py_len (r : ref) : py F nat :=
  a <- read r ;; lift (len a).

(** [r[:k]]: a view *)
Definition getitem_slice_to (r : ref) (k : nat) : py F ref :=
  a <- read r ;; _ <- lift (slice_to k a) ;; ret (SliceTo k r).

(** [r.reshape(dims)]: a view *)
Definition ndarray_reshape (r : ref) (dims : list (option nat)) : py F ref :=
  a <- read r ;; _ <- lift (reshape a dims) ;; ret (Reshaped dims r).

(** [r[:, i, j]]: a view *)
Definition getitem_col (r : ref) (i j : nat) : py F ref :=
  a <- read r ;; _ <- lift (getitem_col3 a i j) ;; ret (Col3 i j r).

(** [np.mean(r, axis=0)]: a new array *)
Definition np_mean (r : ref) : py F loc :=
  a <- read r ;; m <- lift (mean_axis0 a) ;; alloc m.

Definition np_zeros (s : list nat) : py F loc := alloc (zeros s).
Definition np_ones (s : list nat) : py F loc := alloc (ones s).
Definition np_arange (a b : nat) : py F loc := alloc (arange a b).

(** [s * r] and [r / s] with a Python scalar [s]; [np.cos(r)], [np.sin(r)] *)
Definition mul_scalar_array (s : F) (r : ref) : py F loc :=
  a <- read r ;; alloc (scalar_mul s a).

Definition div_array_scalar (r : ref) (s : F) : py F loc :=
  a <- read r ;; alloc (div_scalar a s).

Definition np_cos (r : ref) : py F loc :=
  a <- read r ;; alloc (cos_items a).

Definition np_sin (r : ref) : py F loc :=
  a <- read r ;; alloc (sin_items a).

(** [p[:, k] = v]: assignment into the array object at [p] *)
Definition setitem_col (p : loc) (k : nat) (v : ref) : py F unit :=
  a <- read (Arr p) ;; x <- read v ;;
  a' <- lift (setitem_col2 a k x) ;; store p a'.

(** [p[:, i, j] = v]: assignment into the array object at [p] *)
Definition setitem_cell (p : loc) (i j : nat) (v : ref) : py F unit :=
  a <- read (Arr p) ;; x <- read v ;;
  a' <- lift (setitem_col3 a i j x) ;; store p a'.

(** [np.linalg.lstsq(a, b, rcond=None)[0]]: a new array *)
Definition np_linalg_lstsq (a b : ref) : py F loc :=
  x <- read a ;; y <- read b ;; c <- lift (lstsq x y) ;; alloc c.

(** [np.matmul(a, b)]: a new array *)
Definition np_matmul (a b : ref) : py F loc :=
  x <- read a ;; y <- read b ;; m <- lift (matmul x y) ;; alloc m.

(** [np.tile(r, (reps, 1, 1))]: a new array *)
Definition np_tile (r : ref) (reps : nat) : py F loc :=
  a <- read r ;; t <- lift (tile_axis0 a reps) ;; alloc t.

(** [a - b]: a new array *)
Definition ndarray_sub (a b : ref) : py F loc :=
  x <- read a ;; y <- read b ;; d <- lift (subtract x y) ;; alloc d.

(** [for x in xs: body(x)] *)
Fixpoint for_each {A : Type} (xs : list A) (body : A -> py F unit) : py F unit :=
  match xs with
  | [] => ret tt
  | x :: xs' => body x ;; for_each xs' body
  end.

(** [range(n)] *)
Definition range (n : nat) : list nat := seq 0 n.

(** ** The functions of [research_helpers.py] *)

(** [monthly_mean(time_series, lat, lon)], lines 17-20. *)
Definition monthly_mean (time_series lat lon : ref) : py F loc :=
  ts_shape <- ndarray_shape time_series ;;
  n <- getitem_tuple ts_shape 0 ;;
  let complete_years := n / 12 in
  head <- getitem_slice_to time_series (complete_years * 12) ;;
  lat_shape <- ndarray_shape lat ;;
  n_lat <- getitem_tuple lat_shape 0 ;;
  lon_shape <- ndarray_shape lon ;;
  n_lon <- getitem_tuple lon_shape 0 ;;
  grouped <- ndarray_reshape head [None; Some 12; Some n_lat; Some n_lon] ;;
  monthly_mean <- np_mean grouped ;;
  ret monthly_mean.

(** The argument [k * np.pi * time / 12] of [np.cos] and [np.sin],
    lines 39-42: [k * np.pi] is a Python float, then an array product and
    an array quotient. *)
Definition harmonic_angle (k : nat) (time : loc) : py F loc :=
  scaled <- mul_scalar_array (f_mul (f_of_nat k) f_pi) (Arr time) ;;
  div_array_scalar (Arr scaled) (f_of_nat 12).

(** [monthly_regression(time_series)], lines 34-50. *)
Definition monthly_regression (time_series : ref) : py F loc :=
  ts_shape <- ndarray_shape time_series ;;
  num_periods <- getitem_tuple ts_shape 0 ;;
  predictors <- np_ones [num_periods; 5] ;;
  time <- np_arange 1 13 ;;
  a1 <- harmonic_angle 2 time ;;
  c1 <- np_cos (Arr a1) ;;
  setitem_col predictors 1 (Arr c1) ;;
  a2 <- harmonic_angle 2 time ;;
  s1 <- np_sin (Arr a2) ;;
  setitem_col predictors 2 (Arr s1) ;;
  a3 <- harmonic_angle 4 time ;;
  c2 <- np_cos (Arr a3) ;;
  setitem_col predictors 3 (Arr c2) ;;
  a4 <- harmonic_angle 4 time ;;
  s2 <- np_sin (Arr a4) ;;
  setitem_col predictors 4 (Arr s2) ;;
  coefficients <- np_linalg_lstsq (Arr predictors) time_series ;;
  adjusted_time_series <- np_matmul (Arr predictors) (Arr coefficients) ;;
  ret adjusted_time_series.

(** [monthly_anomaly_series(time_series, lat_series, lon_series)],
    lines 65-75. *)
Definition monthly_anomaly_series (time_series lat_series lon_series : ref)
  : py F (loc * loc * loc) :=
  ts_shape <- ndarray_shape time_series ;;
  n <- getitem_tuple ts_shape 0 ;;
  let complete_years := n / 12 in
  series_monthly_mean <- monthly_mean time_series lat_series lon_series ;;
  mean_shape <- ndarray_shape (Arr series_monthly_mean) ;;
  serie_monthly_mean_fit_aux <- np_zeros mean_shape ;;
  n_lon <- py_len lon_series ;;
  for_each (range n_lon) (fun j =>
    n_lat <- py_len lat_series ;;
    for_each (range n_lat) (fun i =>
      cell <- getitem_col (Arr series_monthly_mean) i j ;;
      fit <- monthly_regression cell ;;
      setitem_cell serie_monthly_mean_fit_aux i j (Arr fit))) ;;
  series_monthly_mean_fit <- np_tile (Arr serie_monthly_mean_fit_aux) complete_years ;;
  monthly_anomaly_series <- ndarray_sub time_series (Arr series_monthly_mean_fit) ;;
  ret (monthly_anomaly_series, series_monthly_mean_fit, series_monthly_mean).

End Numpy.

(** * Vocabulary of the properties *)

(** ** Values of the three functions *)

Section Values.
Context {F : Type} `{Scalar F}.
Variable lstsq : ndarray F -> ndarray F -> result (ndarray F).
Local Open Scope result_scope.

(** The value of [monthly_mean] on the arrays its arguments refer to. *)
Definition monthly_mean_value (X A B : ndarray F) : result (ndarray F) :=
  let? n := tuple_get (shape X) 0 in
  let? head := slice_to (n / 12 * 12) X in
  let? n_lat := tuple_get (shape A) 0 in
  let? n_lon := tuple_get (shape B) 0 in
  let? grouped := reshape head [None; Some 12; Some n_lat; Some n_lon] in
  mean_axis0 grouped.

(** On a three-dimensional grid the value is decided by two numbers: the
    size [S] of the complete years and the product [K] of 12 and the two
    coordinate lengths. *)
Definition complete_size (T n_lat n_lon : nat) : nat := T / 12 * 12 * (n_lat * n_lon).
Definition group_size (l_lat l_lon : nat) : nat := 12 * (l_lat * l_lon).

Definition grouped_mean (X : ndarray F) (S K : nat) (l_lat l_lon : nat) : ndarray F :=
  {| shape := [12; l_lat; l_lon];
     data := map (fun k =>
               f_div (sum_items (map (fun y => nth (y * K + k) (take S (data X)) f_zero)
                                     (seq 0 (S / K))))
                     (f_of_nat (S / K)))
             (seq 0 K) |}.

(** The array [k * np.pi * np.arange(1, 13) / 12]. *)
Definition design_angles (k : nat) : ndarray F :=
  div_scalar (scalar_mul (f_mul (f_of_nat k) f_pi) (arange 1 13)) (f_of_nat 12).

(** The value of [monthly_regression] on the array its argument refers
    to: the four column assignments, the solver and the product. *)
Definition regression_value (Y : ndarray F) : result (ndarray F) :=
  let? n := tuple_get (shape Y) 0 in
  let? p1 := setitem_col2 (ones [n; 5]) 1 (cos_items (design_angles 2)) in
  let? p2 := setitem_col2 p1 2 (sin_items (design_angles 2)) in
  let? p3 := setitem_col2 p2 3 (cos_items (design_angles 4)) in
  let? p4 := setitem_col2 p3 4 (sin_items (design_angles 4)) in
  let? c := lstsq p4 Y in
  matmul p4 c.

(** The angle [k * pi * m / 12] as the source computes it. *)
Definition harmonic (k m : nat) : F :=
  f_div (f_mul (f_mul (f_of_nat k) f_pi) (f_of_nat m)) (f_of_nat 12).

Definition design_row (m : nat) : list F :=
  [f_one; f_cos (harmonic 2 m); f_sin (harmonic 2 m);
   f_cos (harmonic 4 m); f_sin (harmonic 4 m)].

(** The 12-by-5 matrix of predictors, one row for each month 1..12. *)
Definition design_matrix : ndarray F :=
  {| shape := [12; 5]; data := concat (map design_row (seq 1 12)) |}.

(** The solver returns five coefficients for every twelve values. *)
Definition solver_total : Prop :=
  forall b : ndarray F, shape b = [12] ->
    exists c, lstsq design_matrix b = ok c /\ shape c = [5].

(** A field of fitted cycles: twelve months for each cell. *)
Definition fit_field (a : ndarray F) (l_lat l_lon : nat) : Prop :=
  shape a = [12; l_lat; l_lon] /\ length (data a) = 12 * (l_lat * l_lon).

End Values.

(** ** Two calls side by side *)

Section Relations.
Context {F : Type} `{Scalar F}.
(** The stores in which the two calls begin. *)
Variables g1 g2 : heap F.

(** References that show the same array whatever has been made since. *)
Definition rel_ref (r1 r2 : ref) : Prop :=
  forall l : heap F, view (g1 ++ l) r1 = view (g2 ++ l) r2.

(** References whose arrays have the same length whatever has been made since. *)
Definition rel_len (r1 r2 : ref) : Prop :=
  forall l : heap F,
    option_map (fun a => tuple_get (shape a) 0) (view (g1 ++ l) r1) =
    option_map (fun a => tuple_get (shape a) 0) (view (g2 ++ l) r2).

(** Array objects made since the calls began, at the same position. *)
Definition rel_loc (p1 p2 : loc) : Prop :=
  exists i, p1 = length g1 + i /\ p2 = length g2 + i.

(** Results that are the same exception or related values. *)
Definition rel_result {A : Type} (R : A -> A -> Prop) (r1 r2 : result A) : Prop :=
  match r1, r2 with
  | inl e1, inl e2 => e1 = e2
  | inr a1, inr a2 => R a1 a2
  | _, _ => False
  end.

(** Two calls that make the same new arrays and end alike. *)
Definition sim {A : Type} (R : A -> A -> Prop) (c1 c2 : py F A) : Prop :=
  forall l : heap F, exists l' : heap F,
    snd (c1 (g1 ++ l)) = g1 ++ l' /\ snd (c2 (g2 ++ l)) = g2 ++ l' /\
    rel_result R (fst (c1 (g1 ++ l))) (fst (c2 (g2 ++ l))).

Definition rel_triple (t1 t2 : loc * loc * loc) : Prop :=
  rel_loc (fst (fst t1)) (fst (fst t2)) /\
  rel_loc (snd (fst t1)) (snd (fst t2)) /\
  rel_loc (snd t1) (snd t2).

End Relations.

Section Outcomes.
Context {F : Type} `{Scalar F}.

(** Two calls, begun in stores [h1] and [h2], that leave those stores as
    they were, add the same new arrays to both, and end alike: the same
    exception, or results that are alike in the stores left. *)
Definition same_new_arrays {A : Type} (same : heap F -> heap F -> A -> A -> Prop)
    (h1 h2 : heap F) (o1 o2 : result A * heap F) : Prop :=
  exists news : heap F,
    snd o1 = h1 ++ news /\ snd o2 = h2 ++ news /\
    rel_result (same (snd o1) (snd o2)) (fst o1) (fst o2).

(** Locations that hold the same array. *)
Definition same_array (s1 s2 : heap F) (p1 p2 : loc) : Prop :=
  s1 !! p1 = s2 !! p2.

Definition same_arrays3 (s1 s2 : heap F) (t1 t2 : loc * loc * loc) : Prop :=
  same_array s1 s2 (fst (fst t1)) (fst (fst t2)) /\
  same_array s1 s2 (snd (fst t1)) (snd (fst t2)) /\
  same_array s1 s2 (snd t1) (snd t2).

End Outcomes.

(** ** Real numbers as items, and sample stores *)

#[export] Instance real_scalar : Scalar R := {|
  f_zero := 0%R;
  f_one := 1%R;
  f_add := Rplus;
  f_sub := Rminus;
  f_mul := Rmult;
  f_div := Rdiv;
  f_of_nat := INR;
  f_pi := PI;
  f_cos := cos;
  f_sin := sin
|}.

(** A grid of shape (T, n_lat, n_lon) holding 0, 1, 2, ... *)
Definition sample_grid (T n_lat n_lon : nat) : ndarray R :=
  {| shape := [T; n_lat; n_lon]; data := map INR (seq 0 (T * (n_lat * n_lon))) |}.

(** A coordinate array of [n] values from [a] on. *)
Definition sample_axis (a n : nat) : ndarray R :=
  {| shape := [n]; data := map INR (seq a n) |}.

(** A store with a grid at location 0 and its coordinate arrays at 1 and 2. *)
Definition sample_store (T n_lat n_lon l_lat l_lon : nat) : heap R :=
  [sample_grid T n_lat n_lon; sample_axis 0 l_lat; sample_axis 0 l_lon].

(** A solver that answers every system with five zero coefficients. *)
Definition zero_solver (a b : ndarray R) : result (ndarray R) := ok (zeros [5]).

(** ** Binary64 numbers as items *)

(** The items of a float64 array: IEEE 754 binary64 numbers (53 bits of
    precision, exponents below 1024), every operation rounding to the
    nearest, ties to even. [np.cos] and [np.sin] are those of the
    platform: any two functions. *)
Definition binary64 (cos sin : spec_float -> spec_float) : Scalar spec_float := {|
  f_zero := S754_zero false;
  f_one := S754_finite false 4503599627370496 (-52);
  f_add := SFadd 53 1024;
  f_sub := SFsub 53 1024;
  f_mul := SFmul 53 1024;
  f_div := SFdiv 53 1024;
  f_of_nat := fun n => binary_normalize 53 1024 (Z.of_nat n) 0 false;
  f_pi := S754_finite false 7074237752028440 (-51);
  f_cos := cos;
  f_sin := sin
|}.

(** A number that is neither an infinity nor NaN. *)
Definition finite (x : spec_float) : Prop :=
  match x with
  | S754_zero _ | S754_finite _ _ _ => True
  | S754_infinity _ | S754_nan => False
  end.

(** The binary64 numbers written 0.1 and 1.9. *)
Definition b64_0_1 : spec_float := S754_finite false 7205759403792794 (-56).
Definition b64_1_9 : spec_float := S754_finite false 8556839292003942 (-52).

(** Two years at one cell: 0.1 in every month of the first year, 1.9 in
    every month of the second. *)
Definition two_year_grid : ndarray spec_float :=
  {| shape := [24; 1; 1]; data := replicate 12 b64_0_1 ++ replicate 12 b64_1_9 |}.

Definition one_point_axis : ndarray spec_float :=
  {| shape := [1]; data := [S754_zero false] |}.

(** The grid at location 0 and its coordinate arrays at 1 and 2. *)
Definition two_year_store : heap spec_float :=
  [two_year_grid; one_point_axis; one_point_axis].

(** A solver that answers with the first of the values and four zeros:
    the least-squares solution when the twelve values are equal. *)
Definition constant_solver {F : Type} `{Scalar F} (a b : ndarray F) : result (ndarray F) :=
  ok {| shape := [5]; data := [item b 0; f_zero; f_zero; f_zero; f_zero] |}.

(** * The other helpers of the repository *)

(** ** Python text, lists and paths *)

(** A Python [str] is the sequence of its characters. File names are kept
    as the bytes the system gives them; the characters the source looks
    for (["_"], ["/"], ["."]) are single bytes. *)

(** [s.startswith(prefix)] *)
Fixpoint str_startswith (s prefix : string) : bool :=
  match prefix, s with
  | EmptyString, _ => true
  | String c prefix', String d s' => Ascii.eqb c d && str_startswith s' prefix'
  | String _ _, EmptyString => false
  end.

(** [s.endswith(suffix)]: [s] is [suffix], or what follows its first
    character ends with [suffix]. *)
Fixpoint str_endswith (s suffix : string) : bool :=
  String.eqb s suffix ||
  match s with
  | EmptyString => false
  | String _ s' => str_endswith s' suffix
  end.

(** [s.split(sep)] for a separator of one character: the pieces between
    the separators, one more than there are separators. *)
Fixpoint str_split (sep : ascii) (s : string) : list string :=
  match s with
  | EmptyString => [EmptyString]
  | String c s' =>
      if Ascii.eqb c sep then EmptyString :: str_split sep s'
      else match str_split sep s' with
           | w :: ws => String c w :: ws
           | [] => [String c EmptyString]
           end
  end.

(** [sep.join(pieces)] *)
Definition str_join (sep : string) (pieces : list string) : string :=
  String.concat sep pieces.

(** The position a slice bound [i] stands for in a list of length [n]:
    negative bounds count from the end, and all are clipped to [0..n]. *)
Definition slice_bound (n : nat) (i : Z) : nat :=
  if (i <? 0)%Z then Z.to_nat (Z.max 0 (Z.of_nat n + i)) else Nat.min n (Z.to_nat i).

(** [l[start:stop]], a bound left out being [None]. *)
Definition py_slice {A : Type} (start stop : option Z) (l : list A) : list A :=
  let n := length l in
  let a := match start with Some i => slice_bound n i | None => 0 end in
  let b := match stop with Some i => slice_bound n i | None => n end in
  take (b - a) (drop a l).

(** [posixpath.join(a, *p)] *)
Definition path_join_step (path b : string) : string :=
  if str_startswith b "/" then b
  else if String.eqb path "" || str_endswith path "/" then path +:+ b
  else path +:+ "/" +:+ b.

Definition os_path_join (a : string) (p : list string) : string :=
  fold_left path_join_step p a.

(** [posixpath.basename(p)]: what follows the last ["/"]. *)
Definition os_path_basename (p : string) : string :=
  List.last (str_split "/" p) EmptyString.

(** ** Exceptions of the file and dictionary helpers *)

(** The [OSError] subclasses the operating system answers with. *)
Inductive os_error : Type :=
| FileNotFoundError
| NotADirectoryError
| IsADirectoryError
| FileExistsError
| PermissionError
| OtherOSError.

Inductive raised : Type :=
| Builtin (e : exn)
| KeyError
| OSError (e : os_error).

Definition outcome (A : Type) : Type := (raised + A)%type.

Definition obind {A B : Type} (c : outcome A) (k : A -> outcome B) : outcome B :=
  match c with
  | inl e => inl e
  | inr a => k a
  end.

Declare Scope outcome_scope.
Delimit Scope outcome_scope with outcome.
Notation "'let!' x ':=' c 'in' k" := (obind c (fun x => k))
  (at level 10, x name, c at level 100, k at level 200) : outcome_scope.
Notation "'let!' ' x ':=' c 'in' k" := (obind c (fun x => k))
  (at level 10, x strict pattern, c at level 100, k at level 200) : outcome_scope.

(** A list comprehension whose element expression can raise. *)
Fixpoint comprehension {A B : Type} (f : A -> outcome B) (l : list A) : outcome (list B) :=
  match l with
  | [] => inr []
  | x :: l' =>
      obind (f x) (fun y => obind (comprehension f l') (fun ys => inr (y :: ys)))
  end.

(** A [for] loop that updates its variables [s] and can raise. *)
Fixpoint for_loop {A S : Type} (l : list A) (body : S -> A -> outcome S) (s : S) : outcome S :=
  match l with
  | [] => inr s
  | x :: l' => obind (body s x) (for_loop l' body)
  end.

(** [l[i]] for a list and an index that is not negative. *)
Definition list_getitem {A : Type} (l : list A) (i : nat) : outcome A :=
  match l !! i with
  | Some x => inr x
  | None => inl (Builtin (IndexError "list index out of range"))
  end.

(** [enumerate(l)] *)
Definition enumerate {A : Type} (l : list A) : list (nat * A) :=
  zip (seq 0 (length l)) l.

(** [d[k]] for a dict. *)
Definition dict_getitem `{Countable K} {A : Type} (d : gmap K A) (k : K) : outcome A :=
  match d !! k with
  | Some x => inr x
  | None => inl KeyError
  end.

(** ** [available_complementary_variables] *)

(** What the function reads of the file system: the answers of
    [os.listdir] and [os.path.isdir]. *)
Record directory_listing : Type := {
  os_listdir : string -> os_error + list string;
  os_path_isdir : string -> bool
}.

Section ComplementaryVariables.
Variable fs : directory_listing.
Local Open Scope outcome_scope.

(** [[f for f in os.listdir(path) if os.path.isdir(os.path.join(path, f))]] *)
Definition listdir_folders (path : string) : outcome (list string) :=
  match os_listdir fs path with
  | inl e => inl (OSError e)
  | inr names => inr (List.filter (fun f => os_path_isdir fs (os_path_join path [f])) names)
  end.

(** ['_'.join(name.split('_')[1:-1])]: the folder name without its first
    and last fields. *)
Definition inner_fields (name : string) : string :=
  str_join "_" (py_slice (Some 1%Z) (Some (-1)%Z) (str_split "_" name)).

Definition available_complementary_variables
    (root_path experiment_category primary_variable : string)
    (complementary_variables : list string)
  : outcome (gmap nat (list (string * list string))) :=
  let primary_variable_path :=
    os_path_join root_path [experiment_category; primary_variable] in
  let! primary_variable_datasets := listdir_folders primary_variable_path in
  let primary_variable_datasets := map inner_fields primary_variable_datasets in
  let complementary_variables_path :=
    map (fun complementary_variable =>
           os_path_join root_path [experiment_category; complementary_variable])
        complementary_variables in
  let! complementary_variables_datasets :=
    comprehension listdir_folders complementary_variables_path in
  let! complementary_variables_name :=
    comprehension
      (comprehension (fun complementary_variable_dataset =>
         list_getitem (str_split "_" complementary_variable_dataset) 0))
      complementary_variables_datasets in
  let complementary_variables_datasets :=
    map (map inner_fields) complementary_variables_datasets in
  for_loop primary_variable_datasets
    (fun dict_datasets primary_variable_dataset =>
       let! '(count, names) :=
         for_loop (enumerate complementary_variables_datasets)
           (fun '(count, names) '(i, complementary_variable) =>
              if bool_decide (primary_variable_dataset ∈ complementary_variable)
              then
                let! row := list_getitem complementary_variables_name i in
                let! name := list_getitem row 0 in
                inr (count + 1, names ++ [name])
              else inr (count, names))
           (0, []) in
       let dict_datasets :=
         if bool_decide (is_Some (dict_datasets !! count)) then dict_datasets
         else <[count := []]> dict_datasets in
       let! entries := dict_getitem dict_datasets count in
       inr (<[count := entries ++ [(primary_variable_dataset, names)]]> dict_datasets))
    ∅.

End ComplementaryVariables.

(** ** [init_models_dict] *)

(** A CORDEX dataset, as far as the function reads it: three text
    attributes. *)
Record dataset : Type := {
  model_id : string;
  driving_model_id : string;
  CORDEX_domain : string
}.

(** A dict with text keys whose values are [None] or what a caller stores
    later (Python's [None] is [None]), and the store of the dict objects
    made so far. *)
Abbreviation fields V := (gmap string (option V)).
Abbreviation dict_store V := (list (fields V)).

Section ModelsDict.
Context {V : Type}.

Definition content : fields V :=
  <["cordex_domain" := None]> (
  <["driving_model_id" := None]> (
  <["model_id" := None]> (
  <["huss" := None]> (
  <["time" := None]> (
  <["lon" := None]> (
  <["lat" := None]> (
  <["monthly_mean" := None]> (
  <["monthly_mean_fit" := None]> (
  <["anomaly_series" := None]> ∅))))))))).

(** [model.model_id + '_' + model.driving_model_id + '_' + model.CORDEX_domain] *)
Definition model_name (model : dataset) : string :=
  model_id model +:+ "_" +:+ driving_model_id model +:+ "_" +:+ CORDEX_domain model.

(** The result is the dict of the models, whose values are references to
    dict objects in the store left. *)
Definition init_models_dict (cordex_datasets : list dataset) (h : dict_store V)
  : gmap string loc * dict_store V :=
  let l_content := length h in
  let h := h ++ [content] in
  fold_left
    (fun '(models_dict, h) model =>
       let copy := default ∅ (h !! l_content) in
       (<[model_name model := length h]> models_dict, h ++ [copy]))
    cordex_datasets (∅, h).

(** [models_dict[name][key] = value], the assignment a caller makes. *)
Definition setitem_field (models_dict : gmap string loc) (name key : string)
    (value : option V) (h : dict_store V) : outcome (dict_store V) :=
  match models_dict !! name with
  | Some l => inr (alter (<[key := value]>) l h)
  | None => inl KeyError
  end.

End ModelsDict.

(** ** Vocabulary of the file and dictionary helpers *)

(** The character [c] does not occur in [s]. *)
Fixpoint str_free (c : ascii) (s : string) : Prop :=
  match s with
  | EmptyString => True
  | String d s' => d <> c /\ str_free c s'
  end.

(** The text before the first ["_"] of a folder name. *)
Definition first_field (name : string) : string := hd "" (str_split "_" name).

(** The listings, among [listings], in which a folder has the inner
    fields [p]. *)
Definition holding (p : string) (listings : list (list string)) : list (list string) :=
  filter (fun folders => p ∈ map inner_fields folders) listings.

(** The names reported for [p]: the first field of the first folder of
    each listing that holds [p]. *)
Definition reported_names (p : string) (listings : list (list string)) : list string :=
  map (fun folders => first_field (hd "" folders)) (holding p listings).

(** The entries under key [c]: the primary folders held by exactly [c]
    listings, in the order of the primary listing. *)
Definition group (c : nat) (primary : list string) (listings : list (list string))
  : option (list (string * list string)) :=
  match filter (fun p => length (holding p listings) = c) primary with
  | [] => None
  | g => Some (map (fun p => (p, reported_names p listings)) g)
  end.

Section ModelsDictInvariant.
Context {V : Type}.

(** What the loop of [init_models_dict] keeps: the store is the one the
    call began in, the template and one copy for each dataset done; the
    dict holds the names of the datasets done; every value is the
    location of a copy, and no two names share one. *)
Record models_invariant (h0 : dict_store V) (done : list dataset)
    (models_dict : gmap string loc) (h : dict_store V) : Prop := {
  inv_store : h = h0 ++ content :: replicate (length done) (content);
  inv_keys : forall k, is_Some (models_dict !! k) <-> k ∈ map model_name done;
  inv_fresh : forall k l, models_dict !! k = Some l -> length h0 < l < length h;
  inv_separate : forall k1 k2 l,
    models_dict !! k1 = Some l -> models_dict !! k2 = Some l -> k1 = k2
}.

End ModelsDictInvariant.

(** The three attributes hold no ["_"]. *)
Definition plain_attributes (model : dataset) : Prop :=
  str_free "_" (model_id model) /\ str_free "_" (driving_model_id model) /\
  str_free "_" (CORDEX_domain model).

(** A root folder [data] with the experiment [historical]: two folders and
    a file for [huss], one folder for [tas], two for [pr]; nothing else. *)
Definition sample_listing : directory_listing := {|
  os_listdir := fun path =>
    if String.eqb path "data/historical/huss"
    then inr ["huss_EUR-11_ICHEC_RCA4_mon"; "huss_EUR-11_MPI_RCA4_mon"; "notes.txt"]
    else if String.eqb path "data/historical/tas"
    then inr ["tas_EUR-11_ICHEC_RCA4_mon"]
    else if String.eqb path "data/historical/pr"
    then inr ["pr_EUR-11_ICHEC_RCA4_mon"; "pr_EUR-11_MPI_RCA4_mon"]
    else inl FileNotFoundError;
  os_path_isdir := fun path => negb (str_endswith path ".txt")
|}.

(** ** Sample folders and datasets *)

Definition sample_datasets : list dataset :=
  [ {| model_id := "RCA4"; driving_model_id := "ICHEC"; CORDEX_domain := "EUR-11" |};
    {| model_id := "RCA4"; driving_model_id := "MPI"; CORDEX_domain := "EUR-11" |} ].

(** ** Vocabulary of the fitted field *)

Section FittedCells.
Context {F : Type} `{Scalar F}.
Variable lstsq : ndarray F -> ndarray F -> result (ndarray F).

(** The field [a] holds at cell [(i, j)] the cycle that
    [monthly_regression] returns for the twelve values [m[:, i, j]]. *)
Definition fitted_cell (m a : ndarray F) (i j : nat) : Prop :=
  exists cell out,
    getitem_col3 m i j = ok cell /\ regression_value lstsq cell = ok out /\
    shape out = [12] /\ forall t, t < 12 -> item3 a t i j = item out t.

End FittedCells.

(** ** More Python text *)

(** [s.count(c)] for a text [c] of one character. *)
Fixpoint str_count (s : string) (c : ascii) : nat :=
  match s with
  | EmptyString => 0
  | String d s' => (if Ascii.eqb d c then 1 else 0) + str_count s' c
  end.

(** [s * n] *)
Fixpoint str_mul (s : string) (n : nat) : string :=
  match n with
  | 0 => EmptyString
  | S n' => s +:+ str_mul s n'
  end.

(** [s.replace(old, new)] for an [old] that is not empty: from left to
    right, every occurrence of [old] that does not overlap one replaced
    before. [skip] counts what is left to pass over of the occurrence
    just replaced. *)
Fixpoint str_replace_from (old new : string) (skip : nat) (s : string) : string :=
  match s with
  | EmptyString => EmptyString
  | String c s' =>
      match skip with
      | S skip' => str_replace_from old new skip' s'
      | 0 =>
          if str_startswith (String c s') old
          then new +:+ str_replace_from old new (String.length old - 1) s'
          else String c (str_replace_from old new 0 s')
      end
  end.

(** [new] after every character of [s]. *)
Fixpoint str_follow (new s : string) : string :=
  match s with
  | EmptyString => EmptyString
  | String c s' => String c (new +:+ str_follow new s')
  end.

(** [s.replace(old, new)]; an empty [old] is found before every character
    and at the end. *)
Definition str_replace (s old new : string) : string :=
  match old with
  | EmptyString => new +:+ str_follow new s
  | String _ _ => str_replace_from old new 0 s
  end.

(** [os.sep] *)
Definition os_sep : ascii := "/".

(** ** The operating system *)

(** What [os.walk] yields for one folder: its path, the names of the
    folders in it and the names of its files. *)
Definition walk_entry : Type := string * list string * list string.

(** The calls of module [os] that [utils.py] and [auxiliar.py] make, on a
    file system in state [FS]. A call that changes the file system gives
    the state it leaves, and the error it raised if it raised one. *)
Module os.
Record calls (FS : Type) : Type := {
  listdir : string -> FS -> os_error + list string;
  path_exists : string -> FS -> bool;
  makedirs : string -> FS -> option os_error * FS;
  rename : string -> string -> FS -> option os_error * FS;
  walk : string -> FS -> list walk_entry
}.
Arguments listdir {FS}.
Arguments path_exists {FS}.
Arguments makedirs {FS}.
Arguments rename {FS}.
Arguments walk {FS}.
End os.

(** A statement that runs from a file system and the lines printed so
    far: what it returns or raises, and the file system and lines it
    leaves. *)
Definition io (FS A : Type) : Type :=
  FS * list string -> outcome A * (FS * list string).

Section Io.
Context {FS : Type}.

Definition io_ret {A : Type} (a : A) : io FS A := fun st => (inr a, st).

Definition io_bind {A B : Type} (c : io FS A) (k : A -> io FS B) : io FS B :=
  fun st =>
    match c st with
    | (inl e, st') => (inl e, st')
    | (inr a, st') => k a st'
    end.

(** [print(line)] *)
Definition print (line : string) : io FS unit :=
  fun '(fs, out) => (inr tt, (fs, out ++ [line])).

(** A call that reads the file system. *)
Definition os_read {A : Type} (call : FS -> os_error + A) : io FS A :=
  fun '(fs, out) =>
    match call fs with
    | inl e => (inl (OSError e), (fs, out))
    | inr a => (inr a, (fs, out))
    end.

(** A call that changes the file system. *)
Definition os_write (call : FS -> option os_error * FS) : io FS unit :=
  fun '(fs, out) =>
    match call fs with
    | (Some e, fs') => (inl (OSError e), (fs', out))
    | (None, fs') => (inr tt, (fs', out))
    end.

(** [for x in l: body] *)
Fixpoint io_for {A : Type} (l : list A) (body : A -> io FS unit) : io FS unit :=
  match l with
  | [] => io_ret tt
  | x :: l' => io_bind (body x) (fun _ => io_for l' body)
  end.

End Io.

Declare Scope io_scope.
Delimit Scope io_scope with io.
Notation "x <- c ;; k" := (io_bind c (fun x => k))
  (at level 100, c at next level, right associativity) : io_scope.
Notation "c ;; k" := (io_bind c (fun _ => k))
  (at level 100, right associativity) : io_scope.

(** ** [utils.py] *)

Section Utils.
Context {FS : Type}.
Variable sys : os.calls FS.
Local Open Scope io_scope.

Definition sort_model_files_by_folder (data_path : string) : io FS unit :=
  names <- os_read (os.listdir sys data_path);;
  let files := List.filter (fun f => str_endswith f ".nc") names in
  if length files =? 0 then print "No hay archivos .nc en el directorio."
  else
    io_for files (fun f =>
      let name := py_slice None (Some (-1)%Z) (str_split "_" f) in
      let model := str_join "_" name in
      found <- os_read (fun fs => inr (os.path_exists sys (os_path_join data_path [model]) fs));;
      (if negb found then os_write (os.makedirs sys (os_path_join data_path [model]))
       else io_ret tt);;
      os_write (os.rename sys (os_path_join data_path [f])
                              (os_path_join data_path [model; f]));;
      print ("Archivo " +:+ f +:+ " movido a " +:+ model));;
    print "Archivos movidos correctamente.".

(** What [os.walk] yields is read at once: the loop changes nothing that
    the walk could see. *)
Definition print_tree_folders (path : string) : io FS unit :=
  entries <- os_read (fun fs => inr (os.walk sys path fs));;
  io_for entries (fun '(root, dirs, files) =>
    let level := str_count (str_replace root path "") os_sep in
    let indent := str_mul (str_mul " " 4) level in
    print (indent +:+ os_path_basename root +:+ "/")).

End Utils.

(** ** [auxiliar.py] *)

Definition base_dir : string := "cordex_models/historical".
Definition variable_principal : string := "huss".

Section Auxiliar.
Context {FS : Type}.
Variable sys : os.calls FS.
Local Open Scope outcome_scope.

(** The dict that the script prints. *)
Definition result_dict (fs : FS) : outcome (gmap nat (list string)) :=
  for_loop (os.walk sys base_dir fs)
    (fun result_dict '(root, dirs, files) =>
       if str_endswith root variable_principal then
         let model_name := os_path_basename root in
         let aux_vars : gset string :=
           fold_left (fun aux_vars dir_name =>
                        if bool_decide (dir_name <> variable_principal)
                        then aux_vars ∪ {[dir_name]} else aux_vars)
                     dirs ∅ in
         let num_aux_vars := size aux_vars in
         let result_dict :=
           if bool_decide (is_Some (result_dict !! num_aux_vars)) then result_dict
           else <[num_aux_vars := []]> result_dict in
         let! entries := dict_getitem result_dict num_aux_vars in
         inr (<[num_aux_vars := entries ++ [model_name]]> result_dict)
       else inr result_dict)
    ∅.

End Auxiliar.

(** ** Vocabulary of [utils.py] and [auxiliar.py] *)

(** The names of [dirs] other than [variable_principal]. *)
Definition other_folders (dirs : list string) : gset string :=
  list_to_set (filter (fun dir_name => dir_name <> variable_principal) dirs).

(** The names recorded under key [c]: the last components of the folders
    walked whose path ends with [variable_principal] and that hold [c]
    other folders, in the order walked. *)
Definition walk_group (c : nat) (entries : list walk_entry) : option (list string) :=
  match filter (fun e : walk_entry => size (other_folders e.1.2) = c)
          (filter (fun e : walk_entry => str_endswith e.1.1 variable_principal = true)
                  entries) with
  | [] => None
  | g => Some (map (fun e : walk_entry => os_path_basename e.1.1) g)
  end.

(** The name of a folder or file: not empty, without ["/"]. *)
Definition plain_name (name : string) : Prop := name <> "" /\ str_free "/" name.

(** The first [n] characters of [s] are not [c]. *)
Fixpoint free_prefix (c : ascii) (n : nat) (s : string) : Prop :=
  match n, s with
  | S n', String d s' => d <> c /\ free_prefix c n' s'
  | _, _ => True
  end.

(** The names that end with [".nc"]. *)
Definition nc_files (names : list string) : list string :=
  List.filter (fun f => str_endswith f ".nc") names.

(** ** A sample system *)

(** A system whose state counts the changes made: folder [data] holds
    one [.nc] file without ["_"], folder [models] one with, folder
    [notes] none; the only folders that exist are those three; renaming
    a path onto itself changes nothing. *)
Definition sample_system : os.calls nat := {|
  os.listdir := fun path _ =>
    if String.eqb path "data" then inr ["pr.nc"; "readme.txt"]
    else if String.eqb path "models" then inr ["tas_EUR-11_day.nc"]
    else if String.eqb path "notes" then inr ["readme.txt"; "nc"]
    else inl FileNotFoundError;
  os.path_exists := fun path _ =>
    String.eqb path "data/" || String.eqb path "models/" || String.eqb path "notes/";
  os.makedirs := fun _ n => (None, S n);
  os.rename := fun a b n => (None, if String.eqb a b then n else S n);
  os.walk := fun path _ =>
    if String.eqb path "cordex"
    then [("cordex", ["historical"], ["readme.txt"]);
          ("cordex/historical", ["huss"; "tas"], []);
          ("cordex/historical/huss", [], ["huss_day.nc"]);
          ("cordex/historical/tas", [], [])]
    else if String.eqb path base_dir
    then [("cordex_models/historical", ["huss"; "tas"], []);
          ("cordex_models/historical/huss", ["huss"; "RCA4"; "REMO"; "RCA4"], []);
          ("cordex_models/historical/huss/RCA4", [], ["a.nc"]);
          ("cordex_models/historical/tas", ["RCA4"], [])]
    else []
|}.

(** [path] occurs in [root] at its beginning only. *)
Definition occurs_first_only (path root : string) : Prop :=
  forall a b, root = a +:+ path +:+ b -> a = "".

(** [s[n:]] *)
Fixpoint str_drop (n : nat) (s : string) : string :=
  match n, s with
  | S n', String _ s' => str_drop n' s'
  | _, _ => s
  end.

(** [path] occurs in [root] after its beginning. *)
Definition occurs_later (path root : string) : bool :=
  existsb (fun k => str_startswith (str_drop k root) path) (seq 1 (String.length root)).

(** * Properties *)

(** ** Arithmetic of shapes and items *)

Section ArrayFacts.
Context {F : Type} `{Scalar F}.

Lemma nth_take_lt (l : list F) (k m : nat) (d : F) :
  k < m -> nth k (take m l) d = nth k l d.
Proof.
  intros Hk. rewrite !nth_lookup. rewrite lookup_take.
  destruct (decide (k < m)); [reflexivity | lia].
Qed.

Lemma nth_map_seq (g : nat -> F) (n k : nat) (d : F) :
  k < n -> nth k (map g (seq 0 n)) d = g k.
Proof.
  intros Hk. rewrite nth_lookup, list_lookup_fmap, lookup_seq_lt by exact Hk.
  reflexivity.
Qed.

Lemma length_map_seq (g : nat -> F) (n : nat) : length (map g (seq 0 n)) = n.
Proof. rewrite length_map, length_seq. reflexivity. Qed.

Lemma tuple_get_len (a : ndarray F) (n : nat) :
  len a = ok n -> tuple_get (shape a) 0 = ok n.
Proof.
  unfold len, tuple_get. destruct (shape a) as [|m rest]; simpl.
  - discriminate.
  - intros [= ->]. reflexivity.
Qed.

Lemma len_tuple_get (a : ndarray F) (n : nat) :
  tuple_get (shape a) 0 = ok n -> len a = ok n.
Proof.
  unfold len, tuple_get. destruct (shape a) as [|m rest]; simpl.
  - discriminate.
  - intros [= ->]. reflexivity.
Qed.

Lemma map_ext_seq (g1 g2 : nat -> F) (n : nat) :
  (forall k, k < n -> g1 k = g2 k) -> map g1 (seq 0 n) = map g2 (seq 0 n).
Proof.
  intros Hg. apply map_ext_in. intros k Hk. apply in_seq in Hk. apply Hg. lia.
Qed.

End ArrayFacts.

(** ** Running the calls of the embedding *)

Section Running.
Context {F : Type} `{Scalar F}.
Variable lstsq : ndarray F -> ndarray F -> result (ndarray F).

Lemma run_bind {A B : Type} (c : py F A) (k : A -> py F B) (h : heap F) :
  bind c k h =
    match c h with
    | (inl e, h') => (inl e, h')
    | (inr a, h') => k a h'
    end.
Proof. reflexivity. Qed.

Lemma read_run (h : heap F) (r : ref) (a : ndarray F) :
  view h r = Some a -> read r h = (ok a, h).
Proof. intros Hr. unfold read. rewrite Hr. reflexivity. Qed.

Lemma ndarray_shape_run (h : heap F) (r : ref) (a : ndarray F) :
  view h r = Some a -> ndarray_shape r h = (ok (shape a), h).
Proof.
  intros Hr. unfold ndarray_shape. rewrite run_bind, (read_run _ _ _ Hr).
  reflexivity.
Qed.

Lemma getitem_tuple_run (h : heap F) (s : list nat) (i : nat) :
  getitem_tuple s i h = (tuple_get s i, h).
Proof. reflexivity. Qed.

Lemma py_len_run (h : heap F) (r : ref) (a : ndarray F) :
  view h r = Some a -> py_len r h = (len a, h).
Proof.
  intros Hr. unfold py_len. rewrite run_bind, (read_run _ _ _ Hr).
  reflexivity.
Qed.

Lemma getitem_slice_to_run (h : heap F) (r : ref) (k : nat) (a : ndarray F) :
  view h r = Some a ->
  getitem_slice_to r k h =
    (match slice_to k a with inl e => inl e | inr _ => ok (SliceTo k r) end, h).
Proof.
  intros Hr. unfold getitem_slice_to. rewrite run_bind, (read_run _ _ _ Hr).
  unfold bind, lift, ret, ok. destruct (slice_to k a); reflexivity.
Qed.

Lemma ndarray_reshape_run (h : heap F) (r : ref) (dims : list (option nat))
    (a : ndarray F) :
  view h r = Some a ->
  ndarray_reshape r dims h =
    (match reshape a dims with inl e => inl e | inr _ => ok (Reshaped dims r) end, h).
Proof.
  intros Hr. unfold ndarray_reshape. rewrite run_bind, (read_run _ _ _ Hr).
  unfold bind, lift, ret, ok. destruct (reshape a dims); reflexivity.
Qed.

Lemma getitem_col_run (h : heap F) (r : ref) (i j : nat) (a : ndarray F) :
  view h r = Some a ->
  getitem_col r i j h =
    (match getitem_col3 a i j with inl e => inl e | inr _ => ok (Col3 i j r) end, h).
Proof.
  intros Hr. unfold getitem_col. rewrite run_bind, (read_run _ _ _ Hr).
  unfold bind, lift, ret, ok. destruct (getitem_col3 a i j); reflexivity.
Qed.

Lemma np_mean_run (h : heap F) (r : ref) (a : ndarray F) :
  view h r = Some a ->
  np_mean r h =
    match mean_axis0 a with
    | inl e => (inl e, h)
    | inr m => (ok (length h), h ++ [m])
    end.
Proof.
  intros Hr. unfold np_mean. rewrite run_bind, (read_run _ _ _ Hr).
  unfold bind, lift, alloc, ok. destruct (mean_axis0 a); reflexivity.
Qed.

End Running.

Tactic Notation "py_step" uconstr(lem) :=
  rewrite run_bind, lem; cbv beta iota delta [ok raise].

(** ** What [monthly_mean] computes *)

Section MonthlyMean.
Context {F : Type} `{Scalar F}.
Local Open Scope result_scope.


(** A call of [monthly_mean] reads its three arguments, leaves every
    array of the store as it was, and returns its value as a new array. *)
Lemma monthly_mean_run (h : heap F) (ts lat lon : ref) (X A B : ndarray F) :
  view h ts = Some X -> view h lat = Some A -> view h lon = Some B ->
  monthly_mean ts lat lon h =
    match monthly_mean_value X A B with
    | inl e => (inl e, h)
    | inr m => (ok (length h), h ++ [m])
    end.
Proof.
  intros HX HA HB. unfold monthly_mean, monthly_mean_value.
  py_step (ndarray_shape_run _ _ _ HX).
  py_step getitem_tuple_run.
  destruct (tuple_get (shape X) 0) as [e|n]; [reflexivity|].
  cbv beta iota zeta. unfold rbind at 1.
  py_step (getitem_slice_to_run _ _ (n / 12 * 12) _ HX).
  destruct (slice_to (n / 12 * 12) X) as [e|head] eqn:Hhead; [reflexivity|].
  unfold rbind at 1.
  py_step (ndarray_shape_run _ _ _ HA).
  py_step getitem_tuple_run.
  destruct (tuple_get (shape A) 0) as [e|n_lat]; [reflexivity|].
  unfold rbind at 1.
  py_step (ndarray_shape_run _ _ _ HB).
  py_step getitem_tuple_run.
  destruct (tuple_get (shape B) 0) as [e|n_lon]; [reflexivity|].
  unfold rbind at 1.
  assert (Hv : view h (SliceTo (n / 12 * 12) ts) = Some head).
  { simpl. rewrite HX, Hhead. reflexivity. }
  py_step (ndarray_reshape_run _ _ [None; Some 12; Some n_lat; Some n_lon] _ Hv).
  destruct (reshape head _) as [e|grouped] eqn:Hgrouped; [reflexivity|].
  unfold rbind at 1.
  assert (Hg : view h (Reshaped [None; Some 12; Some n_lat; Some n_lon]
                         (SliceTo (n / 12 * 12) ts)) = Some grouped).
  { simpl. rewrite HX, Hhead. simpl. rewrite Hgrouped. reflexivity. }
  py_step (np_mean_run _ _ _ Hg).
  destruct (mean_axis0 grouped) as [e|m]; reflexivity.
Qed.


Lemma monthly_mean_value_grid (X A B : ndarray F) (T n_lat n_lon l_lat l_lon : nat) :
  shape X = [T; n_lat; n_lon] ->
  len A = ok l_lat -> len B = ok l_lon ->
  let S := complete_size T n_lat n_lon in
  let K := group_size l_lat l_lon in
  monthly_mean_value X A B =
    if (K =? 0) || negb (S mod K =? 0)
    then raise (ValueError "cannot reshape array")
    else ok (grouped_mean X S K l_lat l_lon).
Proof.
  intros HX HA HB S K. unfold monthly_mean_value.
  rewrite (tuple_get_len _ _ HA), (tuple_get_len _ _ HB).
  rewrite HX. unfold tuple_get, slice_to. rewrite HX. simpl.
  unfold reshape, resolve_shape. simpl.
  assert (Hmin : Nat.min (T / 12 * 12) T = T / 12 * 12).
  { apply Nat.min_l. rewrite Nat.mul_comm. apply Nat.Div0.mul_div_le. }
  rewrite Hmin.
  replace (T / 12 * 12 * (n_lat * (n_lon * 1))) with S by (unfold S, complete_size; lia).
  replace (12 * (l_lat * (l_lon * 1))) with K by (unfold K, group_size; lia).
  destruct ((K =? 0) || negb (S mod K =? 0)); simpl; [reflexivity|].
  unfold mean_axis0, grouped_mean, item. simpl.
  replace (12 * (l_lat * (l_lon * 1))) with K by (unfold K, group_size; lia).
  reflexivity.
Qed.

Lemma complete_size_matching (T n_lat n_lon : nat) :
  0 < n_lat -> 0 < n_lon ->
  let S := complete_size T n_lat n_lon in
  let K := group_size n_lat n_lon in
  (K =? 0) || negb (S mod K =? 0) = false /\ S / K = T / 12 /\ S = T / 12 * K.
Proof.
  intros Hlat Hlon S K.
  assert (HS : S = T / 12 * K) by (unfold S, K, complete_size, group_size; lia).
  assert (HK : K <> 0) by (unfold K, group_size; nia).
  repeat split.
  - apply orb_false_intro.
    + apply Nat.eqb_neq. exact HK.
    + rewrite HS, Nat.Div0.mod_mul. reflexivity.
  - rewrite HS. apply Nat.div_mul. exact HK.
  - exact HS.
Qed.

(** Items of the grouped mean on a grid whose coordinate lengths match. *)
Lemma grouped_mean_item3 (X : ndarray F) (T n_lat n_lon m i j : nat) :
  shape X = [T; n_lat; n_lon] ->
  m < 12 -> i < n_lat -> j < n_lon ->
  item3 (grouped_mean X (complete_size T n_lat n_lon) (group_size n_lat n_lon) n_lat n_lon)
        m i j =
    f_div (sum_items (map (fun y => item3 X (y * 12 + m) i j) (seq 0 (T / 12))))
          (f_of_nat (T / 12)).
Proof.
  intros HX Hm Hi Hj.
  destruct (complete_size_matching T n_lat n_lon ltac:(lia) ltac:(lia)) as (_ & Hq & HS).
  set (S := complete_size T n_lat n_lon) in *.
  set (K := group_size n_lat n_lon) in *.
  unfold item3, grouped_mean, item. simpl.
  assert (Hk : (m * n_lat + i) * n_lon + j < K) by (unfold K, group_size; nia).
  rewrite nth_map_seq by exact Hk.
  rewrite Hq. f_equal. f_equal.
  apply map_ext_in. intros y Hy. apply in_seq in Hy.
  rewrite HX. unfold item.
  rewrite nth_take_lt by (rewrite HS; nia).
  f_equal. unfold K, group_size. lia.
Qed.

End MonthlyMean.

(** ** Calls on a store with a known fresh part

    During a call the store is [h ++ l]: the caller's arrays [h], which are
    only read, and the arrays [l] made since the call began. *)

Section Views.
Context {F : Type} `{Scalar F}.
Variable lstsq : ndarray F -> ndarray F -> result (ndarray F).

Lemma view_app (h l : heap F) (r : ref) (a : ndarray F) :
  view h r = Some a -> view (h ++ l) r = Some a.
Proof.
  revert a. induction r as [p|k r IH|dims r IH|i j r IH]; intros a; simpl.
  - apply lookup_app_l_Some.
  - destruct (view h r) as [b|]; [|discriminate]. rewrite (IH b eq_refl). auto.
  - destruct (view h r) as [b|]; [|discriminate]. rewrite (IH b eq_refl). auto.
  - destruct (view h r) as [b|]; [|discriminate]. rewrite (IH b eq_refl). auto.
Qed.

Lemma view_fresh (h l : heap F) (i : nat) (a : ndarray F) :
  l !! i = Some a -> view (h ++ l) (Arr (length h + i)) = Some a.
Proof.
  intros Hl. cbn [view]. rewrite lookup_app_r by lia.
  replace (length h + i - length h) with i by lia. exact Hl.
Qed.

End Views.

Ltac fresh_view := apply view_fresh; reflexivity.
Ltac py_fail :=
  eexists; split; [reflexivity | intros ? Hv; discriminate Hv].

Section Fresh.
Context {F : Type} `{Scalar F}.
Variable lstsq : ndarray F -> ndarray F -> result (ndarray F).

Lemma alloc_run (h l : heap F) (a : ndarray F) :
  alloc a (h ++ l) = (ok (length h + length l), h ++ (l ++ [a])).
Proof. unfold alloc. rewrite length_app, app_assoc. reflexivity. Qed.

Lemma store_run (h l : heap F) (i : nat) (a : ndarray F) :
  store (length h + i) a (h ++ l) = (ok tt, h ++ <[i := a]> l).
Proof. unfold store. rewrite insert_app_r. reflexivity. Qed.

Lemma np_ones_run (h l : heap F) (s : list nat) :
  np_ones s (h ++ l) = (ok (length h + length l), h ++ (l ++ [ones s])).
Proof. apply alloc_run. Qed.

Lemma np_arange_run (h l : heap F) (a b : nat) :
  np_arange a b (h ++ l) = (ok (length h + length l), h ++ (l ++ [arange a b])).
Proof. apply alloc_run. Qed.

Lemma mul_scalar_array_run (h l : heap F) (s : F) (r : ref) (a : ndarray F) :
  view (h ++ l) r = Some a ->
  mul_scalar_array s r (h ++ l) =
    (ok (length h + length l), h ++ (l ++ [scalar_mul s a])).
Proof.
  intros Hr. unfold mul_scalar_array. rewrite run_bind, (read_run _ _ _ Hr).
  apply alloc_run.
Qed.

Lemma div_array_scalar_run (h l : heap F) (s : F) (r : ref) (a : ndarray F) :
  view (h ++ l) r = Some a ->
  div_array_scalar r s (h ++ l) =
    (ok (length h + length l), h ++ (l ++ [div_scalar a s])).
Proof.
  intros Hr. unfold div_array_scalar. rewrite run_bind, (read_run _ _ _ Hr).
  apply alloc_run.
Qed.

Lemma np_cos_run (h l : heap F) (r : ref) (a : ndarray F) :
  view (h ++ l) r = Some a ->
  np_cos r (h ++ l) = (ok (length h + length l), h ++ (l ++ [cos_items a])).
Proof.
  intros Hr. unfold np_cos. rewrite run_bind, (read_run _ _ _ Hr).
  apply alloc_run.
Qed.

Lemma np_sin_run (h l : heap F) (r : ref) (a : ndarray F) :
  view (h ++ l) r = Some a ->
  np_sin r (h ++ l) = (ok (length h + length l), h ++ (l ++ [sin_items a])).
Proof.
  intros Hr. unfold np_sin. rewrite run_bind, (read_run _ _ _ Hr).
  apply alloc_run.
Qed.


Lemma harmonic_angle_run (h l : heap F) (k i : nat) :
  l !! i = Some (arange 1 13) ->
  harmonic_angle k (length h + i) (h ++ l) =
    (ok (length h + S (length l)),
     h ++ (l ++ [scalar_mul (f_mul (f_of_nat k) f_pi) (arange 1 13); design_angles k])).
Proof.
  intros Hi. unfold harmonic_angle.
  rewrite run_bind, (mul_scalar_array_run _ _ _ _ _ (view_fresh h l i _ Hi)).
  cbv beta iota delta [ok].
  rewrite (div_array_scalar_run h _ _ (Arr (length h + length l)) (scalar_mul (f_mul (f_of_nat k) f_pi) (arange 1 13))).
  - rewrite length_app, <- app_assoc. simpl. repeat f_equal. lia.
  - apply view_fresh. rewrite lookup_app_r by lia. rewrite Nat.sub_diag. reflexivity.
Qed.

Lemma setitem_col_run (h l : heap F) (i k : nat) (v : ref) (a x : ndarray F) :
  l !! i = Some a -> view (h ++ l) v = Some x ->
  setitem_col (length h + i) k v (h ++ l) =
    match setitem_col2 a k x with
    | inl e => (inl e, h ++ l)
    | inr a' => (ok tt, h ++ <[i := a']> l)
    end.
Proof.
  intros Hi Hv. unfold setitem_col.
  rewrite run_bind, (read_run _ _ _ (view_fresh h l i a Hi)). cbv beta iota delta [ok].
  rewrite run_bind, (read_run _ _ _ Hv). cbv beta iota delta [ok].
  rewrite run_bind. unfold lift. destruct (setitem_col2 a k x); [reflexivity|].
  apply store_run.
Qed.

Lemma np_linalg_lstsq_run (h l : heap F) (a b : ref) (x y : ndarray F) :
  view (h ++ l) a = Some x -> view (h ++ l) b = Some y ->
  np_linalg_lstsq lstsq a b (h ++ l) =
    match lstsq x y with
    | inl e => (inl e, h ++ l)
    | inr c => (ok (length h + length l), h ++ (l ++ [c]))
    end.
Proof.
  intros Ha Hb. unfold np_linalg_lstsq.
  rewrite run_bind, (read_run _ _ _ Ha). cbv beta iota delta [ok].
  rewrite run_bind, (read_run _ _ _ Hb). cbv beta iota delta [ok].
  rewrite run_bind. unfold lift. destruct (lstsq x y); [reflexivity|].
  apply alloc_run.
Qed.

Lemma np_matmul_run (h l : heap F) (a b : ref) (x y : ndarray F) :
  view (h ++ l) a = Some x -> view (h ++ l) b = Some y ->
  np_matmul a b (h ++ l) =
    match matmul x y with
    | inl e => (inl e, h ++ l)
    | inr m => (ok (length h + length l), h ++ (l ++ [m]))
    end.
Proof.
  intros Ha Hb. unfold np_matmul.
  rewrite run_bind, (read_run _ _ _ Ha). cbv beta iota delta [ok].
  rewrite run_bind, (read_run _ _ _ Hb). cbv beta iota delta [ok].
  rewrite run_bind. unfold lift. destruct (matmul x y); [reflexivity|].
  apply alloc_run.
Qed.

Local Open Scope result_scope.


Lemma monthly_regression_run_nil (h : heap F) (ts : ref) (Y : ndarray F) :
  view h ts = Some Y ->
  exists news,
    monthly_regression lstsq ts (h ++ []) =
      (match regression_value lstsq Y with
       | inl e => inl e
       | inr _ => ok (length h + 15)
       end, h ++ news) /\
    forall v, regression_value lstsq Y = ok v -> news !! 15 = Some v.
Proof.
  intros HY. unfold monthly_regression, regression_value, rbind.
  py_step (ndarray_shape_run _ _ _ (view_app h [] _ _ HY)).
  py_step getitem_tuple_run.
  destruct (tuple_get (shape Y) 0) as [e|n];
    [py_fail|].
  cbv beta iota delta [ok].
  py_step np_ones_run. cbn [app length].
  py_step np_arange_run. cbn [app length].
  rewrite run_bind, (harmonic_angle_run h _ 2 1) by reflexivity.
  cbv beta iota delta [ok]. cbn [app length].
  rewrite run_bind, (np_cos_run h _ (Arr (length h + 3)) (design_angles 2)) by fresh_view.
  cbv beta iota delta [ok]. cbn [app length].
  rewrite run_bind, (setitem_col_run h _ 0 1 (Arr (length h + 4)) (ones [n;5]) (cos_items (design_angles 2))) by (first [reflexivity|fresh_view]).
  destruct (setitem_col2 (ones [n; 5]) 1 _) as [e|p1];
    [py_fail|].
  cbv beta iota delta [ok]. cbn [insert list_insert].
  rewrite run_bind, (harmonic_angle_run h _ 2 1) by reflexivity.
  cbv beta iota delta [ok]. cbn [app length].
  rewrite run_bind, (np_sin_run h _ (Arr (length h + 6)) (design_angles 2)) by fresh_view.
  cbv beta iota delta [ok]. cbn [app length].
  rewrite run_bind, (setitem_col_run h _ 0 2 (Arr (length h + 7)) p1 (sin_items (design_angles 2))) by (first [reflexivity|fresh_view]).
  destruct (setitem_col2 p1 2 _) as [e|p2];
    [py_fail|].
  cbv beta iota delta [ok]. cbn [insert list_insert].
  rewrite run_bind, (harmonic_angle_run h _ 4 1) by reflexivity.
  cbv beta iota delta [ok]. cbn [app length].
  rewrite run_bind, (np_cos_run h _ (Arr (length h + 9)) (design_angles 4)) by fresh_view.
  cbv beta iota delta [ok]. cbn [app length].
  rewrite run_bind, (setitem_col_run h _ 0 3 (Arr (length h + 10)) p2 (cos_items (design_angles 4))) by (first [reflexivity|fresh_view]).
  destruct (setitem_col2 p2 3 _) as [e|p3];
    [py_fail|].
  cbv beta iota delta [ok]. cbn [insert list_insert].
  rewrite run_bind, (harmonic_angle_run h _ 4 1) by reflexivity.
  cbv beta iota delta [ok]. cbn [app length].
  rewrite run_bind, (np_sin_run h _ (Arr (length h + 12)) (design_angles 4)) by fresh_view.
  cbv beta iota delta [ok]. cbn [app length].
  rewrite run_bind, (setitem_col_run h _ 0 4 (Arr (length h + 13)) p3 (sin_items (design_angles 4))) by (first [reflexivity|fresh_view]).
  destruct (setitem_col2 p3 4 _) as [e|p4];
    [py_fail|].
  cbv beta iota delta [ok]. cbn [insert list_insert].
  rewrite run_bind, (np_linalg_lstsq_run h _ (Arr (length h + 0)) ts p4 Y)
    by (first [fresh_view | apply view_app; exact HY]).
  destruct (lstsq p4 Y) as [e|c];
    [py_fail|].
  cbv beta iota delta [ok]. cbn [app length].
  rewrite run_bind, (np_matmul_run h _ (Arr (length h + 0)) (Arr (length h + 14)) p4 c)
    by fresh_view.
  destruct (matmul p4 c) as [e|m];
    [py_fail|].
  cbv beta iota delta [ok]. cbn [app length]. unfold ret.
  eexists; split; [reflexivity|]. intros v [= <-]. reflexivity.
Qed.
End Fresh.

(** ** What [monthly_regression] computes *)

Section Regression.
Context {F : Type} `{Scalar F}.
Variable lstsq : ndarray F -> ndarray F -> result (ndarray F).
Local Open Scope result_scope.


Lemma predictors_12 :
  (let? p1 := setitem_col2 (ones [12; 5]) 1 (cos_items (design_angles 2)) in
   let? p2 := setitem_col2 p1 2 (sin_items (design_angles 2)) in
   let? p3 := setitem_col2 p2 3 (cos_items (design_angles 4)) in
   setitem_col2 p3 4 (sin_items (design_angles 4))) = ok design_matrix.
Proof. vm_compute. reflexivity. Qed.

Lemma regression_value_12 (Y : ndarray F) :
  tuple_get (shape Y) 0 = ok 12 ->
  regression_value lstsq Y =
    let? c := lstsq design_matrix Y in matmul design_matrix c.
Proof.
  intros HY. unfold regression_value. rewrite HY.
  generalize predictors_12. unfold rbind, ok. cbv beta iota.
  destruct (setitem_col2 (ones [12; 5]) 1 _) as [e|p1]; [discriminate|].
  destruct (setitem_col2 p1 2 _) as [e|p2]; [discriminate|].
  destruct (setitem_col2 p2 3 _) as [e|p3]; [discriminate|].
  intros ->. reflexivity.
Qed.

Lemma first_column_not_12 (n : nat) :
  n <> 12 ->
  setitem_col2 (ones [n; 5]) 1 (cos_items (design_angles 2)) =
    raise (ValueError "could not broadcast input array").
Proof.
  intros Hn. unfold setitem_col2. cbn [shape ones].
  replace (1 <? 5) with true by reflexivity.
  unfold broadcast_to_length.
  cbn [shape cos_items design_angles div_scalar scalar_mul map_items arange].
  replace (13 - 1) with 12 by reflexivity.
  destruct (12 =? n) eqn:E; [apply Nat.eqb_eq in E; congruence|].
  reflexivity.
Qed.

Lemma regression_value_not_12 (Y : ndarray F) (n : nat) :
  tuple_get (shape Y) 0 = ok n -> n <> 12 ->
  regression_value lstsq Y = raise (ValueError "could not broadcast input array").
Proof.
  intros HY Hn. unfold regression_value. rewrite HY.
  unfold rbind at 1, ok. cbv beta iota.
  rewrite (first_column_not_12 n Hn). reflexivity.
Qed.

Lemma matmul_design (c : ndarray F) :
  shape c = [5] ->
  matmul design_matrix c =
    ok {| shape := [12]; data := map (dot_row design_matrix c 5 1 0) (seq 0 12) |}.
Proof. intros Hc. unfold matmul. rewrite Hc. reflexivity. Qed.

End Regression.

(** ** What [monthly_anomaly_series] computes *)

Section Anomaly.
Context {F : Type} `{Scalar F}.
Variable lstsq : ndarray F -> ndarray F -> result (ndarray F).
Local Open Scope result_scope.


Lemma monthly_mean_run_fresh (h l : heap F) (ts lat lon : ref) (X A B : ndarray F) :
  view (h ++ l) ts = Some X -> view (h ++ l) lat = Some A ->
  view (h ++ l) lon = Some B ->
  monthly_mean ts lat lon (h ++ l) =
    match monthly_mean_value X A B with
    | inl e => (inl e, h ++ l)
    | inr m => (ok (length h + length l), h ++ (l ++ [m]))
    end.
Proof.
  intros HX HA HB. rewrite (monthly_mean_run _ _ _ _ _ _ _ HX HA HB).
  destruct (monthly_mean_value X A B); [reflexivity|].
  rewrite length_app, app_assoc. reflexivity.
Qed.

Lemma monthly_regression_run_fresh (h l : heap F) (ts : ref) (Y : ndarray F) :
  view (h ++ l) ts = Some Y ->
  exists news,
    monthly_regression lstsq ts (h ++ l) =
      (match regression_value lstsq Y with
       | inl e => inl e
       | inr _ => ok (length h + (length l + 15))
       end, h ++ (l ++ news)) /\
    forall v, regression_value lstsq Y = ok v -> news !! 15 = Some v.
Proof.
  intros HY.
  destruct (monthly_regression_run_nil lstsq (h ++ l) ts Y HY) as (news & Hrun & Hv).
  exists news. split; [|exact Hv].
  rewrite app_nil_r in Hrun. rewrite Hrun.
  rewrite length_app, <- app_assoc, Nat.add_assoc. reflexivity.
Qed.

Lemma np_zeros_run (h l : heap F) (s : list nat) :
  np_zeros s (h ++ l) = (ok (length h + length l), h ++ (l ++ [zeros s])).
Proof. apply alloc_run. Qed.

Lemma setitem_cell_run (h l : heap F) (p i j : nat) (v : ref) (a x : ndarray F) :
  l !! p = Some a -> view (h ++ l) v = Some x ->
  setitem_cell (length h + p) i j v (h ++ l) =
    match setitem_col3 a i j x with
    | inl e => (inl e, h ++ l)
    | inr a' => (ok tt, h ++ <[p := a']> l)
    end.
Proof.
  intros Hp Hv. unfold setitem_cell.
  rewrite run_bind, (read_run _ _ _ (view_fresh h l p a Hp)). cbv beta iota delta [ok].
  rewrite run_bind, (read_run _ _ _ Hv). cbv beta iota delta [ok].
  rewrite run_bind. unfold lift. destruct (setitem_col3 a i j x); [reflexivity|].
  apply store_run.
Qed.

Lemma np_tile_run (h l : heap F) (r : ref) (reps : nat) (a : ndarray F) :
  view (h ++ l) r = Some a ->
  np_tile r reps (h ++ l) =
    match tile_axis0 a reps with
    | inl e => (inl e, h ++ l)
    | inr t => (ok (length h + length l), h ++ (l ++ [t]))
    end.
Proof.
  intros Hr. unfold np_tile.
  rewrite run_bind, (read_run _ _ _ Hr). cbv beta iota delta [ok].
  rewrite run_bind. unfold lift. destruct (tile_axis0 a reps); [reflexivity|].
  apply alloc_run.
Qed.

Lemma ndarray_sub_run (h l : heap F) (a b : ref) (x y : ndarray F) :
  view (h ++ l) a = Some x -> view (h ++ l) b = Some y ->
  ndarray_sub a b (h ++ l) =
    match subtract x y with
    | inl e => (inl e, h ++ l)
    | inr d => (ok (length h + length l), h ++ (l ++ [d]))
    end.
Proof.
  intros Ha Hb. unfold ndarray_sub.
  rewrite run_bind, (read_run _ _ _ Ha). cbv beta iota delta [ok].
  rewrite run_bind, (read_run _ _ _ Hb). cbv beta iota delta [ok].
  rewrite run_bind. unfold lift. destruct (subtract x y); [reflexivity|].
  apply alloc_run.
Qed.


Lemma zeros_fit_field (l_lat l_lon : nat) : fit_field (zeros [12; l_lat; l_lon]) l_lat l_lon.
Proof.
  split; [reflexivity|]. unfold zeros. cbn [data].
  rewrite length_replicate. unfold shape_size. cbn [fold_right]. lia.
Qed.

Lemma regression_value_cell (m : ndarray F) (l_lat l_lon i j : nat) :
  solver_total lstsq ->
  shape m = [12; l_lat; l_lon] -> i < l_lat -> j < l_lon ->
  exists cell out,
    getitem_col3 m i j = ok cell /\
    regression_value lstsq cell = ok out /\ shape out = [12].
Proof.
  intros Hsolver Hm Hi Hj. unfold getitem_col3. rewrite Hm.
  replace ((i <? l_lat) && (j <? l_lon)) with true
    by (symmetry; apply andb_true_intro; split; apply Nat.ltb_lt; assumption).
  eexists. 
  destruct (Hsolver {| shape := [12];
              data := map (fun t => item m ((t * l_lat + i) * l_lon + j)) (seq 0 12) |}
              eq_refl) as (c & Hc & Hcs).
  eexists. split; [reflexivity|].
  rewrite regression_value_12 by reflexivity.
  rewrite Hc. cbv beta iota delta [rbind ok].
  rewrite (matmul_design c Hcs). split; reflexivity.
Qed.

Lemma setitem_col3_fit_field (a out : ndarray F) (l_lat l_lon i j : nat) :
  fit_field a l_lat l_lon -> shape out = [12] -> i < l_lat -> j < l_lon ->
  exists a', setitem_col3 a i j out = ok a' /\ fit_field a' l_lat l_lon.
Proof.
  intros [Ha _] Hout Hi Hj. unfold setitem_col3. rewrite Ha.
  replace ((i <? l_lat) && (j <? l_lon)) with true
    by (symmetry; apply andb_true_intro; split; apply Nat.ltb_lt; assumption).
  unfold broadcast_to_length. rewrite Hout.
  replace (12 =? 12) with true by reflexivity.
  unfold rbind. eexists. split; [reflexivity|].
  split; [reflexivity|]. cbn [data]. rewrite length_map, length_seq. reflexivity.
Qed.


Lemma range_lt (n : nat) : Forall (fun i => i < n) (range n).
Proof. apply Forall_forall. intros i Hi. apply elem_of_seq in Hi. lia. Qed.

(** The inner loop of lines 69-71 on a store whose fresh part begins
    with the monthly mean and the field being filled. *)
Lemma inner_loop (h : heap F) (m : ndarray F) (l_lat l_lon j : nat) (xs : list nat) :
  solver_total lstsq -> shape m = [12; l_lat; l_lon] -> j < l_lon ->
  Forall (fun i => i < l_lat) xs ->
  forall a junk, fit_field a l_lat l_lon ->
  exists a' junk',
    for_each xs (fun i =>
        bind (getitem_col (Arr (length h + 0)) i j) (fun cell =>
        bind (monthly_regression lstsq cell) (fun fit =>
        setitem_cell (length h + 1) i j (Arr fit))))
      (h ++ m :: a :: junk) = (ok tt, h ++ m :: a' :: junk') /\
    fit_field a' l_lat l_lon.
Proof.
  intros Hsolver Hm Hj Hxs. induction Hxs as [|i xs Hi Hxs IH]; intros a junk Ha.
  - exists a, junk. split; [reflexivity|exact Ha].
  - destruct (regression_value_cell m l_lat l_lon i j Hsolver Hm Hi Hj)
      as (cell & out & Hcell & Hout & Hshape).
    destruct (setitem_col3_fit_field a out l_lat l_lon i j Ha Hshape Hi Hj)
      as (a' & Hset & Ha').
    assert (Hview : view (h ++ m :: a :: junk) (Col3 i j (Arr (length h + 0))) = Some cell).
    { cbn [view]. rewrite lookup_app_r by lia.
      replace (length h + 0 - length h) with 0 by lia. cbn. rewrite Hcell. reflexivity. }
    destruct (monthly_regression_run_fresh h (m :: a :: junk) _ cell Hview)
      as (news & Hrun & Hnews).
    rewrite Hout in Hrun. specialize (Hnews out Hout).
    destruct (IH a' (junk ++ news) Ha') as (a'' & junk'' & Hloop & Ha'').
    exists a'', junk''. split; [|exact Ha''].
    cbn [for_each]. rewrite run_bind.
    rewrite run_bind, (getitem_col_run (h ++ m :: a :: junk) (Arr (length h + 0)) i j m)
      by fresh_view.
    rewrite Hcell. cbv beta iota delta [ok].
    rewrite run_bind, Hrun. cbv beta iota delta [ok].
    rewrite (setitem_cell_run h ((m :: a :: junk) ++ news) 1 i j _ a out).
    + rewrite Hset. cbn [app insert list_insert]. exact Hloop.
    + reflexivity.
    + apply view_fresh. rewrite lookup_app_r by lia.
      replace (length (m :: a :: junk) + 15 - length (m :: a :: junk)) with 15 by lia.
      exact Hnews.
Qed.

(** The two nested loops of lines 68-71. *)
Lemma outer_loop (h : heap F) (lat : ref) (A m : ndarray F) (l_lat l_lon : nat)
    (ys : list nat) :
  solver_total lstsq -> view h lat = Some A -> len A = ok l_lat ->
  shape m = [12; l_lat; l_lon] ->
  Forall (fun j => j < l_lon) ys ->
  forall a junk, fit_field a l_lat l_lon ->
  exists a' junk',
    for_each ys (fun j =>
        bind (py_len lat) (fun n_lat =>
        for_each (range n_lat) (fun i =>
          bind (getitem_col (Arr (length h + 0)) i j) (fun cell =>
          bind (monthly_regression lstsq cell) (fun fit =>
          setitem_cell (length h + 1) i j (Arr fit))))))
      (h ++ m :: a :: junk) = (ok tt, h ++ m :: a' :: junk') /\
    fit_field a' l_lat l_lon.
Proof.
  intros Hsolver Hlat HA Hm Hys. induction Hys as [|j ys Hj Hys IH]; intros a junk Ha.
  - exists a, junk. split; [reflexivity|exact Ha].
  - destruct (inner_loop h m l_lat l_lon j (range l_lat) Hsolver Hm Hj
                (range_lt l_lat) a junk Ha) as (a1 & junk1 & Hinner & Ha1).
    destruct (IH a1 junk1 Ha1) as (a2 & junk2 & Hrest & Ha2).
    exists a2, junk2. split; [|exact Ha2].
    cbn [for_each]. rewrite run_bind.
    rewrite run_bind, (py_len_run _ _ _ (view_app h _ _ _ Hlat)), HA.
    cbv beta iota delta [ok]. rewrite Hinner. exact Hrest.
Qed.


Lemma length_concat_replicate (n : nat) (l : list F) :
  length (concat (replicate n l)) = n * length l.
Proof.
  induction n as [|n IH]; [reflexivity|].
  cbn [replicate concat]. rewrite length_app, IH. lia.
Qed.

(** A call of [monthly_anomaly_series] on a grid for which the reshape in
    [monthly_mean] is accepted: everything up to the final subtraction
    succeeds, and the subtraction decides the outcome. *)
Lemma monthly_anomaly_series_run (h : heap F) (ts lat lon : ref) (X A B : ndarray F)
    (T n_lat n_lon l_lat l_lon : nat) :
  solver_total lstsq ->
  view h ts = Some X -> view h lat = Some A -> view h lon = Some B ->
  shape X = [T; n_lat; n_lon] -> len A = ok l_lat -> len B = ok l_lon ->
  let size := complete_size T n_lat n_lon in
  let group := group_size l_lat l_lon in
  (group =? 0) || negb (size mod group =? 0) = false ->
  exists news fit l_anom l_fit,
    shape fit = [T / 12 * 12; l_lat; l_lon] /\
    length (data fit) = T / 12 * (12 * (l_lat * l_lon)) /\
    monthly_anomaly_series lstsq ts lat lon h =
      (match subtract X fit with
       | inl e => inl e
       | inr _ => ok (l_anom, l_fit, length h)
       end, h ++ news) /\
    (h ++ news) !! length h = Some (grouped_mean X size group l_lat l_lon) /\
    (h ++ news) !! l_fit = Some fit /\
    forall d, subtract X fit = ok d -> (h ++ news) !! l_anom = Some d.
Proof.
  intros Hsolver HX HA HB HsX HlA HlB size group Hcond.
  pose proof (monthly_mean_value_grid X A B T n_lat n_lon l_lat l_lon HsX HlA HlB)
    as Hmean.
  cbv zeta in Hmean. fold size group in Hmean. rewrite Hcond in Hmean.
  set (gm := grouped_mean X size group l_lat l_lon) in *.
  destruct (outer_loop h lat A gm l_lat l_lon (range l_lon) Hsolver HA HlA eq_refl
              (range_lt l_lon) (zeros [12; l_lat; l_lon]) []
              (zeros_fit_field l_lat l_lon))
    as (a' & junk' & Hloop & (Hsa & Hla)).
  set (fit := {| shape := [T / 12 * 12; l_lat; l_lon];
                 data := concat (replicate (T / 12) (data a')) |}).
  assert (Htile : tile_axis0 a' (T / 12) = ok fit).
  { unfold tile_axis0. rewrite Hsa. reflexivity. }
  assert (Hrun : monthly_anomaly_series lstsq ts lat lon (h ++ []) =
            match subtract X fit with
            | inl e => (inl e, h ++ (gm :: a' :: junk' ++ [fit]))
            | inr d => (ok (length h + S (length (gm :: a' :: junk')),
                            length h + length (gm :: a' :: junk'), length h + 0),
                        h ++ ((gm :: a' :: junk' ++ [fit]) ++ [d]))
            end).
  { unfold monthly_anomaly_series.
    py_step (ndarray_shape_run _ _ _ (view_app h [] _ _ HX)).
    py_step getitem_tuple_run. rewrite HsX. cbn [tuple_get lookup list_lookup].
    cbv beta iota zeta delta [ok].
    rewrite run_bind, (monthly_mean_run_fresh h [] ts lat lon X A B)
      by (apply view_app; assumption).
    rewrite Hmean. cbv beta iota delta [ok]. cbn [app length].
    rewrite run_bind, (ndarray_shape_run _ (Arr (length h + 0)) gm) by fresh_view.
    cbv beta iota delta [ok]. cbn [shape gm grouped_mean].
    py_step np_zeros_run. cbn [app length].
    rewrite run_bind, (py_len_run _ _ _ (view_app h _ _ _ HB)), HlB.
    cbv beta iota delta [ok].
    rewrite run_bind, Hloop. cbv beta iota delta [ok].
    rewrite run_bind, (np_tile_run h (gm :: a' :: junk') (Arr (length h + 1)) (T / 12) a')
      by fresh_view.
    rewrite Htile. cbv beta iota delta [ok].
    rewrite run_bind, (ndarray_sub_run h _ ts (Arr (length h + length (gm :: a' :: junk'))) X fit).
    - destruct (subtract X fit) as [e|d]; [reflexivity|].
      cbv beta iota delta [ok]. unfold ret. rewrite length_app. cbn [length].
      repeat f_equal. lia.
    - apply view_app. exact HX.
    - apply view_fresh. rewrite lookup_app_r by lia. rewrite Nat.sub_diag. reflexivity. }
  rewrite app_nil_r, Nat.add_0_r in Hrun.
  assert (Hlen : length (data fit) = T / 12 * (12 * (l_lat * l_lon))).
  { unfold fit. cbn [data]. rewrite length_concat_replicate, Hla. reflexivity. }
  destruct (subtract X fit) as [e|d] eqn:Hsub.
  - exists (gm :: a' :: junk' ++ [fit]), fit, 0, (length h + length (gm :: a' :: junk')).
    split; [reflexivity|]. split; [exact Hlen|].
    split; [rewrite Hsub; exact Hrun|].
    split; [|split].
    + rewrite lookup_app_r by lia. rewrite Nat.sub_diag. reflexivity.
    + rewrite lookup_app_r by lia.
      replace (length h + length (gm :: a' :: junk') - length h)
        with (length (gm :: a' :: junk')) by lia.
      change (gm :: a' :: junk' ++ [fit]) with ((gm :: a' :: junk') ++ [fit]).
      rewrite lookup_app_r by lia. rewrite Nat.sub_diag. reflexivity.
    + intros d0 Hd. rewrite Hsub in Hd. discriminate Hd.
  - exists ((gm :: a' :: junk' ++ [fit]) ++ [d]), fit,
      (length h + S (length (gm :: a' :: junk'))), (length h + length (gm :: a' :: junk')).
    split; [reflexivity|]. split; [exact Hlen|].
    split; [rewrite Hsub; exact Hrun|].
    split; [|split].
    + rewrite lookup_app_r by lia. rewrite Nat.sub_diag. reflexivity.
    + rewrite lookup_app_r by lia.
      replace (length h + length (gm :: a' :: junk') - length h)
        with (length (gm :: a' :: junk')) by lia.
      change (gm :: a' :: junk' ++ [fit]) with ((gm :: a' :: junk') ++ [fit]).
      rewrite <- app_assoc.
      rewrite lookup_app_r by lia. rewrite Nat.sub_diag. reflexivity.
    + intros d0 Hd. rewrite Hsub in Hd. injection Hd as <-.
      rewrite lookup_app_r by lia.
      replace (length h + S (length (gm :: a' :: junk')) - length h)
        with (length (gm :: a' :: junk' ++ [fit])) by (cbn [length]; rewrite length_app; cbn [length]; lia).
      rewrite lookup_app_r by lia. rewrite Nat.sub_diag. reflexivity.
Qed.

End Anomaly.

(** ** Simulation of one call by another *)

Section Simulation.
Context {F : Type} `{Scalar F}.
Variable lstsq : ndarray F -> ndarray F -> result (ndarray F).
Variables g1 g2 : heap F.


Lemma sim_ret {A : Type} (R : A -> A -> Prop) (a1 a2 : A) :
  R a1 a2 -> sim g1 g2 R (ret a1) (ret a2).
Proof. intros HR l. exists l. repeat split. exact HR. Qed.

Lemma sim_lift {A : Type} (R : A -> A -> Prop) (r1 r2 : result A) :
  rel_result R r1 r2 -> sim g1 g2 R (lift r1) (lift r2).
Proof. intros HR l. exists l. repeat split. exact HR. Qed.

Lemma sim_bind {A B : Type} (RA : A -> A -> Prop) (RB : B -> B -> Prop)
    (c1 c2 : py F A) (k1 k2 : A -> py F B) :
  sim g1 g2 RA c1 c2 ->
  (forall a1 a2, RA a1 a2 -> sim g1 g2 RB (k1 a1) (k2 a2)) ->
  sim g1 g2 RB (bind c1 k1) (bind c2 k2).
Proof.
  intros Hc Hk l. destruct (Hc l) as (l' & H1 & H2 & HR).
  unfold bind.
  destruct (c1 (g1 ++ l)) as [[e1|a1] h1'], (c2 (g2 ++ l)) as [[e2|a2] h2'];
    cbn [fst snd] in *; try contradiction.
  - exists l'. repeat split; assumption.
  - subst h1' h2'. apply (Hk a1 a2 HR l').
Qed.

Lemma rel_result_refl {A : Type} (r : result A) : rel_result eq r r.
Proof. destruct r; reflexivity. Qed.

Lemma sim_read (r1 r2 : ref) : (rel_ref g1 g2) r1 r2 -> sim g1 g2 eq (read r1) (read r2).
Proof.
  intros Hr l. exists l. unfold read. rewrite (Hr l).
  destruct (view (g2 ++ l) r2); repeat split.
Qed.

Lemma sim_alloc (a : ndarray F) : sim g1 g2 (rel_loc g1 g2) (alloc a) (alloc a).
Proof.
  intros l. exists (l ++ [a]). rewrite !alloc_run. cbn [fst snd].
  repeat split. exists (length l). split; reflexivity.
Qed.

Lemma sim_store (p1 p2 : loc) (a : ndarray F) :
  (rel_loc g1 g2) p1 p2 -> sim g1 g2 eq (store p1 a) (store p2 a).
Proof.
  intros (i & -> & ->) l. exists (<[i := a]> l). rewrite !store_run.
  repeat split.
Qed.

Lemma sim_for_each {A : Type} (xs : list A) (b1 b2 : A -> py F unit) :
  (forall x, sim g1 g2 eq (b1 x) (b2 x)) -> sim g1 g2 eq (for_each xs b1) (for_each xs b2).
Proof.
  intros Hb. induction xs as [|x xs IH]; cbn [for_each].
  - apply sim_ret. reflexivity.
  - eapply sim_bind; [apply Hb|]. intros _ _ _. exact IH.
Qed.

Lemma rel_loc_ref (p1 p2 : loc) : (rel_loc g1 g2) p1 p2 -> (rel_ref g1 g2) (Arr p1) (Arr p2).
Proof.
  intros (i & -> & ->) l. cbn [view].
  rewrite !lookup_app_r by lia.
  replace (length g1 + i - length g1) with i by lia.
  replace (length g2 + i - length g2) with i by lia. reflexivity.
Qed.

Lemma rel_ref_slice (k : nat) (r1 r2 : ref) :
  (rel_ref g1 g2) r1 r2 -> (rel_ref g1 g2) (SliceTo k r1) (SliceTo k r2).
Proof. intros Hr l. cbn [view]. rewrite (Hr l). reflexivity. Qed.

Lemma rel_ref_reshaped (dims : list (option nat)) (r1 r2 : ref) :
  (rel_ref g1 g2) r1 r2 -> (rel_ref g1 g2) (Reshaped dims r1) (Reshaped dims r2).
Proof. intros Hr l. cbn [view]. rewrite (Hr l). reflexivity. Qed.

Lemma rel_ref_col (i j : nat) (r1 r2 : ref) :
  (rel_ref g1 g2) r1 r2 -> (rel_ref g1 g2) (Col3 i j r1) (Col3 i j r2).
Proof. intros Hr l. cbn [view]. rewrite (Hr l). reflexivity. Qed.

Lemma rel_ref_len (r1 r2 : ref) : (rel_ref g1 g2) r1 r2 -> (rel_len g1 g2) r1 r2.
Proof. intros Hr l. rewrite (Hr l). reflexivity. Qed.


Lemma len_of_tuple_get (a b : ndarray F) :
  tuple_get (shape a) 0 = tuple_get (shape b) 0 -> len a = len b.
Proof.
  unfold tuple_get, len.
  destruct (shape a) as [|n s], (shape b) as [|m t]; cbn; intros Heq;
    first [reflexivity | discriminate Heq | injection Heq as ->; reflexivity].
Qed.

Lemma sim_ndarray_shape (r1 r2 : ref) :
  (rel_ref g1 g2) r1 r2 -> sim g1 g2 eq (ndarray_shape r1) (ndarray_shape r2).
Proof.
  intros Hr. unfold ndarray_shape.
  eapply sim_bind; [apply sim_read, Hr|]. intros a ? <-. apply sim_ret. reflexivity.
Qed.

Lemma sim_shape_len (r1 r2 : ref) :
  (rel_len g1 g2) r1 r2 ->
  sim g1 g2 (fun s1 s2 => tuple_get s1 0 = tuple_get s2 0) (ndarray_shape r1) (ndarray_shape r2).
Proof.
  intros Hr l. exists l. specialize (Hr l).
  unfold ndarray_shape, bind, read, ret.
  destruct (view (g1 ++ l) r1) as [a1|], (view (g2 ++ l) r2) as [a2|];
    cbn in Hr |- *; try discriminate Hr; repeat split.
  injection Hr as Hr. exact Hr.
Qed.

Lemma sim_getitem_tuple (s1 s2 : list nat) (i : nat) :
  tuple_get s1 i = tuple_get s2 i -> sim g1 g2 eq (getitem_tuple s1 i) (getitem_tuple s2 i).
Proof.
  intros Hs. unfold getitem_tuple. rewrite Hs. apply sim_lift, rel_result_refl.
Qed.

Lemma sim_py_len (r1 r2 : ref) : (rel_len g1 g2) r1 r2 -> sim g1 g2 eq (py_len r1) (py_len r2).
Proof.
  intros Hr l. exists l. specialize (Hr l).
  unfold py_len, bind, read, lift.
  destruct (view (g1 ++ l) r1) as [a1|], (view (g2 ++ l) r2) as [a2|];
    cbn in Hr |- *; try discriminate Hr; repeat split.
  injection Hr as Hr. rewrite (len_of_tuple_get a1 a2 Hr). apply rel_result_refl.
Qed.

Lemma sim_getitem_slice_to (r1 r2 : ref) (k : nat) :
  (rel_ref g1 g2) r1 r2 -> sim g1 g2 (rel_ref g1 g2) (getitem_slice_to r1 k) (getitem_slice_to r2 k).
Proof.
  intros Hr. unfold getitem_slice_to.
  eapply sim_bind; [apply sim_read, Hr|]. intros a ? <-.
  eapply sim_bind; [apply sim_lift, rel_result_refl|]. intros ? ? _.
  apply sim_ret, rel_ref_slice, Hr.
Qed.

Lemma sim_ndarray_reshape (r1 r2 : ref) (dims : list (option nat)) :
  (rel_ref g1 g2) r1 r2 -> sim g1 g2 (rel_ref g1 g2) (ndarray_reshape r1 dims) (ndarray_reshape r2 dims).
Proof.
  intros Hr. unfold ndarray_reshape.
  eapply sim_bind; [apply sim_read, Hr|]. intros a ? <-.
  eapply sim_bind; [apply sim_lift, rel_result_refl|]. intros ? ? _.
  apply sim_ret, rel_ref_reshaped, Hr.
Qed.

Lemma sim_getitem_col (r1 r2 : ref) (i j : nat) :
  (rel_ref g1 g2) r1 r2 -> sim g1 g2 (rel_ref g1 g2) (getitem_col r1 i j) (getitem_col r2 i j).
Proof.
  intros Hr. unfold getitem_col.
  eapply sim_bind; [apply sim_read, Hr|]. intros a ? <-.
  eapply sim_bind; [apply sim_lift, rel_result_refl|]. intros ? ? _.
  apply sim_ret, rel_ref_col, Hr.
Qed.

(** A numpy call that reads one array and makes a new one. *)
Lemma sim_unary (f : ndarray F -> result (ndarray F)) (r1 r2 : ref) :
  (rel_ref g1 g2) r1 r2 ->
  sim g1 g2 (rel_loc g1 g2) (bind (read r1) (fun a => bind (lift (f a)) alloc))
              (bind (read r2) (fun a => bind (lift (f a)) alloc)).
Proof.
  intros Hr. eapply sim_bind; [apply sim_read, Hr|]. intros a ? <-.
  eapply sim_bind; [apply sim_lift, rel_result_refl|]. intros m ? <-.
  apply sim_alloc.
Qed.

(** A numpy call that reads two arrays and makes a new one. *)
Lemma sim_binary (f : ndarray F -> ndarray F -> result (ndarray F))
    (a1 a2 b1 b2 : ref) :
  (rel_ref g1 g2) a1 a2 -> (rel_ref g1 g2) b1 b2 ->
  sim g1 g2 (rel_loc g1 g2)
    (bind (read a1) (fun x => bind (read b1) (fun y => bind (lift (f x y)) alloc)))
    (bind (read a2) (fun x => bind (read b2) (fun y => bind (lift (f x y)) alloc))).
Proof.
  intros Ha Hb. eapply sim_bind; [apply sim_read, Ha|]. intros x ? <-.
  eapply sim_bind; [apply sim_read, Hb|]. intros y ? <-.
  eapply sim_bind; [apply sim_lift, rel_result_refl|]. intros m ? <-.
  apply sim_alloc.
Qed.

Lemma sim_np_mean (r1 r2 : ref) : (rel_ref g1 g2) r1 r2 -> sim g1 g2 (rel_loc g1 g2) (np_mean r1) (np_mean r2).
Proof. apply sim_unary. Qed.

Lemma sim_np_tile (r1 r2 : ref) (reps : nat) :
  (rel_ref g1 g2) r1 r2 -> sim g1 g2 (rel_loc g1 g2) (np_tile r1 reps) (np_tile r2 reps).
Proof. apply (sim_unary (fun a => tile_axis0 a reps)). Qed.

Lemma sim_map_alloc (f : ndarray F -> ndarray F) (r1 r2 : ref) :
  (rel_ref g1 g2) r1 r2 ->
  sim g1 g2 (rel_loc g1 g2) (bind (read r1) (fun a => alloc (f a)))
              (bind (read r2) (fun a => alloc (f a))).
Proof.
  intros Hr. eapply sim_bind; [apply sim_read, Hr|]. intros a ? <-. apply sim_alloc.
Qed.

Lemma sim_np_linalg_lstsq (a1 a2 b1 b2 : ref) :
  (rel_ref g1 g2) a1 a2 -> (rel_ref g1 g2) b1 b2 ->
  sim g1 g2 (rel_loc g1 g2) (np_linalg_lstsq lstsq a1 b1) (np_linalg_lstsq lstsq a2 b2).
Proof. apply (sim_binary lstsq). Qed.

Lemma sim_np_matmul (a1 a2 b1 b2 : ref) :
  (rel_ref g1 g2) a1 a2 -> (rel_ref g1 g2) b1 b2 -> sim g1 g2 (rel_loc g1 g2) (np_matmul a1 b1) (np_matmul a2 b2).
Proof. apply (sim_binary matmul). Qed.

Lemma sim_ndarray_sub (a1 a2 b1 b2 : ref) :
  (rel_ref g1 g2) a1 a2 -> (rel_ref g1 g2) b1 b2 -> sim g1 g2 (rel_loc g1 g2) (ndarray_sub a1 b1) (ndarray_sub a2 b2).
Proof. apply (sim_binary subtract). Qed.

Lemma sim_setitem_col (p1 p2 : loc) (k : nat) (v1 v2 : ref) :
  (rel_loc g1 g2) p1 p2 -> (rel_ref g1 g2) v1 v2 ->
  sim g1 g2 eq (setitem_col p1 k v1) (setitem_col p2 k v2).
Proof.
  intros Hp Hv. unfold setitem_col.
  eapply sim_bind; [apply sim_read, rel_loc_ref, Hp|]. intros a ? <-.
  eapply sim_bind; [apply sim_read, Hv|]. intros x ? <-.
  eapply sim_bind; [apply sim_lift, rel_result_refl|]. intros a' ? <-.
  apply sim_store, Hp.
Qed.

Lemma sim_setitem_cell (p1 p2 : loc) (i j : nat) (v1 v2 : ref) :
  (rel_loc g1 g2) p1 p2 -> (rel_ref g1 g2) v1 v2 ->
  sim g1 g2 eq (setitem_cell p1 i j v1) (setitem_cell p2 i j v2).
Proof.
  intros Hp Hv. unfold setitem_cell.
  eapply sim_bind; [apply sim_read, rel_loc_ref, Hp|]. intros a ? <-.
  eapply sim_bind; [apply sim_read, Hv|]. intros x ? <-.
  eapply sim_bind; [apply sim_lift, rel_result_refl|]. intros a' ? <-.
  apply sim_store, Hp.
Qed.

Lemma sim_harmonic_angle (k : nat) (t1 t2 : loc) :
  (rel_loc g1 g2) t1 t2 -> sim g1 g2 (rel_loc g1 g2) (harmonic_angle k t1) (harmonic_angle k t2).
Proof.
  intros Ht. unfold harmonic_angle.
  eapply sim_bind; [apply (sim_map_alloc (scalar_mul _)), rel_loc_ref, Ht|].
  intros s1 s2 Hs.
  apply (sim_map_alloc (fun a => div_scalar a _)), rel_loc_ref, Hs.
Qed.

Lemma sim_monthly_regression (ts1 ts2 : ref) :
  (rel_ref g1 g2) ts1 ts2 ->
  sim g1 g2 (rel_loc g1 g2) (monthly_regression lstsq ts1) (monthly_regression lstsq ts2).
Proof.
  intros Hts. unfold monthly_regression.
  eapply sim_bind; [apply sim_ndarray_shape, Hts|]. intros s ? <-.
  eapply sim_bind; [apply sim_getitem_tuple; reflexivity|]. intros n ? <-.
  eapply sim_bind; [apply sim_alloc|]. intros p1 p2 Hp.
  eapply sim_bind; [apply sim_alloc|]. intros t1 t2 Ht.
  eapply sim_bind; [apply sim_harmonic_angle, Ht|]. intros a1 a2 Ha.
  eapply sim_bind; [apply (sim_map_alloc cos_items), rel_loc_ref, Ha|]. intros c1 c2 Hc.
  eapply sim_bind; [apply sim_setitem_col; [exact Hp|apply rel_loc_ref, Hc]|]. intros _ _ _.
  clear a1 a2 Ha c1 c2 Hc.
  eapply sim_bind; [apply sim_harmonic_angle, Ht|]. intros a1 a2 Ha.
  eapply sim_bind; [apply (sim_map_alloc sin_items), rel_loc_ref, Ha|]. intros c1 c2 Hc.
  eapply sim_bind; [apply sim_setitem_col; [exact Hp|apply rel_loc_ref, Hc]|]. intros _ _ _.
  clear a1 a2 Ha c1 c2 Hc.
  eapply sim_bind; [apply sim_harmonic_angle, Ht|]. intros a1 a2 Ha.
  eapply sim_bind; [apply (sim_map_alloc cos_items), rel_loc_ref, Ha|]. intros c1 c2 Hc.
  eapply sim_bind; [apply sim_setitem_col; [exact Hp|apply rel_loc_ref, Hc]|]. intros _ _ _.
  clear a1 a2 Ha c1 c2 Hc.
  eapply sim_bind; [apply sim_harmonic_angle, Ht|]. intros a1 a2 Ha.
  eapply sim_bind; [apply (sim_map_alloc sin_items), rel_loc_ref, Ha|]. intros c1 c2 Hc.
  eapply sim_bind; [apply sim_setitem_col; [exact Hp|apply rel_loc_ref, Hc]|]. intros _ _ _.
  eapply sim_bind; [apply sim_np_linalg_lstsq; [apply rel_loc_ref, Hp|exact Hts]|].
  intros k1 k2 Hk.
  eapply sim_bind; [apply sim_np_matmul; apply rel_loc_ref; assumption|].
  intros m1 m2 Hm. apply sim_ret, Hm.
Qed.

Lemma sim_monthly_mean (ts1 ts2 lat1 lat2 lon1 lon2 : ref) :
  (rel_ref g1 g2) ts1 ts2 -> (rel_len g1 g2) lat1 lat2 -> (rel_len g1 g2) lon1 lon2 ->
  sim g1 g2 (rel_loc g1 g2) (monthly_mean ts1 lat1 lon1) (monthly_mean ts2 lat2 lon2).
Proof.
  intros Hts Hlat Hlon. unfold monthly_mean.
  eapply sim_bind; [apply sim_ndarray_shape, Hts|]. intros s ? <-.
  eapply sim_bind; [apply sim_getitem_tuple; reflexivity|]. intros n ? <-.
  eapply sim_bind; [apply sim_getitem_slice_to, Hts|]. intros v1 v2 Hv.
  eapply sim_bind; [apply sim_shape_len, Hlat|]. intros s1 s2 Hs.
  eapply sim_bind; [apply sim_getitem_tuple, Hs|]. intros n_lat ? <-.
  eapply sim_bind; [apply sim_shape_len, Hlon|]. intros t1 t2 Ht.
  eapply sim_bind; [apply sim_getitem_tuple, Ht|]. intros n_lon ? <-.
  eapply sim_bind; [apply sim_ndarray_reshape, Hv|]. intros w1 w2 Hw.
  eapply sim_bind; [apply sim_np_mean, Hw|]. intros m1 m2 Hm.
  apply sim_ret, Hm.
Qed.


Lemma sim_monthly_anomaly_series (ts1 ts2 lat1 lat2 lon1 lon2 : ref) :
  (rel_ref g1 g2) ts1 ts2 -> (rel_len g1 g2) lat1 lat2 -> (rel_len g1 g2) lon1 lon2 ->
  sim g1 g2 (rel_triple g1 g2) (monthly_anomaly_series lstsq ts1 lat1 lon1)
                 (monthly_anomaly_series lstsq ts2 lat2 lon2).
Proof.
  intros Hts Hlat Hlon. unfold monthly_anomaly_series.
  eapply sim_bind; [apply sim_ndarray_shape, Hts|]. intros s ? <-.
  eapply sim_bind; [apply sim_getitem_tuple; reflexivity|]. intros n ? <-.
  eapply sim_bind; [apply sim_monthly_mean; assumption|]. intros m1 m2 Hm.
  eapply sim_bind; [apply sim_ndarray_shape, rel_loc_ref, Hm|]. intros ms ? <-.
  eapply sim_bind; [apply sim_alloc|]. intros x1 x2 Hx.
  eapply sim_bind; [apply sim_py_len, Hlon|]. intros n_lon ? <-.
  eapply sim_bind.
  { apply sim_for_each. intros j.
    eapply sim_bind; [apply sim_py_len, Hlat|]. intros n_lat ? <-.
    apply sim_for_each. intros i.
    eapply sim_bind; [apply sim_getitem_col, rel_loc_ref, Hm|]. intros c1 c2 Hc.
    eapply sim_bind; [apply sim_monthly_regression, Hc|]. intros f1 f2 Hf.
    apply sim_setitem_cell; [exact Hx|apply rel_loc_ref, Hf]. }
  intros _ _ _.
  eapply sim_bind; [apply sim_np_tile, rel_loc_ref, Hx|]. intros f1 f2 Hf.
  eapply sim_bind; [apply sim_ndarray_sub; [exact Hts|apply rel_loc_ref, Hf]|].
  intros a1 a2 Ha.
  apply sim_ret. repeat split; assumption.
Qed.

End Simulation.

(** ** Subtraction with broadcasting *)

Section Subtract.
Context {F : Type} `{Scalar F}.

Lemma broadcast_offset_same (rs : list nat) (k : nat) :
  k < shape_size rs -> broadcast_offset rs rs k = k.
Proof.
  revert k. induction rs as [|r rs IH]; intros k Hk; cbn [broadcast_offset].
  - cbn in Hk. lia.
  - cbn [shape_size fold_right] in Hk. fold (shape_size rs) in Hk.
    assert (Hr : r <> 0) by (intros ->; lia).
    rewrite IH by (apply Nat.Div0.div_lt_upper_bound; exact Hk).
    destruct (r =? 1) eqn:E.
    + apply Nat.eqb_eq in E. subst r. rewrite Nat.div_1_r. lia.
    + pose proof (Nat.div_mod_eq k r). lia.
Qed.

Lemma broadcast_rev_same (rs : list nat) : broadcast_rev rs rs = Some rs.
Proof.
  induction rs as [|r rs IH]; [reflexivity|].
  cbn [broadcast_rev]. rewrite Nat.eqb_refl, IH. reflexivity.
Qed.

Lemma broadcast_rev_tail_none (a b : nat) (r1 r2 : list nat) :
  broadcast_rev r1 r2 = None -> broadcast_rev (a :: r1) (b :: r2) = None.
Proof.
  intros Hr. cbn [broadcast_rev]. rewrite Hr.
  destruct (a =? b), (a =? 1), (b =? 1); reflexivity.
Qed.

Lemma shape_size_rev3 (a b c : nat) : shape_size [c; b; a] = shape_size [a; b; c].
Proof. cbn. lia. Qed.

(** Arrays of one three-dimensional shape are subtracted item by item. *)
Lemma subtract_same_shape (x y : ndarray F) (a b c : nat) :
  shape x = [a; b; c] -> shape y = [a; b; c] ->
  subtract x y =
    ok {| shape := [a; b; c];
          data := map (fun k => f_sub (item x k) (item y k))
                      (seq 0 (shape_size [a; b; c])) |}.
Proof.
  intros Hx Hy. unfold subtract. rewrite Hx, Hy. cbn [rev app].
  rewrite broadcast_rev_same. cbn [rev app].
  rewrite shape_size_rev3. do 2 f_equal.
  apply map_ext_seq. intros k Hk.
  rewrite broadcast_offset_same by (rewrite shape_size_rev3; exact Hk).
  reflexivity.
Qed.

(** Time axes of different lengths, neither of them 1, cannot be
    broadcast, whatever the other axes are. *)
Lemma subtract_time_mismatch (x y : ndarray F) (t t' a b c d : nat) :
  shape x = [t; a; b] -> shape y = [t'; c; d] ->
  t <> t' -> t <> 1 -> t' <> 1 ->
  subtract x y = raise (ValueError "operands could not be broadcast together").
Proof.
  intros Hx Hy Htt Ht Ht'. unfold subtract. rewrite Hx, Hy. cbn [rev app].
  rewrite (broadcast_rev_tail_none b d [a; t] [c; t']); [reflexivity|].
  apply broadcast_rev_tail_none. cbn [broadcast_rev].
  destruct (t =? t') eqn:E1; [apply Nat.eqb_eq in E1; contradiction|].
  destruct (t =? 1) eqn:E2; [apply Nat.eqb_eq in E2; contradiction|].
  destruct (t' =? 1) eqn:E3; [apply Nat.eqb_eq in E3; contradiction|].
  reflexivity.
Qed.

Lemma map_nth_seq (l : list F) (d : F) :
  map (fun k => nth k l d) (seq 0 (length l)) = l.
Proof.
  induction l as [|x l IH]; [reflexivity|].
  cbn [length seq map nth]. f_equal.
  rewrite <- seq_shift, map_map. exact IH.
Qed.

(** Adding back what was subtracted gives the first list again exactly
    when it does so item by item. *)
Lemma zip_add_sub (lx lf : list F) :
  length lf = length lx ->
  zip_with f_add
    (map (fun k => f_sub (nth k lx f_zero) (nth k lf f_zero)) (seq 0 (length lx))) lf = lx
  <-> forall k, k < length lx ->
        f_add (f_sub (nth k lx f_zero) (nth k lf f_zero)) (nth k lf f_zero)
        = nth k lx f_zero.
Proof.
  intros Hlen. split.
  - intros Heq k Hk. apply (f_equal (fun l => l !! k)) in Heq.
    rewrite lookup_zip_with, list_lookup_fmap, lookup_seq_lt in Heq by exact Hk.
    destruct (nth_lookup_or_length lx k f_zero) as [Hx|Hx]; [|lia].
    destruct (nth_lookup_or_length lf k f_zero) as [Hf|Hf]; [|lia].
    rewrite Hf, Hx in Heq. cbn in Heq. now injection Heq.
  - intros Hitems. apply list_eq. intros i.
    rewrite lookup_zip_with, list_lookup_fmap.
    destruct (decide (i < length lx)) as [Hi|Hi].
    + rewrite lookup_seq_lt by exact Hi. cbn.
      destruct (nth_lookup_or_length lx i f_zero) as [Hx|Hx]; [|lia].
      destruct (nth_lookup_or_length lf i f_zero) as [Hf|Hf]; [|lia].
      rewrite Hf, Hx. cbn. rewrite (Hitems i Hi). reflexivity.
    + rewrite lookup_seq_ge by lia. cbn.
      symmetry. apply lookup_ge_None. lia.
Qed.

End Subtract.

(** * The claims *)

Section Claims.
Context {F : Type} `{Scalar F}.
Variable lstsq : ndarray F -> ndarray F -> result (ndarray F).

Lemma monthly_mean_matching (h : heap F) (ts lat lon : ref) (X A B : ndarray F)
    (T n_lat n_lon : nat) :
  view h ts = Some X -> view h lat = Some A -> view h lon = Some B ->
  shape X = [T; n_lat; n_lon] -> len A = ok n_lat -> len B = ok n_lon ->
  0 < n_lat -> 0 < n_lon ->
  monthly_mean ts lat lon h =
    (ok (length h),
     h ++ [grouped_mean X (complete_size T n_lat n_lon) (group_size n_lat n_lon)
             n_lat n_lon]).
Proof.
  intros HX HA HB HsX HlA HlB Hlat Hlon.
  rewrite (monthly_mean_run h ts lat lon X A B HX HA HB).
  rewrite (monthly_mean_value_grid X A B T n_lat n_lon n_lat n_lon HsX HlA HlB).
  destruct (complete_size_matching T n_lat n_lon Hlat Hlon) as (-> & _).
  reflexivity.
Qed.

(** C1. For a grid of shape (T, n_lat, n_lon) with T >= 12 and at least
    one cell, [monthly_mean] returns a new array of shape
    (12, n_lat, n_lon) whose item at (m, i, j) is the sum of the items
    (y*12 + m, i, j) over the complete years y < T/12, divided by T/12;
    it can be computed from any grid that agrees with the input on the
    first (T/12)*12 time steps, so the trailing months play no part. *)
Theorem monthly_mean_complete_years (h : heap F) (ts lat lon : ref)
    (X A B : ndarray F) (T n_lat n_lon : nat) :
  view h ts = Some X -> view h lat = Some A -> view h lon = Some B ->
  shape X = [T; n_lat; n_lon] -> len A = ok n_lat -> len B = ok n_lon ->
  12 <= T -> 0 < n_lat -> 0 < n_lon ->
  exists M : ndarray F,
    monthly_mean ts lat lon h = (ok (length h), h ++ [M]) /\
    shape M = [12; n_lat; n_lon] /\
    length (data M) = 12 * (n_lat * n_lon) /\
    forall X' : ndarray F,
      shape X' = [T; n_lat; n_lon] ->
      (forall t i j, t < T / 12 * 12 -> i < n_lat -> j < n_lon ->
         item3 X' t i j = item3 X t i j) ->
      forall m i j, m < 12 -> i < n_lat -> j < n_lon ->
        item3 M m i j =
          f_div (sum_items (map (fun y => item3 X' (y * 12 + m) i j) (seq 0 (T / 12))))
                (f_of_nat (T / 12)).
Proof.
  intros HX HA HB HsX HlA HlB _ Hlat Hlon.
  eexists. split; [exact (monthly_mean_matching h ts lat lon X A B T n_lat n_lon
                            HX HA HB HsX HlA HlB Hlat Hlon)|].
  split; [reflexivity|]. split.
  { unfold grouped_mean. cbn [data]. rewrite length_map, length_seq. reflexivity. }
  intros X' HsX' Hagree m i j Hm Hi Hj.
  rewrite (grouped_mean_item3 X T n_lat n_lon m i j HsX Hm Hi Hj).
  f_equal. f_equal. apply map_ext_in. intros y Hy. apply in_seq in Hy.
  symmetry. apply Hagree; [nia|assumption|assumption].
Qed.

(** C7. With item arithmetic in which 0 + x = x and x / 1 = x, calling
    [monthly_mean] on a field of shape (12, n_lat, n_lon) with at least
    one cell returns a new array equal to the field. *)
Theorem monthly_mean_one_year (h : heap F) (ts lat lon : ref)
    (M A B : ndarray F) (n_lat n_lon : nat) :
  (forall x : F, f_add f_zero x = x) ->
  (forall x : F, f_div x (f_of_nat 1) = x) ->
  view h ts = Some M -> view h lat = Some A -> view h lon = Some B ->
  shape M = [12; n_lat; n_lon] -> well_formed M ->
  len A = ok n_lat -> len B = ok n_lon ->
  0 < n_lat -> 0 < n_lon ->
  monthly_mean ts lat lon h = (ok (length h), h ++ [M]).
Proof.
  intros Hadd Hdiv HM HA HB HsM Hwf HlA HlB Hlat Hlon.
  rewrite (monthly_mean_matching h ts lat lon M A B 12 n_lat n_lon
             HM HA HB HsM HlA HlB Hlat Hlon).
  do 3 f_equal.
  destruct (complete_size_matching 12 n_lat n_lon Hlat Hlon) as (_ & Hq & HS).
  set (size := complete_size 12 n_lat n_lon) in *.
  set (group := group_size n_lat n_lon) in *.
  replace (12 / 12) with 1 in Hq, HS by reflexivity.
  destruct M as [s d]. cbn [shape] in HsM. subst s.
  unfold well_formed in Hwf. cbn [shape data] in Hwf.
  assert (Hlen : length d = group).
  { rewrite Hwf. unfold group, group_size. cbn. lia. }
  unfold grouped_mean. cbn [data]. f_equal.
  rewrite Hq.
  transitivity (map (fun k => nth k d f_zero) (seq 0 (length d)));
    [|apply map_nth_seq].
  rewrite Hlen.
  apply map_ext_seq. intros k Hk. cbn [seq map].
  unfold sum_items. cbn [fold_left]. rewrite Hadd, Hdiv.
  apply nth_take_lt. lia.
Qed.


Lemma monthly_anomaly_series_mean_fails (h : heap F) (ts lat lon : ref)
    (X A B : ndarray F) (e : exn) :
  view h ts = Some X -> view h lat = Some A -> view h lon = Some B ->
  monthly_mean_value X A B = inl e ->
  monthly_anomaly_series lstsq ts lat lon h = (inl e, h).
Proof.
  intros HX HA HB He. unfold monthly_anomaly_series.
  py_step (ndarray_shape_run _ _ _ HX).
  py_step getitem_tuple_run.
  destruct (tuple_get (shape X) 0) as [e'|n] eqn:Hn.
  - unfold monthly_mean_value in He. rewrite Hn in He. cbn in He.
    injection He as ->. reflexivity.
  - cbv beta iota zeta.
    rewrite run_bind, (monthly_mean_run h ts lat lon X A B HX HA HB), He.
    reflexivity.
Qed.

(** C3 (what the code does). On a grid with T >= 12 that does not end on
    a complete year, [monthly_anomaly_series] subtracts the fit of length
    (T/12)*12 from the whole series of length T and raises numpy's
    broadcasting error: no anomaly series is returned. *)
Theorem monthly_anomaly_series_partial_year (h : heap F) (ts lat lon : ref)
    (X A B : ndarray F) (T n_lat n_lon : nat) :
  solver_total lstsq ->
  view h ts = Some X -> view h lat = Some A -> view h lon = Some B ->
  shape X = [T; n_lat; n_lon] -> len A = ok n_lat -> len B = ok n_lon ->
  12 <= T -> T mod 12 <> 0 -> 0 < n_lat -> 0 < n_lon ->
  exists news : heap F,
    monthly_anomaly_series lstsq ts lat lon h =
      (raise (ValueError "operands could not be broadcast together"), h ++ news).
Proof.
  intros Hsolver HX HA HB HsX HlA HlB HT Hmod Hlat Hlon.
  destruct (complete_size_matching T n_lat n_lon Hlat Hlon) as (Hcond & _).
  destruct (monthly_anomaly_series_run lstsq h ts lat lon X A B T n_lat n_lon n_lat n_lon
              Hsolver HX HA HB HsX HlA HlB Hcond)
    as (news & fit & l_anom & l_fit & Hsf & _ & Hrun & _).
  exists news. rewrite Hrun.
  rewrite (subtract_time_mismatch X fit T (T / 12 * 12) n_lat n_lon n_lat n_lon HsX Hsf).
  - reflexivity.
  - pose proof (Nat.div_mod_eq T 12). lia.
  - lia.
  - lia.
Qed.

(** C6 (as amended). For a well-formed grid whose time length is a
    multiple of 12 (at least 12) with at least one cell,
    [monthly_anomaly_series] returns three new arrays (anomaly, fit,
    mean); anomaly and fit have the shape of the grid; every item of
    anomaly is the difference x - f, as the item arithmetic gives it, of
    the items x of the grid and f of fit; and anomaly + fit is the grid
    again exactly when (x - f) + f gives back x at every item: always in
    exact arithmetic, not in floating point. *)
Theorem monthly_anomaly_series_anomaly_is_difference (h : heap F) (ts lat lon : ref)
    (X A B : ndarray F) (T n_lat n_lon : nat) :
  solver_total lstsq ->
  view h ts = Some X -> view h lat = Some A -> view h lon = Some B ->
  shape X = [T; n_lat; n_lon] -> well_formed X ->
  len A = ok n_lat -> len B = ok n_lon ->
  12 <= T -> T mod 12 = 0 -> 0 < n_lat -> 0 < n_lon ->
  exists (news : heap F) (l_anom l_fit : loc) (anomaly fit mean : ndarray F),
    monthly_anomaly_series lstsq ts lat lon h =
      (ok (l_anom, l_fit, length h), h ++ news) /\
    (h ++ news) !! l_anom = Some anomaly /\
    (h ++ news) !! l_fit = Some fit /\
    (h ++ news) !! length h = Some mean /\
    shape anomaly = shape X /\ shape fit = shape X /\
    (forall k, k < length (data X) ->
       item anomaly k = f_sub (item X k) (item fit k)) /\
    (add_items anomaly fit = X <->
     forall k, k < length (data X) ->
       f_add (f_sub (item X k) (item fit k)) (item fit k) = item X k).
Proof.
  intros Hsolver HX HA HB HsX Hwf HlA HlB HT Hmod Hlat Hlon.
  destruct (complete_size_matching T n_lat n_lon Hlat Hlon) as (Hcond & _).
  destruct (monthly_anomaly_series_run lstsq h ts lat lon X A B T n_lat n_lon n_lat n_lon
              Hsolver HX HA HB HsX HlA HlB Hcond)
    as (news & fit & l_anom & l_fit & Hsf & Hlf & Hrun & Hmean & Hfit & Hanom).
  assert (HTT : T / 12 * 12 = T).
  { pose proof (Nat.div_mod_eq T 12). lia. }
  rewrite HTT in Hsf.
  pose proof (subtract_same_shape X fit T n_lat n_lon HsX Hsf) as Hsub.
  rewrite Hsub in Hrun.
  destruct X as [sx dx]. cbn [shape] in HsX. subst sx.
  unfold well_formed in Hwf. cbn [shape data] in Hwf.
  assert (Hlen : length (data fit) = length dx).
  { rewrite Hlf, Hwf. cbn. pose proof (Nat.div_mod_eq T 12). nia. }
  eexists news, l_anom, l_fit, _, fit, _.
  split; [exact Hrun|]. split; [exact (Hanom _ Hsub)|].
  split; [exact Hfit|]. split; [exact Hmean|].
  split; [reflexivity|]. split; [exact Hsf|].
  cbn [shape data]. rewrite <- Hwf. split.
  - intros k Hk. unfold item at 1. cbn [data].
    rewrite (nth_map_seq _ _ _ f_zero) by exact Hk. reflexivity.
  - unfold add_items. cbn [shape data]. unfold item. cbn [data].
    rewrite <- (zip_add_sub dx (data fit) Hlen). split.
    + intros Heq. now injection Heq.
    + intros Heq. now rewrite Heq.
Qed.


(** C4 (as amended). For a grid with fewer than 12 time steps (at least
    one cell, coordinate lengths matching) [monthly_mean] raises nothing:
    it returns a (12, n_lat, n_lon) array whose every item is the mean of
    no values, 0 / 0. For T = 12 [monthly_mean] and
    [monthly_anomaly_series] succeed and each item of the mean is
    (0 + x) / 1 for the single year's item x. *)
Theorem short_series_is_not_rejected (h : heap F) (ts lat lon : ref)
    (X A B : ndarray F) (T n_lat n_lon : nat) :
  view h ts = Some X -> view h lat = Some A -> view h lon = Some B ->
  shape X = [T; n_lat; n_lon] -> len A = ok n_lat -> len B = ok n_lon ->
  0 < n_lat -> 0 < n_lon ->
  (T < 12 ->
     exists M : ndarray F,
       monthly_mean ts lat lon h = (ok (length h), h ++ [M]) /\
       shape M = [12; n_lat; n_lon] /\
       forall m i j, m < 12 -> i < n_lat -> j < n_lon ->
         item3 M m i j = f_div f_zero (f_of_nat 0)) /\
  (T = 12 ->
     (exists M : ndarray F,
        monthly_mean ts lat lon h = (ok (length h), h ++ [M]) /\
        shape M = [12; n_lat; n_lon] /\
        forall m i j, m < 12 -> i < n_lat -> j < n_lon ->
          item3 M m i j = f_div (f_add f_zero (item3 X m i j)) (f_of_nat 1)) /\
     (solver_total lstsq ->
        is_ok (fst (monthly_anomaly_series lstsq ts lat lon h)) = true)).
Proof.
  intros HX HA HB HsX HlA HlB Hlat Hlon.
  pose proof (monthly_mean_matching h ts lat lon X A B T n_lat n_lon
                HX HA HB HsX HlA HlB Hlat Hlon) as Hmean.
  destruct (complete_size_matching T n_lat n_lon Hlat Hlon) as (Hcond & _).
  split.
  - intros HT. eexists. split; [exact Hmean|]. split; [reflexivity|].
    intros m i j Hm Hi Hj.
    rewrite (grouped_mean_item3 X T n_lat n_lon m i j HsX Hm Hi Hj).
    rewrite (Nat.div_small T 12 HT). reflexivity.
  - intros ->. split.
    + eexists. split; [exact Hmean|]. split; [reflexivity|].
      intros m i j Hm Hi Hj.
      rewrite (grouped_mean_item3 X 12 n_lat n_lon m i j HsX Hm Hi Hj).
      replace (12 / 12) with 1 by reflexivity. reflexivity.
    + intros Hsolver.
      destruct (monthly_anomaly_series_run lstsq h ts lat lon X A B 12 n_lat n_lon
                  n_lat n_lon Hsolver HX HA HB HsX HlA HlB Hcond)
        as (news & fit & l_anom & l_fit & Hsf & _ & Hrun & _).
      rewrite Hrun.
      replace (12 / 12 * 12) with 12 in Hsf by reflexivity.
      rewrite (subtract_same_shape X fit 12 n_lat n_lon HsX Hsf). reflexivity.
Qed.

(** C5 (as amended). The only test on shapes is the one numpy's reshape
    makes: with S = (T/12)*12*n_lat*n_lon and K = 12*len(lat)*len(lon),
    [monthly_mean] and [monthly_anomaly_series] raise ValueError when K is
    zero or does not divide S, and [monthly_mean] succeeds otherwise,
    whether or not the coordinate lengths are those of the grid. When the
    reshape is accepted and T is a multiple of 12,
    [monthly_anomaly_series] succeeds exactly when the shapes
    (T, n_lat, n_lon) and (T, len(lat), len(lon)) can be broadcast, and
    raises ValueError otherwise. *)
Theorem reshape_decides_shape_errors (h : heap F) (ts lat lon : ref)
    (X A B : ndarray F) (T n_lat n_lon l_lat l_lon : nat) :
  view h ts = Some X -> view h lat = Some A -> view h lon = Some B ->
  shape X = [T; n_lat; n_lon] -> len A = ok l_lat -> len B = ok l_lon ->
  let size := complete_size T n_lat n_lon in
  let group := group_size l_lat l_lon in
  if (group =? 0) || negb (size mod group =? 0)
  then
    monthly_mean ts lat lon h = (raise (ValueError "cannot reshape array"), h) /\
    monthly_anomaly_series lstsq ts lat lon h =
      (raise (ValueError "cannot reshape array"), h)
  else
    is_ok (fst (monthly_mean ts lat lon h)) = true /\
    (solver_total lstsq -> T mod 12 = 0 ->
       match broadcast_rev [n_lon; n_lat; T] [l_lon; l_lat; T] with
       | Some _ => is_ok (fst (monthly_anomaly_series lstsq ts lat lon h)) = true
       | None =>
           fst (monthly_anomaly_series lstsq ts lat lon h) =
             raise (ValueError "operands could not be broadcast together")
       end).
Proof.
  intros HX HA HB HsX HlA HlB size group.
  pose proof (monthly_mean_value_grid X A B T n_lat n_lon l_lat l_lon HsX HlA HlB)
    as Hvalue.
  cbv zeta in Hvalue. fold size group in Hvalue.
  pose proof (monthly_anomaly_series_run lstsq h ts lat lon X A B T n_lat n_lon
                l_lat l_lon) as Hseries.
  cbv zeta in Hseries. fold size group in Hseries.
  destruct ((group =? 0) || negb (size mod group =? 0)) eqn:Hcond.
  - split.
    + rewrite (monthly_mean_run h ts lat lon X A B HX HA HB), Hvalue. reflexivity.
    + apply (monthly_anomaly_series_mean_fails h ts lat lon X A B _ HX HA HB Hvalue).
  - split.
    + rewrite (monthly_mean_run h ts lat lon X A B HX HA HB), Hvalue. reflexivity.
    + intros Hsolver Hmod.
      destruct (Hseries Hsolver HX HA HB HsX HlA HlB eq_refl)
        as (news & fit & l_anom & l_fit & Hsf & _ & Hrun & _).
      replace (T / 12 * 12) with T in Hsf
        by (pose proof (Nat.div_mod_eq T 12); lia).
      rewrite Hrun. cbn [fst]. unfold subtract. rewrite HsX, Hsf. cbn [rev app].
      destruct (broadcast_rev [n_lon; n_lat; T] [l_lon; l_lat; T]); reflexivity.
Qed.

Lemma monthly_regression_run (h : heap F) (ts : ref) (Y : ndarray F) :
  view h ts = Some Y ->
  exists news,
    monthly_regression lstsq ts h =
      (match regression_value lstsq Y with
       | inl e => inl e
       | inr _ => ok (length h + 15)
       end, h ++ news) /\
    forall v, regression_value lstsq Y = ok v ->
      (h ++ news) !! (length h + 15) = Some v.
Proof.
  intros HY.
  destruct (monthly_regression_run_nil lstsq h ts Y HY) as (news & Hrun & Hv).
  rewrite app_nil_r in Hrun. exists news. split; [exact Hrun|].
  intros v Hval. rewrite lookup_app_r by lia.
  replace (length h + 15 - length h) with 15 by lia. exact (Hv v Hval).
Qed.

Lemma design_matrix_rows (m : nat) :
  m < 12 ->
  map (item design_matrix) (seq (m * 5) 5) =
    [f_one; f_cos (harmonic 2 (m + 1)); f_sin (harmonic 2 (m + 1));
     f_cos (harmonic 4 (m + 1)); f_sin (harmonic 4 (m + 1))].
Proof.
  intros Hm. do 12 (destruct m as [|m]; [reflexivity|]). lia.
Qed.

(** C2. For an input of exactly 12 values, [monthly_regression] returns
    a new array of 12 fitted values [P @ c]: [P] is the 12-by-5 matrix
    whose row for month m = 1..12 is
    (1, cos(2 pi m/12), sin(2 pi m/12), cos(4 pi m/12), sin(4 pi m/12)),
    and [c] is the solution the least-squares solver returns for
    [P c = input]. *)
Theorem monthly_regression_fitted_values (h : heap F) (ts : ref) (Y c : ndarray F) :
  view h ts = Some Y -> shape Y = [12] ->
  lstsq design_matrix Y = ok c -> shape c = [5] ->
  exists (news : heap F) (out : ndarray F),
    monthly_regression lstsq ts h = (ok (length h + 15), h ++ news) /\
    (h ++ news) !! (length h + 15) = Some out /\
    matmul design_matrix c = ok out /\
    shape out = [12] /\ length (data out) = 12 /\
    (forall m, m < 12 ->
       item out m =
         sum_items (map (fun k => f_mul (item design_matrix (m * 5 + k)) (item c k))
                        (seq 0 5))) /\
    shape (design_matrix (F := F)) = [12; 5] /\
    (forall m, m < 12 ->
       map (item design_matrix) (seq (m * 5) 5) =
         [f_one; f_cos (harmonic 2 (m + 1)); f_sin (harmonic 2 (m + 1));
          f_cos (harmonic 4 (m + 1)); f_sin (harmonic 4 (m + 1))]).
Proof.
  intros HY HsY Hc Hsc.
  destruct (monthly_regression_run h ts Y HY) as (news & Hrun & Hv).
  assert (Hval : regression_value lstsq Y =
            ok {| shape := [12]; data := map (dot_row design_matrix c 5 1 0) (seq 0 12) |}).
  { rewrite (regression_value_12 lstsq Y) by (rewrite HsY; reflexivity).
    rewrite Hc. cbv beta iota delta [rbind ok]. apply (matmul_design c Hsc). }
  rewrite Hval in Hrun. exists news. eexists.
  split; [exact Hrun|]. split; [exact (Hv _ Hval)|].
  split; [exact (matmul_design c Hsc)|].
  split; [reflexivity|]. split; [reflexivity|].
  split; [|split; [reflexivity|exact design_matrix_rows]].
  intros m Hm. unfold item at 1. cbn [data].
  rewrite nth_map_seq by exact Hm. reflexivity.
Qed.

(** C9. [monthly_regression] fails on every one-dimensional input whose
    length is not 12: the first column assignment cannot broadcast 12
    values. On 12 values the outcome is that of the solver and of the
    product, both applied to the one matrix [design_matrix], in which no
    input value occurs; it succeeds when the solver returns five
    coefficients. *)
Theorem monthly_regression_needs_twelve (h : heap F) (ts : ref) (Y : ndarray F)
    (n : nat) :
  view h ts = Some Y -> shape Y = [n] ->
  (n <> 12 ->
     exists news : heap F,
       monthly_regression lstsq ts h =
         (raise (ValueError "could not broadcast input array"), h ++ news)) /\
  (n = 12 ->
     exists news : heap F,
       monthly_regression lstsq ts h =
         (match rbind (lstsq design_matrix Y) (matmul design_matrix) with
          | inl e => inl e
          | inr _ => ok (length h + 15)
          end, h ++ news)) /\
  (n = 12 ->
     forall c, lstsq design_matrix Y = ok c -> shape c = [5] ->
       is_ok (fst (monthly_regression lstsq ts h)) = true).
Proof.
  intros HY HsY.
  destruct (monthly_regression_run h ts Y HY) as (news & Hrun & _).
  assert (Hn : tuple_get (shape Y) 0 = ok n) by (rewrite HsY; reflexivity).
  split; [|split].
  - intros Hne. exists news.
    rewrite (regression_value_not_12 lstsq Y n Hn Hne) in Hrun. exact Hrun.
  - intros ->. exists news.
    rewrite (regression_value_12 lstsq Y Hn) in Hrun. exact Hrun.
  - intros -> c Hc Hsc.
    rewrite (regression_value_12 lstsq Y Hn), Hc in Hrun.
    cbv beta iota delta [rbind ok] in Hrun.
    rewrite (matmul_design c Hsc) in Hrun. rewrite Hrun. reflexivity.
Qed.

Lemma sim_at_start {A : Type} (g1 g2 : heap F) (R : A -> A -> Prop)
    (c1 c2 : py F A) :
  sim g1 g2 R c1 c2 ->
  exists news : heap F,
    snd (c1 g1) = g1 ++ news /\ snd (c2 g2) = g2 ++ news /\
    rel_result R (fst (c1 g1)) (fst (c2 g2)).
Proof.
  intros Hsim. specialize (Hsim []).
  replace (g1 ++ []) with g1 in Hsim by (symmetry; apply app_nil_r).
  replace (g2 ++ []) with g2 in Hsim by (symmetry; apply app_nil_r).
  exact Hsim.
Qed.

Lemma sim_weaken {A : Type} (g1 g2 : heap F) (R R' : A -> A -> Prop)
    (c1 c2 : py F A) :
  (forall a b, R a b -> R' a b) -> sim g1 g2 R c1 c2 -> sim g1 g2 R' c1 c2.
Proof.
  intros HR Hsim l. destruct (Hsim l) as (l' & E1 & E2 & Hres).
  exists l'. split; [exact E1|]. split; [exact E2|].
  destruct (fst (c1 (g1 ++ l))), (fst (c2 (g2 ++ l))); cbn in Hres |- *; auto.
Qed.

Lemma rel_ref_of_views (h1 h2 : heap F) (r1 r2 : ref) (a : ndarray F) :
  view h1 r1 = Some a -> view h2 r2 = Some a -> rel_ref h1 h2 r1 r2.
Proof.
  intros H1 H2 l. rewrite (view_app h1 l r1 a H1), (view_app h2 l r2 a H2).
  reflexivity.
Qed.

Lemma tuple_get_of_len (a b : ndarray F) :
  len a = len b -> tuple_get (shape a) 0 = tuple_get (shape b) 0.
Proof.
  unfold tuple_get, len.
  destruct (shape a) as [|n s], (shape b) as [|m t]; cbn; intros Heq;
    first [reflexivity | discriminate Heq | injection Heq as ->; reflexivity].
Qed.

Lemma rel_len_of_views (h1 h2 : heap F) (r1 r2 : ref) (a b : ndarray F) :
  view h1 r1 = Some a -> view h2 r2 = Some b -> len a = len b ->
  rel_len h1 h2 r1 r2.
Proof.
  intros H1 H2 Hlen l. rewrite (view_app h1 l r1 a H1), (view_app h2 l r2 b H2).
  cbn. rewrite (tuple_get_of_len a b Hlen). reflexivity.
Qed.

Lemma same_array_of_rel_loc (h1 h2 news : heap F) (p1 p2 : loc) :
  rel_loc h1 h2 p1 p2 -> same_array (h1 ++ news) (h2 ++ news) p1 p2.
Proof.
  intros (i & -> & ->). unfold same_array. rewrite !lookup_app_r by lia.
  replace (length h1 + i - length h1) with i by lia.
  replace (length h2 + i - length h2) with i by lia. reflexivity.
Qed.

(** C8. [monthly_regression] and [monthly_anomaly_series] are functions
    of the values of their arguments: two calls on equal input arrays,
    in whatever stores and through whatever references, raise the same
    exception or return equal arrays; each leaves every array that was
    in its store before the call as it was, and adds the same new arrays. *)
Theorem calls_are_deterministic (h1 h2 : heap F)
    (ts1 ts2 lat1 lat2 lon1 lon2 : ref) (X A B : ndarray F) :
  view h1 ts1 = Some X -> view h2 ts2 = Some X ->
  view h1 lat1 = Some A -> view h2 lat2 = Some A ->
  view h1 lon1 = Some B -> view h2 lon2 = Some B ->
  same_new_arrays same_array h1 h2
    (monthly_regression lstsq ts1 h1) (monthly_regression lstsq ts2 h2) /\
  same_new_arrays same_arrays3 h1 h2
    (monthly_anomaly_series lstsq ts1 lat1 lon1 h1)
    (monthly_anomaly_series lstsq ts2 lat2 lon2 h2).
Proof.
  intros HX1 HX2 HA1 HA2 HB1 HB2.
  pose proof (rel_ref_of_views h1 h2 ts1 ts2 X HX1 HX2) as Hts.
  pose proof (rel_len_of_views h1 h2 lat1 lat2 A A HA1 HA2 eq_refl) as Hlat.
  pose proof (rel_len_of_views h1 h2 lon1 lon2 B B HB1 HB2 eq_refl) as Hlon.
  split.
  - destruct (sim_at_start h1 h2 _ _ _ (sim_monthly_regression lstsq h1 h2 ts1 ts2 Hts))
      as (news & E1 & E2 & HR).
    exists news. split; [exact E1|]. split; [exact E2|].
    rewrite E1, E2.
    destruct (fst (monthly_regression lstsq ts1 h1)) as [e1|p1],
             (fst (monthly_regression lstsq ts2 h2)) as [e2|p2];
      cbn in HR |- *; try exact HR.
    apply same_array_of_rel_loc, HR.
  - destruct (sim_at_start h1 h2 _ _ _
                (sim_monthly_anomaly_series lstsq h1 h2 ts1 ts2 lat1 lat2 lon1 lon2
                   Hts Hlat Hlon)) as (news & E1 & E2 & HR).
    exists news. split; [exact E1|]. split; [exact E2|].
    rewrite E1, E2.
    destruct (fst (monthly_anomaly_series lstsq ts1 lat1 lon1 h1)) as [e1|t1],
             (fst (monthly_anomaly_series lstsq ts2 lat2 lon2 h2)) as [e2|t2];
      cbn in HR |- *; try exact HR.
    destruct HR as (R1 & R2 & R3).
    repeat split; apply same_array_of_rel_loc; assumption.
Qed.

Lemma sim_same_store {A : Type} (h : heap F) (c1 c2 : py F A) :
  sim h h eq c1 c2 -> c1 h = c2 h.
Proof.
  intros Hsim. destruct (sim_at_start h h _ _ _ Hsim) as (news & E1 & E2 & HR).
  destruct (c1 h) as [r1 s1], (c2 h) as [r2 s2]. cbn [fst snd] in *.
  subst s1 s2. f_equal.
  destruct r1, r2; cbn in HR; first [contradiction | congruence].
Qed.

Lemma rel_loc_same (h : heap F) (p1 p2 : loc) : rel_loc h h p1 p2 -> p1 = p2.
Proof. intros (i & -> & ->). reflexivity. Qed.

(** C10. The coordinate arrays count only by their lengths: in one store
    and on one grid, two pairs of coordinate arrays of equal lengths give
    [monthly_mean], and [monthly_anomaly_series], the same outcome: the
    same exception or the same new arrays at the same locations. *)
Theorem coordinates_count_by_length (h : heap F) (ts lat1 lat2 lon1 lon2 : ref)
    (A1 A2 B1 B2 : ndarray F) :
  view h lat1 = Some A1 -> view h lat2 = Some A2 -> len A1 = len A2 ->
  view h lon1 = Some B1 -> view h lon2 = Some B2 -> len B1 = len B2 ->
  monthly_mean ts lat1 lon1 h = monthly_mean ts lat2 lon2 h /\
  monthly_anomaly_series lstsq ts lat1 lon1 h =
    monthly_anomaly_series lstsq ts lat2 lon2 h.
Proof.
  intros HA1 HA2 HA HB1 HB2 HB.
  assert (Hts : rel_ref h h ts ts) by (intros l; reflexivity).
  pose proof (rel_len_of_views h h lat1 lat2 A1 A2 HA1 HA2 HA) as Hlat.
  pose proof (rel_len_of_views h h lon1 lon2 B1 B2 HB1 HB2 HB) as Hlon.
  split; apply sim_same_store.
  - eapply sim_weaken; [|apply (sim_monthly_mean h h); eassumption].
    intros p1 p2 Hp. apply (rel_loc_same h), Hp.
  - eapply sim_weaken; [|apply (sim_monthly_anomaly_series lstsq h h); eassumption].
    intros [[a1 f1] m1] [[a2 f2] m2] (Ra & Rf & Rm). cbn [fst snd] in *.
    apply rel_loc_same in Ra, Rf, Rm. subst. reflexivity.
Qed.

End Claims.

(** * The claims on sample stores *)

Lemma zero_solver_total : solver_total zero_solver.
Proof. intros b _. exists (zeros [5]). split; reflexivity. Qed.

(** Two complete years on a grid of two cells. *)
Lemma monthly_mean_complete_years_witness :
  exists M : ndarray R,
    monthly_mean (Arr 0) (Arr 1) (Arr 2) (sample_store 24 1 2 1 2) =
      (ok 3, sample_store 24 1 2 1 2 ++ [M]) /\
    shape M = [12; 1; 2].
Proof.
  destruct (monthly_mean_complete_years (sample_store 24 1 2 1 2)
              (Arr 0) (Arr 1) (Arr 2)
              (sample_grid 24 1 2) (sample_axis 0 1) (sample_axis 0 2) 24 1 2
              eq_refl eq_refl eq_refl eq_refl eq_refl eq_refl
              ltac:(lia) ltac:(lia) ltac:(lia))
    as (M & Hrun & Hshape & _).
  exists M. split; [exact Hrun|exact Hshape].
Defined.

(** One year fed back to [monthly_mean]. *)
Lemma monthly_mean_one_year_witness :
  monthly_mean (Arr 0) (Arr 1) (Arr 2) (sample_store 12 2 3 2 3) =
    (ok 3, sample_store 12 2 3 2 3 ++ [sample_grid 12 2 3]).
Proof.
  apply (monthly_mean_one_year (sample_store 12 2 3 2 3) (Arr 0) (Arr 1) (Arr 2)
           (sample_grid 12 2 3) (sample_axis 0 2) (sample_axis 0 3) 2 3).
  - intros x. cbn. ring.
  - intros x. cbn. field.
  - reflexivity.
  - reflexivity.
  - reflexivity.
  - reflexivity.
  - reflexivity.
  - reflexivity.
  - reflexivity.
  - lia.
  - lia.
Defined.

(** Twelve values and the zero solver. *)
Lemma monthly_regression_fitted_values_witness :
  exists (news : heap R) (out : ndarray R),
    monthly_regression zero_solver (Arr 0) [sample_axis 0 12] =
      (ok 16, [sample_axis 0 12] ++ news) /\
    shape out = [12] /\
    matmul design_matrix (zeros [5]) = ok out.
Proof.
  destruct (monthly_regression_fitted_values zero_solver [sample_axis 0 12] (Arr 0)
              (sample_axis 0 12) (zeros [5]) eq_refl eq_refl eq_refl eq_refl)
    as (news & out & Hrun & _ & Hmat & Hshape & _).
  exists news, out. split; [exact Hrun|]. split; [exact Hshape|exact Hmat].
Defined.

(** Thirteen months: the subtraction is refused. *)
Lemma monthly_anomaly_series_partial_year_witness :
  exists news : heap R,
    monthly_anomaly_series zero_solver (Arr 0) (Arr 1) (Arr 2) (sample_store 13 1 1 1 1) =
      (raise (ValueError "operands could not be broadcast together"),
       sample_store 13 1 1 1 1 ++ news).
Proof.
  apply (monthly_anomaly_series_partial_year zero_solver (sample_store 13 1 1 1 1)
           (Arr 0) (Arr 1) (Arr 2)
           (sample_grid 13 1 1) (sample_axis 0 1) (sample_axis 0 1) 13 1 1).
  - exact zero_solver_total.
  - reflexivity.
  - reflexivity.
  - reflexivity.
  - reflexivity.
  - reflexivity.
  - reflexivity.
  - lia.
  - vm_compute. lia.
  - lia.
  - lia.
Defined.

(** Eleven months: a mean is returned. *)
Lemma short_series_is_not_rejected_witness :
  exists M : ndarray R,
    monthly_mean (Arr 0) (Arr 1) (Arr 2) (sample_store 11 1 1 1 1) =
      (ok 3, sample_store 11 1 1 1 1 ++ [M]) /\
    shape M = [12; 1; 1] /\
    item3 M 0 0 0 = (0 / INR 0)%R.
Proof.
  destruct (short_series_is_not_rejected zero_solver (sample_store 11 1 1 1 1)
              (Arr 0) (Arr 1) (Arr 2)
              (sample_grid 11 1 1) (sample_axis 0 1) (sample_axis 0 1) 11 1 1
              eq_refl eq_refl eq_refl eq_refl eq_refl eq_refl
              ltac:(lia) ltac:(lia))
    as (Hshort & _).
  destruct (Hshort ltac:(lia)) as (M & Hrun & Hshape & Hitems).
  exists M. split; [exact Hrun|]. split; [exact Hshape|].
  apply (Hitems 0 0 0); lia.
Defined.

(** Coordinate lengths exchanged: both calls are accepted. *)
Lemma reshape_decides_shape_errors_witness :
  is_ok (fst (monthly_mean (Arr 0) (Arr 1) (Arr 2) (sample_store 12 2 3 3 2))) = true /\
  (solver_total zero_solver -> 12 mod 12 = 0 ->
     fst (monthly_anomaly_series zero_solver (Arr 0) (Arr 1) (Arr 2)
            (sample_store 12 2 3 3 2)) =
       raise (ValueError "operands could not be broadcast together")).
Proof.
  exact (reshape_decides_shape_errors zero_solver (sample_store 12 2 3 3 2)
           (Arr 0) (Arr 1) (Arr 2)
           (sample_grid 12 2 3) (sample_axis 0 3) (sample_axis 0 2) 12 2 3 3 2
           eq_refl eq_refl eq_refl eq_refl eq_refl eq_refl).
Defined.

(** Two years over real numbers. *)
Lemma monthly_anomaly_series_anomaly_is_difference_witness :
  exists (news : heap R) (l_anom l_fit : loc) (anomaly fit : ndarray R),
    monthly_anomaly_series zero_solver (Arr 0) (Arr 1) (Arr 2) (sample_store 24 1 2 1 2) =
      (ok (l_anom, l_fit, 3), sample_store 24 1 2 1 2 ++ news) /\
    (sample_store 24 1 2 1 2 ++ news) !! l_anom = Some anomaly /\
    (sample_store 24 1 2 1 2 ++ news) !! l_fit = Some fit /\
    item anomaly 5 = (item (sample_grid 24 1 2) 5 - item fit 5)%R /\
    add_items anomaly fit = sample_grid 24 1 2.
Proof.
  destruct (monthly_anomaly_series_anomaly_is_difference zero_solver
              (sample_store 24 1 2 1 2) (Arr 0) (Arr 1) (Arr 2)
              (sample_grid 24 1 2) (sample_axis 0 1) (sample_axis 0 2) 24 1 2
              zero_solver_total
              eq_refl eq_refl eq_refl eq_refl eq_refl eq_refl eq_refl
              ltac:(lia) eq_refl ltac:(lia) ltac:(lia))
    as (news & l_anom & l_fit & anomaly & fit & mean & Hrun & Ha & Hf & _ & _ & _ &
        Hdiff & Hadd).
  exists news, l_anom, l_fit, anomaly, fit.
  split; [exact Hrun|]. split; [exact Ha|]. split; [exact Hf|].
  split; [apply Hdiff; vm_compute; lia|].
  apply Hadd. intros k _. cbn. ring.
Defined.

(** The same arrays at other locations of another store. *)
Lemma calls_are_deterministic_witness :
  same_new_arrays same_array
    (sample_store 12 1 1 1 1) [sample_axis 0 1; sample_axis 0 1; sample_grid 12 1 1]
    (monthly_regression zero_solver (Arr 0) (sample_store 12 1 1 1 1))
    (monthly_regression zero_solver (Arr 2)
       [sample_axis 0 1; sample_axis 0 1; sample_grid 12 1 1]) /\
  same_new_arrays same_arrays3
    (sample_store 12 1 1 1 1) [sample_axis 0 1; sample_axis 0 1; sample_grid 12 1 1]
    (monthly_anomaly_series zero_solver (Arr 0) (Arr 1) (Arr 2) (sample_store 12 1 1 1 1))
    (monthly_anomaly_series zero_solver (Arr 2) (Arr 0) (Arr 1)
       [sample_axis 0 1; sample_axis 0 1; sample_grid 12 1 1]).
Proof.
  exact (calls_are_deterministic zero_solver
           (sample_store 12 1 1 1 1) [sample_axis 0 1; sample_axis 0 1; sample_grid 12 1 1]
           (Arr 0) (Arr 2) (Arr 1) (Arr 0) (Arr 2) (Arr 1)
           (sample_grid 12 1 1) (sample_axis 0 1) (sample_axis 0 1)
           eq_refl eq_refl eq_refl eq_refl eq_refl eq_refl).
Defined.

(** Eleven values: the first column assignment fails. *)
Lemma monthly_regression_needs_twelve_witness :
  exists news : heap R,
    monthly_regression zero_solver (Arr 0) [sample_axis 0 11] =
      (raise (ValueError "could not broadcast input array"), [sample_axis 0 11] ++ news).
Proof.
  destruct (monthly_regression_needs_twelve zero_solver [sample_axis 0 11] (Arr 0)
              (sample_axis 0 11) 11 eq_refl eq_refl) as (Hfail & _).
  apply Hfail. lia.
Defined.

(** Coordinates of the same lengths and other values. *)
Lemma coordinates_count_by_length_witness :
  monthly_mean (Arr 0) (Arr 1) (Arr 2)
      [sample_grid 12 2 3; sample_axis 0 2; sample_axis 0 3; sample_axis 7 2; sample_axis 9 3] =
    monthly_mean (Arr 0) (Arr 3) (Arr 4)
      [sample_grid 12 2 3; sample_axis 0 2; sample_axis 0 3; sample_axis 7 2; sample_axis 9 3] /\
  monthly_anomaly_series zero_solver (Arr 0) (Arr 1) (Arr 2)
      [sample_grid 12 2 3; sample_axis 0 2; sample_axis 0 3; sample_axis 7 2; sample_axis 9 3] =
    monthly_anomaly_series zero_solver (Arr 0) (Arr 3) (Arr 4)
      [sample_grid 12 2 3; sample_axis 0 2; sample_axis 0 3; sample_axis 7 2; sample_axis 9 3].
Proof.
  exact (coordinates_count_by_length zero_solver
           [sample_grid 12 2 3; sample_axis 0 2; sample_axis 0 3;
            sample_axis 7 2; sample_axis 9 3]
           (Arr 0) (Arr 1) (Arr 3) (Arr 2) (Arr 4)
           (sample_axis 0 2) (sample_axis 7 2) (sample_axis 0 3) (sample_axis 9 3)
           eq_refl eq_refl eq_refl eq_refl eq_refl eq_refl).
Defined.

(** * Where the code departs from the claims *)

(** C4, refuted as stated: on eleven months [monthly_mean] raises
    nothing and returns an array. *)
Lemma monthly_mean_eleven_months_returns :
  fst (monthly_mean (Arr 0) (Arr 1) (Arr 2) (sample_store 11 1 1 1 1)) = ok 3.
Proof. reflexivity. Qed.

(** C5, refuted as stated: a grid of shape (12, 2, 3) with 3 latitudes
    and 2 longitudes is accepted by [monthly_mean]. *)
Lemma monthly_mean_exchanged_lengths_returns :
  fst (monthly_mean (Arr 0) (Arr 1) (Arr 2) (sample_store 12 2 3 3 2)) = ok 3.
Proof. reflexivity. Qed.

(** * Properties of the other helpers *)

(** ** Text *)

Lemma str_app_cons (x : ascii) (a b : string) : String x a +:+ b = String x (a +:+ b).
Proof. reflexivity. Qed.

Lemma str_app_nil_l (a : string) : "" +:+ a = a.
Proof. reflexivity. Qed.

Lemma str_app_assoc (a b c : string) : (a +:+ b) +:+ c = a +:+ (b +:+ c).
Proof. induction a as [|x a IH]; [reflexivity|]. rewrite !str_app_cons. now f_equal. Qed.

Lemma str_app_nil_r (a : string) : a +:+ "" = a.
Proof. induction a as [|x a IH]; [reflexivity|]. rewrite str_app_cons. now f_equal. Qed.

Lemma str_split_not_nil (sep : ascii) (s : string) : str_split sep s <> [].
Proof.
  induction s as [|c s IH]; cbn; [discriminate|].
  destruct (Ascii.eqb c sep); [discriminate|].
  destruct (str_split sep s); discriminate.
Qed.

Lemma str_split_free (sep : ascii) (s : string) :
  str_free sep s -> str_split sep s = [s].
Proof.
  induction s as [|c s IH]; cbn; [reflexivity|].
  intros [Hc Hs]. rewrite IH by assumption.
  destruct (Ascii.eqb_spec c sep); [contradiction | reflexivity].
Qed.

Lemma str_split_app (sep : ascii) (a b : string) :
  str_split sep (a +:+ String sep b) = str_split sep a ++ str_split sep b.
Proof.
  induction a as [|c a IH].
  - rewrite str_app_nil_l. cbn. rewrite Ascii.eqb_refl. reflexivity.
  - rewrite str_app_cons. cbn. rewrite IH. destruct (Ascii.eqb c sep); [reflexivity|].
    destruct (str_split sep a) eqn:E; [now apply str_split_not_nil in E|].
    reflexivity.
Qed.

Lemma str_join_cons (sep x : string) (y : string) (l : list string) :
  str_join sep (x :: y :: l) = x +:+ sep +:+ str_join sep (y :: l).
Proof. reflexivity. Qed.

Lemma str_join_split (sep : ascii) (s : string) :
  str_join (String sep "") (str_split sep s) = s.
Proof.
  induction s as [|c s IH]; [reflexivity|].
  cbn [str_split].
  destruct (str_split sep s) as [|w ws] eqn:E; [now apply str_split_not_nil in E|].
  destruct (Ascii.eqb_spec c sep) as [->|Hc].
  - rewrite str_join_cons, IH. reflexivity.
  - destruct ws as [|w' ws].
    + cbn in IH. subst w. reflexivity.
    + rewrite str_join_cons in *. rewrite str_app_cons. now f_equal.
Qed.

Lemma str_endswith_app (p x : string) : str_endswith (p +:+ x) x = true.
Proof.
  induction p as [|c p IH].
  - rewrite str_app_nil_l. destruct x; cbn; [reflexivity|].
    rewrite Ascii.eqb_refl, String.eqb_refl. reflexivity.
  - rewrite str_app_cons. cbn [str_endswith]. rewrite IH. apply orb_true_r.
Qed.

Lemma str_endswith_inv (s x : string) :
  str_endswith s x = true -> exists p, s = p +:+ x.
Proof.
  induction s as [|c s IH]; cbn [str_endswith].
  - rewrite orb_false_r. intros Hx. apply String.eqb_eq in Hx. subst x. now exists "".
  - intros Hs. apply orb_true_iff in Hs as [Hs|Hs].
    + apply String.eqb_eq in Hs. subst x. now exists "".
    + destruct (IH Hs) as [p ->]. now exists (String c p).
Qed.

(** ** Slices *)

Lemma py_slice_inner {A : Type} (x y : A) (l : list A) :
  py_slice (Some 1%Z) (Some (-1)%Z) (x :: l ++ [y]) = l.
Proof.
  unfold py_slice, slice_bound.
  change (-1 <? 0)%Z with true. change (1 <? 0)%Z with false. cbv iota.
  rewrite length_cons, length_app. cbn [length].
  replace (Z.to_nat (Z.max 0 (Z.of_nat (S (length l + 1)) + -1))) with (S (length l)) by lia.
  replace (Nat.min (S (length l + 1)) (Z.to_nat 1)) with 1 by lia.
  replace (S (length l) - 1) with (length l) by lia.
  change (drop 1 (x :: l ++ [y])) with (l ++ [y]).
  apply take_app_length.
Qed.

Lemma py_slice_inner_short {A : Type} (l : list A) :
  length l <= 2 -> py_slice (Some 1%Z) (Some (-1)%Z) l = [].
Proof.
  intros Hl. unfold py_slice, slice_bound.
  change (-1 <? 0)%Z with true. change (1 <? 0)%Z with false. cbv iota.
  apply length_zero_iff_nil. rewrite length_take, length_drop. lia.
Qed.

(** ** Loops and comprehensions *)

Lemma comprehension_ok {A B : Type} (f : A -> outcome B) (l : list A) (ys : list B) :
  Forall2 (fun x y => f x = inr y) l ys -> comprehension f l = inr ys.
Proof.
  induction 1 as [|x y l ys Hx _ IH]; cbn; [reflexivity|].
  rewrite Hx. cbn. rewrite IH. reflexivity.
Qed.

Lemma comprehension_total {A B : Type} (f : A -> outcome B) (g : A -> B) (l : list A) :
  (forall x, f x = inr (g x)) -> comprehension f l = inr (map g l).
Proof.
  intros Hf. induction l as [|x l IH]; cbn; [reflexivity|].
  rewrite Hf. cbn. rewrite IH. reflexivity.
Qed.

Lemma comprehension_inv {A B : Type} (f : A -> outcome B) (l : list A) :
  match comprehension f l with
  | inr ys => Forall2 (fun x y => f x = inr y) l ys
  | inl e => exists x, x ∈ l /\ f x = inl e
  end.
Proof.
  induction l as [|x l IH]; cbn; [constructor|].
  destruct (f x) as [e|y] eqn:Hx; cbn.
  - exists x. split; [left | assumption].
  - destruct (comprehension f l) as [e|ys]; cbn.
    + destruct IH as (x' & Hin & Hx'). exists x'. split; [now right | assumption].
    + now constructor.
Qed.

(** ** [available_complementary_variables] *)

Section ComplementaryFacts.
Variable fs : directory_listing.

Lemma first_field_getitem (name : string) :
  list_getitem (str_split "_" name) 0 = inr (first_field name).
Proof.
  unfold first_field, list_getitem.
  destruct (str_split "_" name) eqn:E; [now apply str_split_not_nil in E | reflexivity].
Qed.

Lemma holding_cons_in (p : string) (C : list string) (rest : list (list string)) :
  p ∈ map inner_fields C -> holding p (C :: rest) = C :: holding p rest.
Proof. intros Hin. unfold holding. rewrite filter_cons. now rewrite decide_True. Qed.

Lemma holding_cons_out (p : string) (C : list string) (rest : list (list string)) :
  p ∉ map inner_fields C -> holding p (C :: rest) = holding p rest.
Proof. intros Hin. unfold holding. rewrite filter_cons. now rewrite decide_False. Qed.

Lemma inner_loop_run (p : string) (rows : list (list string))
    (before rest : list (list string)) (count : nat) (names : list string) :
  rows = map (map first_field) (before ++ rest) ->
  for_loop (zip (seq (length before) (length rest)) (map (map inner_fields) rest))
    (fun '(count, names) '(i, complementary_variable) =>
       if bool_decide (p ∈ complementary_variable)
       then
         obind (list_getitem rows i) (fun row =>
         obind (list_getitem row 0) (fun name =>
         inr (count + 1, names ++ [name])))
       else inr (count, names))
    (count, names)
  = inr (count + length (holding p rest), names ++ reported_names p rest).
Proof.
  intros Hrows. revert before count names Hrows.
  induction rest as [|C rest IH]; intros before count names Hrows.
  - cbn. now rewrite Nat.add_0_r, app_nil_r.
  - cbn [length seq map zip zip_with for_loop].
    destruct (decide (p ∈ map inner_fields C)) as [Hin|Hin].
    + rewrite bool_decide_eq_true_2 by assumption.
      assert (Hrow : list_getitem rows (length before) = inr (map first_field C)).
      { unfold list_getitem. rewrite Hrows, map_app.
        rewrite lookup_app_r by now rewrite length_map.
        now rewrite length_map, Nat.sub_diag. }
      rewrite Hrow. cbn [obind].
      unfold reported_names. rewrite holding_cons_in by assumption.
      destruct C as [|c0 C]; [now apply elem_of_nil in Hin|].
      cbn [map list_getitem lookup list_lookup obind hd length].
      specialize (IH (before ++ [c0 :: C]) (count + 1) (names ++ [first_field c0])).
      rewrite length_app in IH. cbn [length] in IH.
      replace (length before + 1) with (S (length before)) in IH by lia.
      rewrite IH by now rewrite <- app_assoc.
      unfold reported_names. rewrite <- app_assoc.
      f_equal. f_equal. lia.
    + rewrite bool_decide_eq_false_2 by assumption. cbn [obind].
      unfold reported_names. rewrite holding_cons_out by assumption.
      specialize (IH (before ++ [C]) count names).
      rewrite length_app in IH. cbn [length] in IH.
      replace (length before + 1) with (S (length before)) in IH by lia.
      rewrite IH by now rewrite <- app_assoc.
      reflexivity.
Qed.

Lemma inner_loop_enumerate (p : string) (rows listings : list (list string)) :
  rows = map (map first_field) listings ->
  for_loop (enumerate (map (map inner_fields) listings))
    (fun '(count, names) '(i, complementary_variable) =>
       if bool_decide (p ∈ complementary_variable)
       then
         obind (list_getitem rows i) (fun row =>
         obind (list_getitem row 0) (fun name =>
         inr (count + 1, names ++ [name])))
       else inr (count, names))
    (0, [])
  = inr (length (holding p listings), reported_names p listings).
Proof.
  intros Hrows. unfold enumerate. rewrite length_map.
  exact (inner_loop_run p rows [] listings 0 [] Hrows).
Qed.

Lemma dict_getitem_some `{Countable K} {A : Type} (d : gmap K A) (k : K) (x : A) :
  d !! k = Some x -> dict_getitem d k = inr x.
Proof. intros Hk. unfold dict_getitem. now rewrite Hk. Qed.

Lemma group_snoc (c : nat) (done : list string) (p : string) (listings : list (list string)) :
  group c (done ++ [p]) listings =
    if decide (length (holding p listings) = c)
    then Some (default [] (group c done listings) ++ [(p, reported_names p listings)])
    else group c done listings.
Proof.
  unfold group. rewrite filter_app, filter_cons, filter_nil.
  destruct (decide (length (holding p listings) = c)) as [Hc|Hc].
  - destruct (filter _ done) as [|q g]; cbn; [reflexivity|].
    rewrite map_app. reflexivity.
  - now rewrite app_nil_r.
Qed.

Lemma outer_loop_run (rows listings : list (list string)) (todo done : list string)
    (d : gmap nat (list (string * list string))) :
  rows = map (map first_field) listings ->
  (forall c, d !! c = group c done listings) ->
  exists d',
    for_loop todo
      (fun dict_datasets primary_variable_dataset =>
         obind
           (for_loop (enumerate (map (map inner_fields) listings))
              (fun '(count, names) '(i, complementary_variable) =>
                 if bool_decide (primary_variable_dataset ∈ complementary_variable)
                 then
                   obind (list_getitem rows i) (fun row =>
                   obind (list_getitem row 0) (fun name =>
                   inr (count + 1, names ++ [name])))
                 else inr (count, names))
              (0, []))
           (fun '(count, names) =>
              let dict_datasets :=
                if bool_decide (is_Some (dict_datasets !! count)) then dict_datasets
                else <[count := []]> dict_datasets in
              obind (dict_getitem dict_datasets count) (fun entries =>
              inr (<[count := entries ++ [(primary_variable_dataset, names)]]> dict_datasets))))
      d = inr d' /\
    forall c, d' !! c = group c (done ++ todo) listings.
Proof.
  intros Hrows. revert done d.
  induction todo as [|p todo IH]; intros done d Hd.
  - exists d. split; [reflexivity|]. now rewrite app_nil_r.
  - cbn [for_loop]. rewrite (inner_loop_enumerate p rows listings Hrows).
    cbn [obind].
    set (k := length (holding p listings)).
    set (d1 := if bool_decide (is_Some (d !! k)) then d else <[k := []]> d).
    assert (Hd1 : d1 !! k = Some (default [] (group k done listings))).
    { unfold d1. destruct (d !! k) as [l|] eqn:E.
      - rewrite bool_decide_eq_true_2 by eauto. rewrite E. rewrite <- Hd, E. reflexivity.
      - rewrite bool_decide_eq_false_2 by (intros [? ?]; discriminate).
        rewrite lookup_insert_eq. rewrite <- Hd, E. reflexivity. }
    fold d1. rewrite (dict_getitem_some d1 k _ Hd1). cbn [obind].
    destruct (IH (done ++ [p])
                (<[k := default [] (group k done listings) ++ [(p, reported_names p listings)]]> d1))
      as (d' & Hrun & Hd').
    { intros c. rewrite group_snoc. fold k.
      destruct (decide (k = c)) as [<-|Hc].
      - now rewrite lookup_insert_eq.
      - rewrite lookup_insert_ne by assumption. unfold d1.
        destruct (bool_decide (is_Some (d !! k))); [apply Hd|].
        rewrite lookup_insert_ne by assumption. apply Hd. }
    exists d'. split; [exact Hrun|].
    intros c. rewrite Hd'. now rewrite <- app_assoc.
Qed.

End ComplementaryFacts.

Section ComplementaryTheorems.
Variable fs : directory_listing.

Lemma available_complementary_variables_run
    (root_path experiment_category primary_variable : string)
    (complementary_variables : list string)
    (primary : list string) (listings : list (list string)) :
  listdir_folders fs (os_path_join root_path [experiment_category; primary_variable])
    = inr primary ->
  Forall2 (fun v folders =>
             listdir_folders fs (os_path_join root_path [experiment_category; v])
               = inr folders)
          complementary_variables listings ->
  exists d,
    available_complementary_variables fs root_path experiment_category primary_variable
      complementary_variables = inr d /\
    forall c, d !! c = group c (map inner_fields primary) listings.
Proof.
  intros Hprimary Hlistings. unfold available_complementary_variables.
  rewrite Hprimary. cbn [obind].
  rewrite (comprehension_ok _ _ listings) by now apply Forall2_fmap_l.
  cbn [obind].
  rewrite (comprehension_total _ (map first_field))
    by (intros l; apply comprehension_total, first_field_getitem).
  cbn [obind].
  destruct (outer_loop_run (map (map first_field) listings) listings
              (map inner_fields primary) [] ∅ eq_refl) as (d & Hrun & Hd).
  { intros c. now rewrite lookup_empty. }
  exists d. split; [exact Hrun | exact Hd].
Qed.

Lemma listdir_folders_inv (path : string) :
  match listdir_folders fs path with
  | inr _ => exists names, os_listdir fs path = inr names
  | inl e => exists k, os_listdir fs path = inl k /\ e = OSError k
  end.
Proof.
  unfold listdir_folders. destruct (os_listdir fs path) as [k|names]; eauto.
Qed.

Lemma available_complementary_variables_inv
    (root_path experiment_category primary_variable : string)
    (complementary_variables : list string) :
  match available_complementary_variables fs root_path experiment_category
          primary_variable complementary_variables with
  | inr d =>
      exists primary listings,
        listdir_folders fs (os_path_join root_path [experiment_category; primary_variable])
          = inr primary /\
        Forall2 (fun v folders =>
                   listdir_folders fs (os_path_join root_path [experiment_category; v])
                     = inr folders)
                complementary_variables listings /\
        forall c, d !! c = group c (map inner_fields primary) listings
  | inl e =>
      exists v k, v ∈ primary_variable :: complementary_variables /\
        os_listdir fs (os_path_join root_path [experiment_category; v]) = inl k /\
        e = OSError k
  end.
Proof.
  pose proof (listdir_folders_inv
                (os_path_join root_path [experiment_category; primary_variable])) as Hp.
  destruct (listdir_folders fs
              (os_path_join root_path [experiment_category; primary_variable]))
    as [e|primary] eqn:Hprimary.
  - unfold available_complementary_variables. rewrite Hprimary. cbn [obind].
    destruct Hp as (k & Hk & ->). exists primary_variable, k.
    split; [apply list_elem_of_here | split; [exact Hk | reflexivity]].
  - pose proof (comprehension_inv (listdir_folders fs)
                  (map (fun v => os_path_join root_path [experiment_category; v])
                       complementary_variables)) as Hc.
    destruct (comprehension (listdir_folders fs) _) as [e|listings] eqn:Hlistings.
    + unfold available_complementary_variables. rewrite Hprimary. cbn [obind].
      rewrite Hlistings. cbn [obind].
      destruct Hc as (path & Hin & Hpath).
      apply list_elem_of_fmap in Hin as (v & -> & Hv).
      pose proof (listdir_folders_inv (os_path_join root_path [experiment_category; v])) as Hl.
      rewrite Hpath in Hl. destruct Hl as (k & Hk & ->).
      exists v, k. split; [now apply list_elem_of_further | split; [exact Hk | reflexivity]].
    + apply Forall2_fmap_l in Hc.
      destruct (available_complementary_variables_run root_path experiment_category
                  primary_variable complementary_variables primary listings Hprimary Hc)
        as (d & Hrun & Hd).
      rewrite Hrun. exists primary, listings. split; [reflexivity | split; assumption].
Qed.

Lemma holding_length (p : string) (listings : list (list string)) :
  length (holding p listings) <= length listings.
Proof. apply length_filter. Qed.

Lemma group_inv (c : nat) (primary : list string) (listings : list (list string))
    (entries : list (string * list string)) :
  group c primary listings = Some entries ->
  entries <> [] /\
  entries = map (fun p => (p, reported_names p listings))
                (filter (fun p => length (holding p listings) = c) primary).
Proof.
  unfold group. destruct (filter _ primary) as [|q g]; [discriminate|].
  intros [= <-]. split; [discriminate | reflexivity].
Qed.

End ComplementaryTheorems.

(** Strings *)

Lemma inner_fields_middle (v m t : string) :
  str_free "_" v -> str_free "_" t ->
  inner_fields (v +:+ "_" +:+ m +:+ "_" +:+ t) = m.
Proof.
  intros Hv Ht. unfold inner_fields.
  change ("_" +:+ m +:+ "_" +:+ t) with (String "_" (m +:+ String "_" t)).
  rewrite !str_split_app, (str_split_free _ v Hv), (str_split_free _ t Ht).
  cbn [app]. rewrite py_slice_inner. apply (str_join_split "_").
Qed.

Lemma str_split_length_two (sep : ascii) (a b : string) :
  str_free sep a -> str_free sep b ->
  str_split sep (a +:+ String sep b) = [a; b].
Proof.
  intros Ha Hb. now rewrite str_split_app, (str_split_free _ a Ha), (str_split_free _ b Hb).
Qed.

(** ** [init_models_dict] *)

Section ModelsDictFacts.
Context {V : Type}.

Lemma models_invariant_loop (h0 : dict_store V) (todo done : list dataset)
    (models_dict : gmap string loc) (h : dict_store V) :
  models_invariant h0 done models_dict h ->
  models_invariant h0 (done ++ todo)
    (fst (fold_left
            (fun '(models_dict, h) model =>
               let copy := default ∅ (h !! length h0) in
               (<[model_name model := length h]> models_dict, h ++ [copy]))
            todo (models_dict, h)))
    (snd (fold_left
            (fun '(models_dict, h) model =>
               let copy := default ∅ (h !! length h0) in
               (<[model_name model := length h]> models_dict, h ++ [copy]))
            todo (models_dict, h))).
Proof.
  revert done models_dict h.
  induction todo as [|model todo IH]; intros done models_dict h Hinv.
  - cbn. now rewrite app_nil_r.
  - cbn [fold_left].
    replace (done ++ model :: todo) with ((done ++ [model]) ++ todo)
      by now rewrite <- app_assoc.
    apply IH. destruct Hinv as [Hstore Hkeys Hfresh Hsep].
    assert (Hcopy : default ∅ (h !! length h0) = content).
    { rewrite Hstore, lookup_app_r by lia. now rewrite Nat.sub_diag. }
    cbv zeta. rewrite Hcopy. split.
    + rewrite Hstore, length_app. cbn [length].
      rewrite <- app_assoc. cbn [app]. do 2 f_equal.
      replace (length done + 1) with (S (length done)) by lia.
      now rewrite replicate_S_end.
    + intros k. rewrite map_app, elem_of_app. cbn [map].
      rewrite list_elem_of_singleton, <- Hkeys.
      destruct (decide (model_name model = k)) as [<-|Hk].
      * rewrite lookup_insert_eq. split; [now right | eauto].
      * rewrite lookup_insert_ne by assumption.
        split; [now left | intros [?|?]; [assumption | congruence]].
    + intros k l. rewrite length_app. cbn [length].
      destruct (decide (model_name model = k)) as [<-|Hk].
      * rewrite lookup_insert_eq. intros [= <-].
        rewrite Hstore, length_app. cbn [length]. lia.
      * rewrite lookup_insert_ne by assumption. intros Hl.
        apply Hfresh in Hl. lia.
    + intros k1 k2 l.
      destruct (decide (model_name model = k1)) as [<-|Hk1];
        destruct (decide (model_name model = k2)) as [<-|Hk2].
      * reflexivity.
      * rewrite lookup_insert_eq, lookup_insert_ne by assumption.
        intros [= <-] Hl. apply Hfresh in Hl. lia.
      * rewrite lookup_insert_eq, lookup_insert_ne by assumption.
        intros Hl [= <-]. apply Hfresh in Hl. lia.
      * rewrite !lookup_insert_ne by assumption. apply Hsep.
Qed.

Lemma init_models_dict_invariant (cordex_datasets : list dataset) (h : dict_store V) :
  models_invariant h cordex_datasets
    (fst (init_models_dict cordex_datasets h))
    (snd (init_models_dict cordex_datasets h)).
Proof.
  unfold init_models_dict. cbv zeta.
  apply (models_invariant_loop h cordex_datasets [] ∅ (h ++ [content])).
  split.
  - reflexivity.
  - intros k. rewrite lookup_empty. cbn. rewrite elem_of_nil.
    split; [intros [? ?]; discriminate | tauto].
  - intros k l. now rewrite lookup_empty.
  - intros k1 k2 l. now rewrite lookup_empty.
Qed.

Lemma lookup_copy (h0 : dict_store V) (n l : nat) :
  length h0 < l < length (h0 ++ content :: replicate n (content)) ->
  (h0 ++ content :: replicate n (content)) !! l = Some (content).
Proof.
  rewrite length_app. cbn [length]. rewrite length_replicate. intros Hl.
  rewrite lookup_app_r by lia.
  destruct (l - length h0) as [|i] eqn:E; [lia|]. cbn.
  apply lookup_replicate_2. lia.
Qed.

End ModelsDictFacts.

(** Names *)

Lemma str_free_split3 (a b c : string) :
  str_free "_" a -> str_free "_" b -> str_free "_" c ->
  str_split "_" (a +:+ "_" +:+ b +:+ "_" +:+ c) = [a; b; c].
Proof.
  intros Ha Hb Hc.
  change ("_" +:+ b +:+ "_" +:+ c) with (String "_" (b +:+ String "_" c)).
  rewrite !str_split_app.
  now rewrite (str_split_free _ a Ha), (str_split_free _ b Hb), (str_split_free _ c Hc).
Qed.

Lemma model_name_inj (m1 m2 : dataset) :
  plain_attributes m1 -> plain_attributes m2 ->
  model_name m1 = model_name m2 -> m1 = m2.
Proof.
  intros (Ha1 & Hb1 & Hc1) (Ha2 & Hb2 & Hc2) Hname.
  apply (f_equal (str_split "_")) in Hname. unfold model_name in Hname.
  rewrite !str_free_split3 in Hname by assumption.
  destruct m1, m2. cbn in *. congruence.
Qed.

(** * The extras *)

Lemma list_sum_cons (x : nat) (l : list nat) : list_sum (x :: l) = x + list_sum l.
Proof. reflexivity. Qed.

Lemma list_sum_snoc (l : list nat) (x : nat) : list_sum (l ++ [x]) = list_sum l + x.
Proof. rewrite list_sum_app. cbn. lia. Qed.

Lemma list_sum_indicator (k n : nat) :
  k < n ->
  list_sum (map (fun c => if decide (k = c) then 1 else 0) (seq 0 n)) = 1.
Proof.
  intros Hk. induction n as [|n IH]; [lia|].
  rewrite seq_S, map_app. cbn [map]. rewrite list_sum_snoc. cbn [Nat.add].
  destruct (decide (k = n)) as [->|Hn].
  - assert (Hz : forall m, m <= n ->
              list_sum (map (fun c => if decide (n = c) then 1 else 0) (seq 0 m)) = 0).
    { induction m as [|m IHm]; intros Hm; [reflexivity|].
      rewrite seq_S, map_app. cbn [map]. rewrite list_sum_snoc. cbn [Nat.add].
      rewrite IHm by lia. rewrite decide_False by lia. reflexivity. }
    rewrite Hz by lia. reflexivity.
  - rewrite IH by lia. lia.
Qed.

Lemma list_sum_filter_classes {A : Type} (f : A -> nat) (l : list A) (n : nat) :
  Forall (fun x => f x < n) l ->
  list_sum (map (fun c => length (filter (fun x => f x = c) l)) (seq 0 n)) = length l.
Proof.
  induction 1 as [|x l Hx _ IH]; cbn [length].
  - induction (seq 0 n) as [|c cs IHc]; [reflexivity|]. cbn [map]. rewrite list_sum_cons, IHc. reflexivity.
  - assert (Hsplit : forall cs,
              list_sum (map (fun c => length (filter (fun y => f y = c) (x :: l))) cs) =
              list_sum (map (fun c => if decide (f x = c) then 1 else 0) cs) +
              list_sum (map (fun c => length (filter (fun y => f y = c) l)) cs)).
    { induction cs as [|c cs IHc]; [reflexivity|].
      cbn [map]. rewrite !list_sum_cons, IHc, filter_cons.
      destruct (decide (f x = c)); cbn [length]; lia. }
    rewrite Hsplit, (list_sum_indicator (f x) n Hx), IH. reflexivity.
Qed.

Lemma group_length (c : nat) (primary : list string) (listings : list (list string)) :
  length (default [] (group c primary listings)) =
  length (filter (fun p => length (holding p listings) = c) primary).
Proof.
  unfold group. destruct (filter _ primary) as [|q g]; [reflexivity|].
  cbn. now rewrite length_map.
Qed.

Section ComplementaryExtras.
Variable fs : directory_listing.

(** X1. When the folder of the primary variable and those of the
    complementary variables can be listed, the call returns a dict in which
    key [c] holds the primary folders (reduced to their inner fields) that
    exactly [c] complementary listings hold, in the order of the primary
    listing, each with the names reported for it; a key with no such
    folder is absent. *)
Theorem available_complementary_variables_groups
    (root_path experiment_category primary_variable : string)
    (complementary_variables : list string)
    (primary : list string) (listings : list (list string)) :
  listdir_folders fs (os_path_join root_path [experiment_category; primary_variable])
    = inr primary ->
  Forall2 (fun v folders =>
             listdir_folders fs (os_path_join root_path [experiment_category; v])
               = inr folders)
          complementary_variables listings ->
  exists d,
    available_complementary_variables fs root_path experiment_category primary_variable
      complementary_variables = inr d /\
    forall c, d !! c = group c (map inner_fields primary) listings.
Proof.
  intros Hprimary Hlistings.
  destruct (available_complementary_variables_run fs root_path experiment_category
              primary_variable complementary_variables primary listings
              Hprimary Hlistings) as (d & Hrun & Hd).
  exists d. split; [exact Hrun | exact Hd].
Qed.

(** X2. The call raises nothing of its own: it returns exactly when
    [os.listdir] answers for the folder of the primary variable and for
    that of each complementary variable, and otherwise raises the
    [OSError] that [os.listdir] raised for one of them. *)
Theorem available_complementary_variables_only_listdir_errors
    (root_path experiment_category primary_variable : string)
    (complementary_variables : list string) :
  match available_complementary_variables fs root_path experiment_category
          primary_variable complementary_variables with
  | inr _ =>
      Forall (fun v => exists names,
                os_listdir fs (os_path_join root_path [experiment_category; v])
                  = inr names)
             (primary_variable :: complementary_variables)
  | inl e =>
      exists v k, v ∈ primary_variable :: complementary_variables /\
        os_listdir fs (os_path_join root_path [experiment_category; v]) = inl k /\
        e = OSError k
  end.
Proof.
  pose proof (available_complementary_variables_inv fs root_path experiment_category
                primary_variable complementary_variables) as Hinv.
  destruct (available_complementary_variables fs root_path experiment_category
              primary_variable complementary_variables) as [e|d]; [exact Hinv|].
  destruct Hinv as (primary & listings & Hprimary & Hlistings & _).
  constructor.
  - pose proof (listdir_folders_inv fs
                  (os_path_join root_path [experiment_category; primary_variable])) as Hp.
    now rewrite Hprimary in Hp.
  - clear Hprimary. induction Hlistings as [|v folders vs fs' Hv _ IH]; constructor.
    + pose proof (listdir_folders_inv fs
                    (os_path_join root_path [experiment_category; v])) as Hp.
      now rewrite Hv in Hp.
    + exact IH.
Qed.

(** X3. In the dict returned, no key holds an empty list, no key exceeds
    the number of complementary variables, and every entry under key [c]
    carries exactly [c] names. *)
Theorem available_complementary_variables_counts
    (root_path experiment_category primary_variable : string)
    (complementary_variables : list string) :
  match available_complementary_variables fs root_path experiment_category
          primary_variable complementary_variables with
  | inr d =>
      forall c entries, d !! c = Some entries ->
        entries <> [] /\ c <= length complementary_variables /\
        Forall (fun entry => length (snd entry) = c) entries
  | inl _ => True
  end.
Proof.
  pose proof (available_complementary_variables_inv fs root_path experiment_category
                primary_variable complementary_variables) as Hinv.
  destruct (available_complementary_variables fs root_path experiment_category
              primary_variable complementary_variables) as [e|d]; [exact I|].
  destruct Hinv as (primary & listings & _ & Hlistings & Hd).
  intros c entries Hc. rewrite Hd in Hc.
  apply group_inv in Hc as [Hne ->]. split; [exact Hne|].
  assert (Hall : Forall (fun p => length (holding p listings) = c)
                   (filter (fun p => length (holding p listings) = c)
                           (map inner_fields primary))).
  { apply Forall_forall. intros p Hp. now apply list_elem_of_filter in Hp as [Hp _]. }
  split.
  - destruct (filter _ (map inner_fields primary)) as [|p g] eqn:E; [now cbn in Hne|].
    apply Forall_cons in Hall as [<- _].
    rewrite (Forall2_length _ _ _ Hlistings). apply holding_length.
  - apply Forall_fmap. eapply Forall_impl; [exact Hall|].
    intros p Hp. cbn. unfold reported_names. now rewrite length_map.
Qed.

(** X4. Every folder of the primary listing is kept, once: the lists under
    the keys 0 .. len(complementary_variables) have together as many
    entries as the primary listing has folders. *)
Theorem available_complementary_variables_keeps_every_folder
    (root_path experiment_category primary_variable : string)
    (complementary_variables : list string) (primary : list string) :
  listdir_folders fs (os_path_join root_path [experiment_category; primary_variable])
    = inr primary ->
  match available_complementary_variables fs root_path experiment_category
          primary_variable complementary_variables with
  | inr d =>
      list_sum (map (fun c => length (default [] (d !! c)))
                    (seq 0 (S (length complementary_variables))))
      = length primary
  | inl _ => True
  end.
Proof.
  intros Hprimary.
  pose proof (available_complementary_variables_inv fs root_path experiment_category
                primary_variable complementary_variables) as Hinv.
  destruct (available_complementary_variables fs root_path experiment_category
              primary_variable complementary_variables) as [e|d]; [exact I|].
  destruct Hinv as (primary' & listings & Hprimary' & Hlistings & Hd).
  rewrite Hprimary in Hprimary'. injection Hprimary' as <-.
  rewrite (map_ext _ (fun c => length (filter (fun p => length (holding p listings) = c)
                                        (map inner_fields primary)))).
  - rewrite list_sum_filter_classes; [apply length_map|].
    apply Forall_forall. intros p _.
    rewrite (Forall2_length _ _ _ Hlistings).
    pose proof (holding_length p listings). lia.
  - intros c. rewrite Hd. apply group_length.
Qed.

End ComplementaryExtras.

(** X5. A folder name [variable_inner_frequency], whose first and last
    fields hold no ["_"], is reduced to [inner], whatever ["_"] the inner
    part holds. *)
Theorem inner_fields_drops_first_and_last (variable inner frequency : string) :
  str_free "_" variable -> str_free "_" frequency ->
  inner_fields (variable +:+ "_" +:+ inner +:+ "_" +:+ frequency) = inner.
Proof.
  intros Hv Ht. unfold inner_fields.
  change ("_" +:+ inner +:+ "_" +:+ frequency)
    with (String "_" (inner +:+ String "_" frequency)).
  rewrite !str_split_app, (str_split_free _ variable Hv), (str_split_free _ frequency Ht).
  cbn [app]. rewrite py_slice_inner. apply (str_join_split "_").
Qed.

Section ModelsDictExtras.
Context {V : Type}.

Lemma init_models_dict_has_key (cordex_datasets : list dataset) (h : dict_store V)
    (k : string) :
  is_Some (fst (init_models_dict cordex_datasets h) !! k)
  <-> k ∈ map model_name cordex_datasets.
Proof. apply (inv_keys _ _ _ _ (init_models_dict_invariant cordex_datasets h)). Qed.

(** X6. The keys of the dict returned are exactly the names
    [model_id_driving_model_id_CORDEX_domain] of the datasets given. *)
Theorem init_models_dict_keys (cordex_datasets : list dataset) (h : dict_store V) :
  dom (fst (init_models_dict cordex_datasets h))
  = (list_to_set (map model_name cordex_datasets) : gset string).
Proof.
  apply set_eq. intros k. rewrite elem_of_dom, elem_of_list_to_set.
  apply init_models_dict_has_key.
Qed.

(** X7. The call leaves the dict objects it found as they were, and every
    value of the dict returned is a dict object of its own, made by the
    call, that holds the ten keys of [content] with [None]: it is neither
    the template [content] nor the value of another key. *)
Theorem init_models_dict_entries_are_copies
    (cordex_datasets : list dataset) (h : dict_store V) :
  take (length h) (snd (init_models_dict cordex_datasets h)) = h /\
  forall k l, fst (init_models_dict cordex_datasets h) !! k = Some l ->
    length h < l /\
    snd (init_models_dict cordex_datasets h) !! l = Some content /\
    forall k', fst (init_models_dict cordex_datasets h) !! k' = Some l -> k' = k.
Proof.
  destruct (init_models_dict_invariant cordex_datasets h) as [Hstore Hkeys Hfresh Hsep].
  split.
  - rewrite Hstore. apply take_app_length.
  - intros k l Hl. pose proof (Hfresh k l Hl) as Hbounds. split; [lia|]. split.
    + rewrite Hstore in *. now apply lookup_copy.
    + intros k' Hl'. exact (Hsep k' k l Hl' Hl).
Qed.

(** X8. After the call, assigning to a key of one model's entry,
    [models_dict[name1][key] = value], changes that entry and leaves the
    entry of every other model as it was. *)
Theorem init_models_dict_entries_are_independent
    (cordex_datasets : list dataset) (h : dict_store V)
    (name1 name2 key : string) (value : option V) (l1 l2 : loc) :
  fst (init_models_dict cordex_datasets h) !! name1 = Some l1 ->
  fst (init_models_dict cordex_datasets h) !! name2 = Some l2 ->
  name1 <> name2 ->
  exists h',
    setitem_field (fst (init_models_dict cordex_datasets h)) name1 key value
      (snd (init_models_dict cordex_datasets h)) = inr h' /\
    h' !! l1 = Some (<[key := value]> content) /\
    h' !! l2 = Some content.
Proof.
  intros H1 H2 Hne.
  destruct (init_models_dict_invariant cordex_datasets h) as [Hstore Hkeys Hfresh Hsep].
  unfold setitem_field. rewrite H1. eexists. split; [reflexivity|].
  assert (Hl1 : snd (init_models_dict cordex_datasets h) !! l1 = Some content).
  { pose proof (Hfresh _ _ H1). rewrite Hstore in *. now apply lookup_copy. }
  assert (Hl2 : snd (init_models_dict cordex_datasets h) !! l2 = Some content).
  { pose proof (Hfresh _ _ H2). rewrite Hstore in *. now apply lookup_copy. }
  split.
  - unfold loc in *. rewrite list_lookup_alter, decide_True by reflexivity.
    rewrite Hl1. reflexivity.
  - unfold loc in *. rewrite list_lookup_alter_ne; [exact Hl2|].
    intros ->. apply Hne. exact (Hsep _ _ _ H1 H2).
Qed.

(** X9. Datasets whose attributes hold no ["_"] have different names
    unless they agree on all three attributes; so for such datasets, all
    different, the dict has one key for each. *)
Theorem init_models_dict_one_key_per_dataset
    (cordex_datasets : list dataset) (h : dict_store V) :
  Forall plain_attributes cordex_datasets -> NoDup cordex_datasets ->
  size (fst (init_models_dict cordex_datasets h)) = length cordex_datasets.
Proof.
  intros Hplain Hnodup.
  assert (Hdom : dom (fst (init_models_dict cordex_datasets h))
                 = (list_to_set (map model_name cordex_datasets) : gset string)).
  { apply set_eq. intros k. rewrite elem_of_dom, elem_of_list_to_set.
    apply init_models_dict_has_key. }
  rewrite <- size_dom, Hdom.
  rewrite size_list_to_set, length_map; [reflexivity|].
  apply NoDup_fmap_2_strong; [|exact Hnodup].
  intros m1 m2 Hm1 Hm2. rewrite Forall_forall in Hplain.
  apply model_name_inj; now apply Hplain.
Qed.

End ModelsDictExtras.

(** ** The extras on the samples *)

Lemma available_complementary_variables_groups_witness :
  exists d,
    available_complementary_variables sample_listing "data" "historical" "huss"
      ["tas"; "pr"] = inr d /\
    forall c, d !! c =
      group c (map inner_fields ["huss_EUR-11_ICHEC_RCA4_mon"; "huss_EUR-11_MPI_RCA4_mon"])
        [["tas_EUR-11_ICHEC_RCA4_mon"];
         ["pr_EUR-11_ICHEC_RCA4_mon"; "pr_EUR-11_MPI_RCA4_mon"]].
Proof.
  apply (available_complementary_variables_groups sample_listing
           "data" "historical" "huss" ["tas"; "pr"]).
  - reflexivity.
  - repeat constructor.
Defined.

Lemma available_complementary_variables_keeps_every_folder_witness :
  match available_complementary_variables sample_listing "data" "historical" "huss"
          ["tas"; "pr"] with
  | inr d =>
      list_sum (map (fun c => length (default [] (d !! c))) (seq 0 3)) = 2
  | inl _ => True
  end.
Proof.
  apply (available_complementary_variables_keeps_every_folder sample_listing
           "data" "historical" "huss" ["tas"; "pr"]
           ["huss_EUR-11_ICHEC_RCA4_mon"; "huss_EUR-11_MPI_RCA4_mon"]).
  reflexivity.
Defined.

Lemma inner_fields_drops_first_and_last_witness :
  inner_fields ("tas" +:+ "_" +:+ "EUR-11_ICHEC_RCA4" +:+ "_" +:+ "mon") = "EUR-11_ICHEC_RCA4".
Proof.
  apply inner_fields_drops_first_and_last; cbn; intuition discriminate.
Defined.

Lemma init_models_dict_entries_are_independent_witness :
  exists h' : dict_store nat,
    setitem_field (fst (init_models_dict sample_datasets ([] : dict_store nat)))
      "RCA4_ICHEC_EUR-11" "lat" (Some 7)
      (snd (init_models_dict sample_datasets [])) = inr h' /\
    h' !! 1 = Some (<["lat" := Some 7]> content) /\
    h' !! 2 = Some content.
Proof.
  apply (init_models_dict_entries_are_independent sample_datasets []
           "RCA4_ICHEC_EUR-11" "RCA4_MPI_EUR-11" "lat" (Some 7) 1 2).
  - reflexivity.
  - reflexivity.
  - discriminate.
Defined.

Lemma init_models_dict_one_key_per_dataset_witness :
  size (fst (init_models_dict sample_datasets ([] : dict_store nat))) = 2.
Proof.
  apply (init_models_dict_one_key_per_dataset sample_datasets []).
  - repeat constructor; cbn; intuition discriminate.
  - repeat constructor.
    + rewrite list_elem_of_singleton. discriminate.
    + apply not_elem_of_nil.
Defined.

(** ** What the loops of [monthly_anomaly_series] store *)

Section FitContents.
Context {F : Type} `{Scalar F}.
Variable lstsq : ndarray F -> ndarray F -> result (ndarray F).
Local Open Scope result_scope.

Lemma cell_index (t i j n1 n2 : nat) :
  i < n1 -> j < n2 ->
  ((t * n1 + i) * n2 + j) mod (n1 * n2) = i * n2 + j /\
  ((t * n1 + i) * n2 + j) / (n1 * n2) = t.
Proof.
  intros Hi Hj.
  assert (Hr : i * n2 + j < n1 * n2) by nia.
  replace ((t * n1 + i) * n2 + j) with (i * n2 + j + t * (n1 * n2)) by nia.
  split.
  - rewrite Nat.Div0.mod_add. apply Nat.mod_small. exact Hr.
  - rewrite Nat.div_add by lia. rewrite Nat.div_small by exact Hr. reflexivity.
Qed.

Lemma cell_index_inj (i j i' j' n2 : nat) :
  j < n2 -> j' < n2 -> (i' * n2 + j' =? i * n2 + j) = (i' =? i) && (j' =? j).
Proof.
  intros Hj Hj'.
  destruct (Nat.eqb_spec i' i) as [->|Hi]; destruct (Nat.eqb_spec j' j) as [->|Hjj]; cbn.
  - apply Nat.eqb_refl.
  - apply Nat.eqb_neq. lia.
  - apply Nat.eqb_neq. nia.
  - apply Nat.eqb_neq. nia.
Qed.

Lemma getitem_col3_bounds (m cell : ndarray F) (n0 n1 n2 i j : nat) :
  shape m = [n0; n1; n2] -> getitem_col3 m i j = ok cell -> i < n1 /\ j < n2.
Proof.
  intros Hm. unfold getitem_col3. rewrite Hm.
  destruct (i <? n1) eqn:Ei; destruct (j <? n2) eqn:Ej; cbn; try discriminate.
  intros _. split; apply Nat.ltb_lt; assumption.
Qed.

(** What [a[:, i, j] = out] changes in a field: the cell [(i, j)], and
    nothing else. *)
Lemma setitem_col3_item3 (a out a' : ndarray F) (l_lat l_lon i j : nat) :
  fit_field a l_lat l_lon -> shape out = [12] -> i < l_lat -> j < l_lon ->
  setitem_col3 a i j out = ok a' ->
  forall t i' j', t < 12 -> i' < l_lat -> j' < l_lon ->
    item3 a' t i' j' = if (i' =? i) && (j' =? j) then item out t else item3 a t i' j'.
Proof.
  intros [Ha _] Hout Hi Hj Hset t i' j' Ht Hi' Hj'.
  unfold setitem_col3 in Hset. rewrite Ha in Hset.
  replace ((i <? l_lat) && (j <? l_lon)) with true in Hset
    by (symmetry; apply andb_true_intro; split; apply Nat.ltb_lt; assumption).
  unfold broadcast_to_length in Hset. rewrite Hout in Hset.
  replace (12 =? 12) with true in Hset by reflexivity.
  unfold rbind, ok in Hset. injection Hset as <-.
  unfold item3. cbn [shape]. rewrite Ha.
  unfold item at 1. cbn [data].
  rewrite nth_map_seq by nia.
  destruct (cell_index t i' j' l_lat l_lon Hi' Hj') as [Hmod Hdiv].
  rewrite Hmod, Hdiv, (cell_index_inj i j i' j' l_lon Hj Hj').
  destruct ((i' =? i) && (j' =? j)); [|reflexivity].
  do 12 (destruct t as [|t]; [reflexivity|]). lia.
Qed.

Lemma fitted_cell_setitem (m a out a' cell : ndarray F) (l_lat l_lon i j : nat) :
  shape m = [12; l_lat; l_lon] ->
  fit_field a l_lat l_lon -> i < l_lat -> j < l_lon ->
  getitem_col3 m i j = ok cell -> regression_value lstsq cell = ok out ->
  shape out = [12] -> setitem_col3 a i j out = ok a' ->
  forall i' j',
    fitted_cell lstsq m a i' j' \/ (i' = i /\ j' = j) ->
    fitted_cell lstsq m a' i' j'.
Proof.
  intros Hm Ha Hi Hj Hcell Hreg Hout Hset i' j' [Hold|[-> ->]].
  - destruct Hold as (cell' & out' & Hcell' & Hreg' & Hout' & Hitems).
    destruct (getitem_col3_bounds m cell' 12 l_lat l_lon i' j' Hm Hcell') as [Hi' Hj'].
    exists cell', out'. split; [exact Hcell'|]. split; [exact Hreg'|].
    split; [exact Hout'|]. intros t Ht.
    rewrite (setitem_col3_item3 a out a' l_lat l_lon i j Ha Hout Hi Hj Hset t i' j' Ht Hi' Hj').
    destruct (Nat.eqb_spec i' i) as [->|Hne]; [|apply Hitems; exact Ht].
    destruct (Nat.eqb_spec j' j) as [->|Hne]; [|apply Hitems; exact Ht].
    cbn. rewrite Hcell in Hcell'. injection Hcell' as <-.
    rewrite Hreg in Hreg'. injection Hreg' as <-. reflexivity.
  - exists cell, out. split; [exact Hcell|]. split; [exact Hreg|].
    split; [exact Hout|]. intros t Ht.
    rewrite (setitem_col3_item3 a out a' l_lat l_lon i j Ha Hout Hi Hj Hset t i j Ht Hi Hj).
    now rewrite !Nat.eqb_refl.
Qed.

(** The inner loop of lines 69-71, with what it stores. *)
Lemma inner_loop_cells (h : heap F) (m : ndarray F) (l_lat l_lon j : nat) (xs : list nat) :
  solver_total lstsq -> shape m = [12; l_lat; l_lon] -> j < l_lon ->
  Forall (fun i => i < l_lat) xs ->
  forall a junk (done : nat -> nat -> Prop), fit_field a l_lat l_lon ->
  (forall i' j', done i' j' -> fitted_cell lstsq m a i' j') ->
  exists a' junk',
    for_each xs (fun i =>
        bind (getitem_col (Arr (length h + 0)) i j) (fun cell =>
        bind (monthly_regression lstsq cell) (fun fit =>
        setitem_cell (length h + 1) i j (Arr fit))))
      (h ++ m :: a :: junk) = (ok tt, h ++ m :: a' :: junk') /\
    fit_field a' l_lat l_lon /\
    forall i' j', done i' j' \/ (j' = j /\ i' ∈ xs) -> fitted_cell lstsq m a' i' j'.
Proof.
  intros Hsolver Hm Hj Hxs.
  induction Hxs as [|i xs Hi Hxs IH]; intros a junk done Ha Hdone.
  - exists a, junk. split; [reflexivity|]. split; [exact Ha|].
    intros i' j' [Hd|[_ Hin]]; [now apply Hdone | now apply elem_of_nil in Hin].
  - destruct (regression_value_cell lstsq m l_lat l_lon i j Hsolver Hm Hi Hj)
      as (cell & out & Hcell & Hout & Hshape).
    destruct (setitem_col3_fit_field a out l_lat l_lon i j Ha Hshape Hi Hj)
      as (a' & Hset & Ha').
    assert (Hview : view (h ++ m :: a :: junk) (Col3 i j (Arr (length h + 0))) = Some cell).
    { cbn [view]. rewrite lookup_app_r by lia.
      replace (length h + 0 - length h) with 0 by lia. cbn. rewrite Hcell. reflexivity. }
    destruct (monthly_regression_run_fresh lstsq h (m :: a :: junk) _ cell Hview)
      as (news & Hrun & Hnews).
    rewrite Hout in Hrun. specialize (Hnews out Hout).
    destruct (IH a' (junk ++ news) (fun i' j' => done i' j' \/ (i' = i /\ j' = j)) Ha')
      as (a'' & junk'' & Hloop & Ha'' & Hcells).
    { intros i' j' Hd.
      apply (fitted_cell_setitem m a out a' cell l_lat l_lon i j
               Hm Ha Hi Hj Hcell Hout Hshape Hset).
      destruct Hd as [Hd|Hd]; [left; now apply Hdone | right; exact Hd]. }
    exists a'', junk''. split; [|split; [exact Ha''|]].
    + cbn [for_each]. rewrite run_bind.
      rewrite run_bind, (getitem_col_run (h ++ m :: a :: junk) (Arr (length h + 0)) i j m)
        by fresh_view.
      rewrite Hcell. cbv beta iota delta [ok].
      rewrite run_bind, Hrun. cbv beta iota delta [ok].
      rewrite (setitem_cell_run h ((m :: a :: junk) ++ news) 1 i j _ a out).
      * rewrite Hset. cbn [app insert list_insert]. exact Hloop.
      * reflexivity.
      * apply view_fresh. rewrite lookup_app_r by lia.
        replace (length (m :: a :: junk) + 15 - length (m :: a :: junk)) with 15 by lia.
        exact Hnews.
    + intros i' j' [Hd|[-> Hin]].
      * apply Hcells. left. left. exact Hd.
      * apply elem_of_cons in Hin as [->|Hin].
        -- apply Hcells. left. right. split; reflexivity.
        -- apply Hcells. right. split; [reflexivity | exact Hin].
Qed.

(** The two nested loops of lines 68-71, with what they store. *)
Lemma outer_loop_cells (h : heap F) (lat : ref) (A m : ndarray F) (l_lat l_lon : nat)
    (ys : list nat) :
  solver_total lstsq -> view h lat = Some A -> len A = ok l_lat ->
  shape m = [12; l_lat; l_lon] ->
  Forall (fun j => j < l_lon) ys ->
  forall a junk (done : nat -> nat -> Prop), fit_field a l_lat l_lon ->
  (forall i' j', done i' j' -> fitted_cell lstsq m a i' j') ->
  exists a' junk',
    for_each ys (fun j =>
        bind (py_len lat) (fun n_lat =>
        for_each (range n_lat) (fun i =>
          bind (getitem_col (Arr (length h + 0)) i j) (fun cell =>
          bind (monthly_regression lstsq cell) (fun fit =>
          setitem_cell (length h + 1) i j (Arr fit))))))
      (h ++ m :: a :: junk) = (ok tt, h ++ m :: a' :: junk') /\
    fit_field a' l_lat l_lon /\
    forall i' j', done i' j' \/ (j' ∈ ys /\ i' < l_lat) -> fitted_cell lstsq m a' i' j'.
Proof.
  intros Hsolver Hlat HA Hm Hys.
  induction Hys as [|j ys Hj Hys IH]; intros a junk done Ha Hdone.
  - exists a, junk. split; [reflexivity|]. split; [exact Ha|].
    intros i' j' [Hd|[Hin _]]; [now apply Hdone | now apply elem_of_nil in Hin].
  - destruct (inner_loop_cells h m l_lat l_lon j (range l_lat) Hsolver Hm Hj
                (range_lt l_lat) a junk done Ha Hdone)
      as (a1 & junk1 & Hinner & Ha1 & Hcells1).
    destruct (IH a1 junk1 (fun i' j' => done i' j' \/ (j' = j /\ i' ∈ range l_lat))
                Ha1 Hcells1) as (a2 & junk2 & Hrest & Ha2 & Hcells2).
    exists a2, junk2. split; [|split; [exact Ha2|]].
    + cbn [for_each]. rewrite run_bind.
      rewrite run_bind, (py_len_run _ _ _ (view_app h _ _ _ Hlat)), HA.
      cbv beta iota delta [ok]. rewrite Hinner. exact Hrest.
    + intros i' j' [Hd|[Hin Hi']].
      * apply Hcells2. left. left. exact Hd.
      * apply elem_of_cons in Hin as [->|Hin].
        -- apply Hcells2. left. right. split; [reflexivity|].
           apply elem_of_seq. lia.
        -- apply Hcells2. right. split; assumption.
Qed.

Lemma nth_concat_replicate (n : nat) (l : list F) (k : nat) (d : F) :
  k < n * length l ->
  nth k (concat (replicate n l)) d = nth (k mod length l) l d.
Proof.
  revert k. induction n as [|n IH]; intros k Hk; [lia|].
  cbn [replicate concat].
  destruct (Nat.lt_ge_cases k (length l)) as [Hlt|Hge].
  - rewrite app_nth1 by exact Hlt. now rewrite Nat.mod_small.
  - rewrite app_nth2 by exact Hge. rewrite IH by lia.
    f_equal. replace k with (k - length l + 1 * length l) at 2 by lia.
    now rewrite Nat.Div0.mod_add.
Qed.

Lemma tiled_index (t i j n1 n2 : nat) :
  i < n1 -> j < n2 ->
  ((t * n1 + i) * n2 + j) mod (12 * (n1 * n2)) = (t mod 12 * n1 + i) * n2 + j.
Proof.
  intros Hi Hj.
  pose proof (Nat.div_mod_eq t 12) as Ht.
  pose proof (Nat.mod_upper_bound t 12 ltac:(lia)) as Hr.
  set (q := t / 12) in *. set (r := t mod 12) in *.
  replace ((t * n1 + i) * n2 + j)
    with ((r * n1 + i) * n2 + j + q * (12 * (n1 * n2))) by nia.
  rewrite Nat.Div0.mod_add. apply Nat.mod_small. nia.
Qed.

(** A tiled field repeats the field: time step [t] holds what the field
    holds at [t mod 12]. *)
Lemma tile_item3 (a fit : ndarray F) (l_lat l_lon reps t i j : nat) :
  fit_field a l_lat l_lon -> tile_axis0 a reps = ok fit ->
  t < reps * 12 -> i < l_lat -> j < l_lon ->
  item3 fit t i j = item3 a (t mod 12) i j.
Proof.
  intros [Ha Hla] Htile Ht Hi Hj. unfold tile_axis0 in Htile. rewrite Ha in Htile.
  unfold ok in Htile. injection Htile as <-.
  unfold item3. cbn [shape]. rewrite Ha. unfold item. cbn [data].
  rewrite nth_concat_replicate by (rewrite Hla; nia).
  rewrite Hla, tiled_index by assumption. reflexivity.
Qed.

End FitContents.

(** ** The fitted field that [monthly_anomaly_series] returns *)

Section FittedField.
Context {F : Type} `{Scalar F}.
Variable lstsq : ndarray F -> ndarray F -> result (ndarray F).
Local Open Scope result_scope.

(** A call of [monthly_anomaly_series] on a grid for which the reshape in
    [monthly_mean] is accepted, with the items of the fitted field. *)
Lemma monthly_anomaly_series_run_cells (h : heap F) (ts lat lon : ref) (X A B : ndarray F)
    (T n_lat n_lon l_lat l_lon : nat) :
  solver_total lstsq ->
  view h ts = Some X -> view h lat = Some A -> view h lon = Some B ->
  shape X = [T; n_lat; n_lon] -> len A = ok l_lat -> len B = ok l_lon ->
  let size := complete_size T n_lat n_lon in
  let group := group_size l_lat l_lon in
  (group =? 0) || negb (size mod group =? 0) = false ->
  exists news fit l_anom l_fit,
    shape fit = [T / 12 * 12; l_lat; l_lon] /\
    monthly_anomaly_series lstsq ts lat lon h =
      (match subtract X fit with
       | inl e => inl e
       | inr _ => ok (l_anom, l_fit, length h)
       end, h ++ news) /\
    (h ++ news) !! length h = Some (grouped_mean X size group l_lat l_lon) /\
    (h ++ news) !! l_fit = Some fit /\
    (forall d, subtract X fit = ok d -> (h ++ news) !! l_anom = Some d) /\
    forall i j, i < l_lat -> j < l_lon ->
      exists cell out,
        getitem_col3 (grouped_mean X size group l_lat l_lon) i j = ok cell /\
        regression_value lstsq cell = ok out /\
        forall t, t < T / 12 * 12 -> item3 fit t i j = item out (t mod 12).
Proof.
  intros Hsolver HX HA HB HsX HlA HlB size group Hcond.
  pose proof (monthly_mean_value_grid X A B T n_lat n_lon l_lat l_lon HsX HlA HlB)
    as Hmean.
  cbv zeta in Hmean. fold size group in Hmean. rewrite Hcond in Hmean.
  set (gm := grouped_mean X size group l_lat l_lon) in *.
  destruct (outer_loop_cells lstsq h lat A gm l_lat l_lon (range l_lon) Hsolver HA HlA
              eq_refl (range_lt l_lon) (zeros [12; l_lat; l_lon]) []
              (fun _ _ => False) (zeros_fit_field l_lat l_lon))
    as (a' & junk' & Hloop & Hfield & Hcells); [intros i' j' []|].
  pose proof Hfield as (Hsa & Hla).
  set (fit := {| shape := [T / 12 * 12; l_lat; l_lon];
                 data := concat (replicate (T / 12) (data a')) |}).
  assert (Htile : tile_axis0 a' (T / 12) = ok fit).
  { unfold tile_axis0. rewrite Hsa. reflexivity. }
  assert (Hrun : monthly_anomaly_series lstsq ts lat lon (h ++ []) =
            match subtract X fit with
            | inl e => (inl e, h ++ (gm :: a' :: junk' ++ [fit]))
            | inr d => (ok (length h + S (length (gm :: a' :: junk')),
                            length h + length (gm :: a' :: junk'), length h + 0),
                        h ++ ((gm :: a' :: junk' ++ [fit]) ++ [d]))
            end).
  { unfold monthly_anomaly_series.
    py_step (ndarray_shape_run _ _ _ (view_app h [] _ _ HX)).
    py_step getitem_tuple_run. rewrite HsX. cbn [tuple_get lookup list_lookup].
    cbv beta iota zeta delta [ok].
    rewrite run_bind, (monthly_mean_run_fresh h [] ts lat lon X A B)
      by (apply view_app; assumption).
    rewrite Hmean. cbv beta iota delta [ok]. cbn [app length].
    rewrite run_bind, (ndarray_shape_run _ (Arr (length h + 0)) gm) by fresh_view.
    cbv beta iota delta [ok]. cbn [shape gm grouped_mean].
    py_step np_zeros_run. cbn [app length].
    rewrite run_bind, (py_len_run _ _ _ (view_app h _ _ _ HB)), HlB.
    cbv beta iota delta [ok].
    rewrite run_bind, Hloop. cbv beta iota delta [ok].
    rewrite run_bind, (np_tile_run h (gm :: a' :: junk') (Arr (length h + 1)) (T / 12) a')
      by fresh_view.
    rewrite Htile. cbv beta iota delta [ok].
    rewrite run_bind, (ndarray_sub_run h _ ts (Arr (length h + length (gm :: a' :: junk'))) X fit).
    - destruct (subtract X fit) as [e|d]; [reflexivity|].
      cbv beta iota delta [ok]. unfold ret. rewrite length_app. cbn [length].
      repeat f_equal. lia.
    - apply view_app. exact HX.
    - apply view_fresh. rewrite lookup_app_r by lia. rewrite Nat.sub_diag. reflexivity. }
  rewrite app_nil_r, Nat.add_0_r in Hrun.
  assert (Hitems : forall i j, i < l_lat -> j < l_lon ->
            exists cell out,
              getitem_col3 gm i j = ok cell /\ regression_value lstsq cell = ok out /\
              forall t, t < T / 12 * 12 -> item3 fit t i j = item out (t mod 12)).
  { intros i j Hi Hj.
    destruct (Hcells i j) as (cell & out & Hcell & Hout & _ & Hcycle).
    { right. split; [apply elem_of_seq; lia | exact Hi]. }
    exists cell, out. split; [exact Hcell|]. split; [exact Hout|].
    intros t Ht.
    rewrite (tile_item3 a' fit l_lat l_lon (T / 12) t i j Hfield Htile Ht Hi Hj).
    apply Hcycle. apply Nat.mod_upper_bound. lia. }
  destruct (subtract X fit) as [e|d] eqn:Hsub.
  - exists (gm :: a' :: junk' ++ [fit]), fit, 0, (length h + length (gm :: a' :: junk')).
    split; [reflexivity|].
    split; [rewrite Hsub; exact Hrun|].
    split; [|split; [|split; [|exact Hitems]]].
    + rewrite lookup_app_r by lia. rewrite Nat.sub_diag. reflexivity.
    + rewrite lookup_app_r by lia.
      replace (length h + length (gm :: a' :: junk') - length h)
        with (length (gm :: a' :: junk')) by lia.
      change (gm :: a' :: junk' ++ [fit]) with ((gm :: a' :: junk') ++ [fit]).
      rewrite lookup_app_r by lia. rewrite Nat.sub_diag. reflexivity.
    + intros d0 Hd. rewrite Hsub in Hd. discriminate Hd.
  - exists ((gm :: a' :: junk' ++ [fit]) ++ [d]), fit,
      (length h + S (length (gm :: a' :: junk'))), (length h + length (gm :: a' :: junk')).
    split; [reflexivity|].
    split; [rewrite Hsub; exact Hrun|].
    split; [|split; [|split; [|exact Hitems]]].
    + rewrite lookup_app_r by lia. rewrite Nat.sub_diag. reflexivity.
    + rewrite lookup_app_r by lia.
      replace (length h + length (gm :: a' :: junk') - length h)
        with (length (gm :: a' :: junk')) by lia.
      change (gm :: a' :: junk' ++ [fit]) with ((gm :: a' :: junk') ++ [fit]).
      rewrite <- app_assoc.
      rewrite lookup_app_r by lia. rewrite Nat.sub_diag. reflexivity.
    + intros d0 Hd. rewrite Hsub in Hd. injection Hd as <-.
      rewrite lookup_app_r by lia.
      replace (length h + S (length (gm :: a' :: junk')) - length h)
        with (length (gm :: a' :: junk' ++ [fit])) by (cbn [length]; rewrite length_app; cbn [length]; lia).
      rewrite lookup_app_r by lia. rewrite Nat.sub_diag. reflexivity.
Qed.

(** Subtraction of an empty time axis from a single time step gives an
    empty array: extent 1 is broadcast to extent 0. *)
Lemma subtract_one_step_empty (x y : ndarray F) (a b : nat) :
  shape x = [1; a; b] -> shape y = [0; a; b] ->
  subtract x y = ok {| shape := [0; a; b]; data := [] |}.
Proof.
  intros Hx Hy. unfold subtract. rewrite Hx, Hy. cbn [rev app broadcast_rev].
  rewrite !Nat.eqb_refl. cbn [option_map Nat.eqb broadcast_rev].
  unfold ok. do 2 f_equal.
  unfold shape_size. cbn [fold_right]. replace (b * (a * (0 * 1))) with 0 by lia.
  reflexivity.
Qed.

End FittedField.

Section FittedFieldExtras.
Context {F : Type} `{Scalar F}.
Variable lstsq : ndarray F -> ndarray F -> result (ndarray F).
Local Open Scope result_scope.

(** X10. On a grid of whole years with matching coordinate arrays, the
    fitted field returned holds at every cell [(i, j)] and every time
    step [t] the value that [monthly_regression] fits, for month
    [t mod 12], to the twelve monthly means of that cell alone. *)
Theorem monthly_anomaly_series_fits_each_cell (h : heap F) (ts lat lon : ref)
    (X A B : ndarray F) (T n_lat n_lon : nat) :
  solver_total lstsq ->
  view h ts = Some X -> view h lat = Some A -> view h lon = Some B ->
  shape X = [T; n_lat; n_lon] -> len A = ok n_lat -> len B = ok n_lon ->
  T mod 12 = 0 -> 0 < n_lat -> 0 < n_lon ->
  exists (news : heap F) (l_anom l_fit : loc) (fit mean : ndarray F),
    monthly_anomaly_series lstsq ts lat lon h =
      (ok (l_anom, l_fit, length h), h ++ news) /\
    (h ++ news) !! l_fit = Some fit /\
    (h ++ news) !! length h = Some mean /\
    forall i j, i < n_lat -> j < n_lon ->
      exists cell out,
        getitem_col3 mean i j = ok cell /\
        regression_value lstsq cell = ok out /\
        forall t, t < T -> item3 fit t i j = item out (t mod 12).
Proof.
  intros Hsolver HX HA HB HsX HlA HlB HT Hlat Hlon.
  destruct (complete_size_matching T n_lat n_lon Hlat Hlon) as (Hcond & _ & _).
  destruct (monthly_anomaly_series_run_cells lstsq h ts lat lon X A B T n_lat n_lon
              n_lat n_lon Hsolver HX HA HB HsX HlA HlB Hcond)
    as (news & fit & l_anom & l_fit & Hsf & Hrun & Hmean & Hfit & _ & Hcells).
  assert (HTT : T / 12 * 12 = T).
  { pose proof (Nat.div_mod_eq T 12). lia. }
  rewrite HTT in Hsf, Hcells.
  rewrite (subtract_same_shape X fit T n_lat n_lon HsX Hsf) in Hrun.
  eexists news, l_anom, l_fit, fit, _.
  split; [exact Hrun|]. split; [exact Hfit|]. split; [exact Hmean|exact Hcells].
Qed.

(** X11. On a grid of whole years with matching coordinate arrays, the
    fitted field returned repeats every twelve time steps. *)
Theorem monthly_anomaly_series_fit_repeats_yearly (h : heap F) (ts lat lon : ref)
    (X A B : ndarray F) (T n_lat n_lon : nat) :
  solver_total lstsq ->
  view h ts = Some X -> view h lat = Some A -> view h lon = Some B ->
  shape X = [T; n_lat; n_lon] -> len A = ok n_lat -> len B = ok n_lon ->
  T mod 12 = 0 -> 0 < n_lat -> 0 < n_lon ->
  exists (news : heap F) (l_anom l_fit : loc) (fit : ndarray F),
    monthly_anomaly_series lstsq ts lat lon h =
      (ok (l_anom, l_fit, length h), h ++ news) /\
    (h ++ news) !! l_fit = Some fit /\
    shape fit = [T; n_lat; n_lon] /\
    forall t i j, t + 12 < T -> i < n_lat -> j < n_lon ->
      item3 fit (t + 12) i j = item3 fit t i j.
Proof.
  intros Hsolver HX HA HB HsX HlA HlB HT Hlat Hlon.
  destruct (complete_size_matching T n_lat n_lon Hlat Hlon) as (Hcond & _ & _).
  destruct (monthly_anomaly_series_run_cells lstsq h ts lat lon X A B T n_lat n_lon
              n_lat n_lon Hsolver HX HA HB HsX HlA HlB Hcond)
    as (news & fit & l_anom & l_fit & Hsf & Hrun & _ & Hfit & _ & Hcells).
  assert (HTT : T / 12 * 12 = T).
  { pose proof (Nat.div_mod_eq T 12). lia. }
  rewrite HTT in Hsf, Hcells.
  rewrite (subtract_same_shape X fit T n_lat n_lon HsX Hsf) in Hrun.
  exists news, l_anom, l_fit, fit.
  split; [exact Hrun|]. split; [exact Hfit|]. split; [exact Hsf|].
  intros t i j Ht Hi Hj.
  destruct (Hcells i j Hi Hj) as (cell & out & _ & _ & Hitems).
  rewrite !Hitems by lia.
  replace (t + 12) with (t + 1 * 12) by lia. now rewrite Nat.Div0.mod_add.
Qed.

(** X12. With matching coordinate arrays, [monthly_anomaly_series]
    returns exactly for a number of time steps that is a multiple of 12
    or is 1; for one time step what it returns as anomalies is empty, and
    for every other number the subtraction of line 74 raises. *)
Theorem monthly_anomaly_series_returns_for_whole_years (h : heap F) (ts lat lon : ref)
    (X A B : ndarray F) (T n_lat n_lon : nat) :
  solver_total lstsq ->
  view h ts = Some X -> view h lat = Some A -> view h lon = Some B ->
  shape X = [T; n_lat; n_lon] -> len A = ok n_lat -> len B = ok n_lon ->
  0 < n_lat -> 0 < n_lon ->
  (T mod 12 = 0 -> is_ok (fst (monthly_anomaly_series lstsq ts lat lon h)) = true) /\
  (T = 1 ->
     exists (news : heap F) (l_anom l_fit : loc),
       monthly_anomaly_series lstsq ts lat lon h =
         (ok (l_anom, l_fit, length h), h ++ news) /\
       (h ++ news) !! l_anom = Some {| shape := [0; n_lat; n_lon]; data := [] |}) /\
  (T mod 12 <> 0 -> T <> 1 ->
     fst (monthly_anomaly_series lstsq ts lat lon h) =
       raise (ValueError "operands could not be broadcast together")).
Proof.
  intros Hsolver HX HA HB HsX HlA HlB Hlat Hlon.
  destruct (complete_size_matching T n_lat n_lon Hlat Hlon) as (Hcond & _ & _).
  destruct (monthly_anomaly_series_run_cells lstsq h ts lat lon X A B T n_lat n_lon
              n_lat n_lon Hsolver HX HA HB HsX HlA HlB Hcond)
    as (news & fit & l_anom & l_fit & Hsf & Hrun & _ & _ & Hanom & _).
  pose proof (Nat.div_mod_eq T 12) as Hdiv.
  pose proof (Nat.mod_upper_bound T 12 ltac:(lia)) as Hmod.
  split; [|split].
  - intros HT. replace (T / 12 * 12) with T in Hsf by lia.
    rewrite Hrun, (subtract_same_shape X fit T n_lat n_lon HsX Hsf). reflexivity.
  - intros ->. change (1 / 12 * 12) with 0 in Hsf.
    pose proof (subtract_one_step_empty X fit n_lat n_lon HsX Hsf) as Hsub.
    rewrite Hsub in Hrun. exists news, l_anom, l_fit.
    split; [exact Hrun | exact (Hanom _ Hsub)].
  - intros HT H1. rewrite Hrun.
    rewrite (subtract_time_mismatch X fit T (T / 12 * 12) n_lat n_lon n_lat n_lon HsX Hsf)
      by lia.
    reflexivity.
Qed.

End FittedFieldExtras.

(** Two years on a grid of two cells, fitted cell by cell. *)
Lemma monthly_anomaly_series_fits_each_cell_witness :
  exists (news : heap R) (l_anom l_fit : loc) (fit mean : ndarray R),
    monthly_anomaly_series zero_solver (Arr 0) (Arr 1) (Arr 2) (sample_store 24 1 2 1 2) =
      (ok (l_anom, l_fit, 3), sample_store 24 1 2 1 2 ++ news) /\
    (sample_store 24 1 2 1 2 ++ news) !! l_fit = Some fit /\
    (sample_store 24 1 2 1 2 ++ news) !! 3 = Some mean /\
    exists cell out,
      getitem_col3 mean 0 1 = ok cell /\
      regression_value zero_solver cell = ok out /\
      item3 fit 13 0 1 = item out 1.
Proof.
  destruct (monthly_anomaly_series_fits_each_cell zero_solver (sample_store 24 1 2 1 2)
              (Arr 0) (Arr 1) (Arr 2)
              (sample_grid 24 1 2) (sample_axis 0 1) (sample_axis 0 2) 24 1 2
              zero_solver_total
              eq_refl eq_refl eq_refl eq_refl eq_refl eq_refl
              eq_refl ltac:(lia) ltac:(lia))
    as (news & l_anom & l_fit & fit & mean & Hrun & Hfit & Hmean & Hcells).
  exists news, l_anom, l_fit, fit, mean.
  split; [exact Hrun|]. split; [exact Hfit|]. split; [exact Hmean|].
  destruct (Hcells 0 1 ltac:(lia) ltac:(lia)) as (cell & out & Hcell & Hout & Hitems).
  exists cell, out. split; [exact Hcell|]. split; [exact Hout|].
  exact (Hitems 13 ltac:(lia)).
Defined.

(** Two years on a grid of two cells: the second year of the fit is the first. *)
Lemma monthly_anomaly_series_fit_repeats_yearly_witness :
  exists (news : heap R) (l_anom l_fit : loc) (fit : ndarray R),
    monthly_anomaly_series zero_solver (Arr 0) (Arr 1) (Arr 2) (sample_store 24 1 2 1 2) =
      (ok (l_anom, l_fit, 3), sample_store 24 1 2 1 2 ++ news) /\
    (sample_store 24 1 2 1 2 ++ news) !! l_fit = Some fit /\
    item3 fit (5 + 12) 0 1 = item3 fit 5 0 1.
Proof.
  destruct (monthly_anomaly_series_fit_repeats_yearly zero_solver (sample_store 24 1 2 1 2)
              (Arr 0) (Arr 1) (Arr 2)
              (sample_grid 24 1 2) (sample_axis 0 1) (sample_axis 0 2) 24 1 2
              zero_solver_total
              eq_refl eq_refl eq_refl eq_refl eq_refl eq_refl
              eq_refl ltac:(lia) ltac:(lia))
    as (news & l_anom & l_fit & fit & Hrun & Hfit & _ & Hrep).
  exists news, l_anom, l_fit, fit.
  split; [exact Hrun|]. split; [exact Hfit|].
  apply Hrep; lia.
Defined.

(** One time step: the call returns, with no anomaly at all. *)
Lemma monthly_anomaly_series_returns_for_whole_years_witness :
  exists (news : heap R) (l_anom l_fit : loc),
    monthly_anomaly_series zero_solver (Arr 0) (Arr 1) (Arr 2) (sample_store 1 1 1 1 1) =
      (ok (l_anom, l_fit, 3), sample_store 1 1 1 1 1 ++ news) /\
    (sample_store 1 1 1 1 1 ++ news) !! l_anom = Some {| shape := [0; 1; 1]; data := [] |}.
Proof.
  destruct (monthly_anomaly_series_returns_for_whole_years zero_solver
              (sample_store 1 1 1 1 1) (Arr 0) (Arr 1) (Arr 2)
              (sample_grid 1 1 1) (sample_axis 0 1) (sample_axis 0 1) 1 1 1
              zero_solver_total
              eq_refl eq_refl eq_refl eq_refl eq_refl eq_refl
              ltac:(lia) ltac:(lia))
    as (_ & Hone & _).
  exact (Hone eq_refl).
Defined.

(** ** Text and paths *)

Lemma str_count_app (a b : string) (c : ascii) :
  str_count (a +:+ b) c = str_count a c + str_count b c.
Proof.
  induction a as [|d a IH]; [reflexivity|].
  rewrite str_app_cons. cbn [str_count]. rewrite IH. lia.
Qed.

Lemma str_count_free (c : ascii) (s : string) : str_free c s -> str_count s c = 0.
Proof.
  induction s as [|d s IH]; [reflexivity|]. intros [Hd Hs].
  cbn [str_count]. rewrite (IH Hs).
  destruct (Ascii.eqb_spec d c); [contradiction | reflexivity].
Qed.

Lemma str_count_split (c : ascii) (s : string) :
  length (str_split c s) = S (str_count s c).
Proof.
  induction s as [|d s IH]; [reflexivity|].
  cbn [str_split str_count].
  destruct (Ascii.eqb d c); cbn [length]; [now rewrite IH|].
  destruct (str_split c s) as [|w ws]; cbn [length] in *; lia.
Qed.

Lemma str_free_app (c : ascii) (a b : string) :
  str_free c a -> str_free c b -> str_free c (a +:+ b).
Proof.
  intros Ha Hb. induction a as [|d a IH]; [now rewrite str_app_nil_l|].
  rewrite str_app_cons. destruct Ha as [Hd Ha]. split; [exact Hd | now apply IH].
Qed.

Lemma str_follow_nil (s : string) : str_follow "" s = s.
Proof.
  induction s as [|c s IH]; [reflexivity|].
  cbn [str_follow]. rewrite str_app_nil_l. now f_equal.
Qed.

Lemma str_startswith_free_prefix (c : ascii) (old s : string) :
  str_startswith s old = true -> str_free c old ->
  free_prefix c (String.length old) s.
Proof.
  revert s. induction old as [|o old IH]; intros s Hs Hfree; [exact I|].
  destruct s as [|d s]; [discriminate|].
  cbn [str_startswith] in Hs. apply andb_true_iff in Hs as [Hd Hs].
  apply Ascii.eqb_eq in Hd. subst d. destruct Hfree as [Ho Hfree].
  cbn [String.length free_prefix]. split; [exact Ho | now apply IH].
Qed.

Lemma str_count_replace_from (c : ascii) (old : string) (skip : nat) (s : string) :
  old <> "" -> str_free c old -> free_prefix c skip s ->
  str_count (str_replace_from old "" skip s) c = str_count s c.
Proof.
  intros Hold Hfree. revert skip.
  induction s as [|d s IH]; intros skip Hskip; [reflexivity|].
  cbn [str_replace_from]. destruct skip as [|skip].
  - destruct (str_startswith (String d s) old) eqn:Hstart.
    + pose proof (str_startswith_free_prefix c old _ Hstart Hfree) as Hpre.
      destruct old as [|o old]; [contradiction|].
      cbn [String.length free_prefix] in Hpre. destruct Hpre as [Hd Hpre].
      rewrite str_app_nil_l.
      replace (String.length (String o old) - 1) with (String.length old)
        by (cbn [String.length]; lia).
      rewrite (IH _ Hpre). cbn [str_count].
      destruct (Ascii.eqb_spec d c); [contradiction | reflexivity].
    + cbn [str_count]. now rewrite (IH 0 I).
  - destruct Hskip as [Hd Hskip]. rewrite (IH _ Hskip). cbn [str_count].
    destruct (Ascii.eqb_spec d c); [contradiction | reflexivity].
Qed.

Lemma str_count_replace (c : ascii) (s old : string) :
  str_free c old -> str_count (str_replace s old "") c = str_count s c.
Proof.
  intros Hfree. unfold str_replace. destruct old as [|o old].
  - now rewrite str_app_nil_l, str_follow_nil.
  - apply str_count_replace_from; [discriminate | exact Hfree | exact I].
Qed.

Lemma str_endswith_free (s : string) : str_free "/" s -> str_endswith s "/" = false.
Proof.
  induction s as [|d s IH]; [reflexivity|]. intros [Hd Hs].
  cbn [str_endswith]. rewrite (IH Hs), orb_false_r.
  apply String.eqb_neq. intros [= ? ?]. contradiction.
Qed.

Lemma str_endswith_plain (a b : string) :
  plain_name b -> str_endswith (a +:+ b) "/" = false.
Proof.
  intros [Hb Hfree]. induction a as [|d a IH].
  - rewrite str_app_nil_l. now apply str_endswith_free.
  - rewrite str_app_cons. cbn [str_endswith]. rewrite IH, orb_false_r.
    apply String.eqb_neq. intros [= _ Hab].
    destruct a; [now rewrite str_app_nil_l in Hab | discriminate].
Qed.

Lemma str_startswith_plain (b : string) : plain_name b -> str_startswith b "/" = false.
Proof.
  intros [Hb Hfree]. destruct b as [|d b]; [contradiction|].
  destruct Hfree as [Hd _]. cbn [str_startswith].
  apply andb_false_iff. left. apply Ascii.eqb_neq. congruence.
Qed.

Lemma str_app_not_nil (a b : string) : b <> "" -> a +:+ b <> "".
Proof. intros Hb. destruct a; [now rewrite str_app_nil_l | discriminate]. Qed.

Lemma path_join_step_plain (path b : string) :
  path <> "" -> str_endswith path "/" = false -> plain_name b ->
  path_join_step path b = path +:+ String "/" b.
Proof.
  intros Hpath Hend Hb. unfold path_join_step.
  rewrite (str_startswith_plain b Hb), Hend, orb_false_r.
  apply String.eqb_neq in Hpath. rewrite Hpath. reflexivity.
Qed.

Lemma str_split_path_join (path : string) (comps : list string) :
  path <> "" -> str_endswith path "/" = false -> Forall plain_name comps ->
  str_split "/" (os_path_join path comps) = str_split "/" path ++ comps.
Proof.
  intros Hpath Hend Hcomps. revert path Hpath Hend.
  induction Hcomps as [|b comps Hb _ IH]; intros path Hpath Hend.
  - cbn. now rewrite app_nil_r.
  - unfold os_path_join. cbn [fold_left]. fold (os_path_join (path_join_step path b) comps).
    rewrite (path_join_step_plain path b Hpath Hend Hb).
    rewrite IH.
    + rewrite str_split_app, (str_split_free "/" b (proj2 Hb)).
      now rewrite <- app_assoc.
    + apply str_app_not_nil. discriminate.
    + change (String "/" b) with ("/" +:+ b). rewrite <- str_app_assoc.
      now apply str_endswith_plain.
Qed.

Lemma last_app_cons {A : Type} (l1 l2 : list A) (d d' : A) :
  l1 <> [] -> List.last (l1 ++ l2) d = List.last l2 (List.last l1 d').
Proof.
  intros Hl1. revert l1 Hl1. induction l2 as [|x l2 IH] using rev_ind; intros l1 Hl1.
  - rewrite app_nil_r. cbn. destruct l1 as [|y l1]; [contradiction|].
    clear Hl1. revert y. induction l1 as [|z l1 IHl]; intros y; [reflexivity|].
    change (List.last (y :: z :: l1) d) with (List.last (z :: l1) d).
    change (List.last (y :: z :: l1) d') with (List.last (z :: l1) d'). apply IHl.
  - rewrite app_assoc, !last_last. reflexivity.
Qed.

(** A folder [comps] below a path without ["/"]: its depth and its name. *)
Lemma path_join_depth (path : string) (comps : list string) :
  path <> "" -> str_free "/" path -> Forall plain_name comps ->
  str_count (os_path_join path comps) "/" = length comps /\
  os_path_basename (os_path_join path comps) = List.last comps path.
Proof.
  intros Hpath Hfree Hcomps.
  pose proof (str_split_path_join path comps Hpath (str_endswith_free path Hfree) Hcomps)
    as Hsplit.
  rewrite (str_split_free "/" path Hfree) in Hsplit. split.
  - pose proof (str_count_split "/" (os_path_join path comps)) as Hcount.
    rewrite Hsplit in Hcount. cbn [app length] in Hcount. lia.
  - unfold os_path_basename. rewrite Hsplit.
    now rewrite (last_app_cons [path] comps "" "") by discriminate.
Qed.

(** ** Runs *)

Section IoFacts.
Context {FS : Type}.

Lemma io_for_print {A : Type} (line : A -> string) (l : list A) (fs : FS) (out : list string) :
  io_for l (fun x => print (line x)) (fs, out) = (inr tt, (fs, out ++ map line l)).
Proof.
  revert out. induction l as [|x l IH]; intros out.
  - cbn. now rewrite app_nil_r.
  - cbn [io_for map]. unfold io_bind at 1. cbn [print].
    rewrite IH, <- app_assoc. reflexivity.
Qed.

Lemma io_for_ext {A : Type} (body body' : A -> io FS unit) (l : list A) (st : FS * list string) :
  Forall (fun x => forall st, body x st = body' x st) l ->
  io_for l body st = io_for l body' st.
Proof.
  intros Hl. revert st. induction Hl as [|x l Hx _ IH]; intros st; [reflexivity|].
  cbn [io_for]. unfold io_bind. rewrite Hx.
  destruct (body' x st) as [[e|[]] st']; [reflexivity | apply IH].
Qed.

End IoFacts.

Section UtilsExtras.
Context {FS : Type}.
Variable sys : os.calls FS.

(** X13. For a path that is not empty and holds no ["/"], what is
    printed for a folder that [os.walk] reaches through the folders
    [comps] below the path is four spaces for each of them, then the name
    of the last one (the path itself when there is none) and ["/"]; one
    line for each folder walked, in the order walked, and nothing for the
    files. Nothing is raised and the file system is left as it was. *)
Theorem print_tree_folders_indents_by_depth (path : string)
    (below : list (list string)) (fs : FS) (out : list string) :
  path <> "" -> str_free "/" path ->
  Forall2 (fun (e : walk_entry) comps =>
             e.1.1 = os_path_join path comps /\ Forall plain_name comps)
          (os.walk sys path fs) below ->
  print_tree_folders sys path (fs, out) =
    (inr tt,
     (fs, out ++ map (fun comps =>
                        str_mul "    " (length comps) +:+ List.last comps path +:+ "/")
                     below)).
Proof.
  intros Hpath Hfree Hwalk. unfold print_tree_folders, io_bind, os_read.
  rewrite (io_for_ext _
             (fun e : walk_entry =>
                print (str_mul "    " (str_count e.1.1 "/") +:+ os_path_basename e.1.1 +:+ "/"))).
  - rewrite io_for_print. do 3 f_equal.
    induction Hwalk as [|e comps es below [He Hcomps] _ IH]; [reflexivity|].
    cbn [map]. rewrite IH. f_equal.
    destruct (path_join_depth path comps Hpath Hfree Hcomps) as [Hdepth Hname].
    now rewrite He, Hdepth, Hname.
  - apply Forall_forall. intros [[root dirs] files] _ st. cbn [fst snd].
    unfold os_sep. now rewrite (str_count_replace "/" root path Hfree).
Qed.

End UtilsExtras.

(** ** [sort_model_files_by_folder] *)

Lemma py_slice_init {A : Type} (l : list A) (y : A) :
  py_slice None (Some (-1)%Z) (l ++ [y]) = l.
Proof.
  unfold py_slice, slice_bound.
  change (-1 <? 0)%Z with true. cbv iota.
  rewrite length_app. cbn [length drop].
  replace (Z.to_nat (Z.max 0 (Z.of_nat (length l + 1) + -1)) - 0) with (length l) by lia.
  change (drop 0 (l ++ [y])) with (l ++ [y]). now rewrite take_app_length.
Qed.

(** The folder of a file without ["_"] has the empty name. *)
Lemma model_without_underscore (f : string) :
  str_free "_" f ->
  str_join "_" (py_slice None (Some (-1)%Z) (str_split "_" f)) = "".
Proof.
  intros Hf. rewrite (str_split_free "_" f Hf).
  change [f] with ([] ++ [f]). now rewrite py_slice_init.
Qed.

(** The folder of [model_last] is [model]. *)
Lemma model_before_last_field (model last : string) :
  str_free "_" last ->
  str_join "_" (py_slice None (Some (-1)%Z) (str_split "_" (model +:+ "_" +:+ last)))
  = model.
Proof.
  intros Hlast. change ("_" +:+ last) with (String "_" last).
  rewrite str_split_app, (str_split_free "_" last Hlast).
  rewrite py_slice_init. apply (str_join_split "_").
Qed.

Lemma os_path_join_empty_component (data_path f : string) :
  os_path_join data_path [""; f] = os_path_join data_path [f].
Proof.
  unfold os_path_join. cbn [fold_left]. unfold path_join_step at 2.
  change (str_startswith "" "/") with false. cbv iota.
  unfold path_join_step.
  destruct (str_startswith f "/"); [reflexivity|].
  destruct (String.eqb data_path "" || str_endswith data_path "/") eqn:E.
  - rewrite str_app_nil_r, E. reflexivity.
  - rewrite str_app_nil_r.
    change (data_path +:+ "/") with (data_path +:+ "/") at 1.
    rewrite (str_endswith_app data_path "/"), orb_true_r.
    now rewrite str_app_assoc.
Qed.

Section SortFacts.
Context {FS : Type}.
Variable sys : os.calls FS.

Lemma nc_files_none (names : list string) :
  Forall (fun f => str_endswith f ".nc" = false) names -> nc_files names = [].
Proof.
  unfold nc_files. induction 1 as [|f names Hf _ IH]; [reflexivity|].
  cbn [List.filter]. now rewrite Hf.
Qed.

(** Files without ["_"], where renaming each onto itself changes
    nothing: the loop prints and leaves the file system as it was. *)
Lemma loop_without_underscore (data_path : string) (files : list string)
    (fs : FS) (out : list string) :
  Forall (str_free "_") files ->
  os.path_exists sys (os_path_join data_path [""]) fs = true ->
  Forall (fun f => os.rename sys (os_path_join data_path [f])
                     (os_path_join data_path [f]) fs = (None, fs)) files ->
  io_for files (fun f =>
      let name := py_slice None (Some (-1)%Z) (str_split "_" f) in
      let model := str_join "_" name in
      io_bind (os_read (fun fs => inr (os.path_exists sys (os_path_join data_path [model]) fs)))
        (fun found =>
      io_bind (if negb found then os_write (os.makedirs sys (os_path_join data_path [model]))
               else io_ret tt) (fun _ =>
      io_bind (os_write (os.rename sys (os_path_join data_path [f])
                                       (os_path_join data_path [model; f]))) (fun _ =>
      print ("Archivo " +:+ f +:+ " movido a " +:+ model)))))
    (fs, out)
  = (inr tt, (fs, out ++ map (fun f => "Archivo " +:+ f +:+ " movido a ") files)).
Proof.
  intros Hfree Hexists Hrename. revert out.
  induction Hfree as [|f files Hf _ IH]; intros out.
  - cbn. now rewrite app_nil_r.
  - apply Forall_cons in Hrename as [Hr Hrename].
    cbn [io_for map]. cbv zeta. rewrite (model_without_underscore f Hf).
    unfold io_bind at 1. unfold io_bind at 1. unfold os_read at 1.
    rewrite Hexists. cbn [negb]. unfold io_bind at 1. cbn [io_ret].
    unfold io_bind at 1. unfold os_write at 1.
    rewrite os_path_join_empty_component, Hr. cbn [print].
    rewrite (IH Hrename). rewrite <- app_assoc. reflexivity.
Qed.

End SortFacts.

Section SortExtras.
Context {FS : Type}.
Variable sys : os.calls FS.

(** X14. When [os.listdir] raises, the call raises the same error; when
    no name listed ends with [".nc"], it prints one line and returns; in
    both cases no folder is made, no file renamed and nothing else
    printed. *)
Theorem sort_model_files_by_folder_nothing_to_move (data_path : string)
    (fs : FS) (out : list string) :
  (forall e, os.listdir sys data_path fs = inl e ->
     sort_model_files_by_folder sys data_path (fs, out) = (inl (OSError e), (fs, out))) /\
  (forall names, os.listdir sys data_path fs = inr names ->
     Forall (fun f => str_endswith f ".nc" = false) names ->
     sort_model_files_by_folder sys data_path (fs, out) =
       (inr tt, (fs, out ++ ["No hay archivos .nc en el directorio."]))).
Proof.
  split.
  - intros e He. unfold sort_model_files_by_folder, io_bind, os_read. now rewrite He.
  - intros names Hnames Hnone.
    unfold sort_model_files_by_folder, io_bind, os_read. rewrite Hnames.
    fold (nc_files names). rewrite (nc_files_none names Hnone). reflexivity.
Qed.

(** X15. When the [.nc] files listed have no ["_"] in their names, each
    is renamed onto itself, in the folder listed: where that changes
    nothing, the call leaves the file system as it was, and still prints
    for each file that it was moved, to a folder with the empty name. *)
Theorem sort_model_files_by_folder_without_underscore (data_path : string)
    (names : list string) (fs : FS) (out : list string) :
  os.listdir sys data_path fs = inr names ->
  nc_files names <> [] ->
  Forall (str_free "_") (nc_files names) ->
  os.path_exists sys (os_path_join data_path [""]) fs = true ->
  Forall (fun f => os.rename sys (os_path_join data_path [f])
                     (os_path_join data_path [f]) fs = (None, fs)) (nc_files names) ->
  sort_model_files_by_folder sys data_path (fs, out) =
    (inr tt,
     (fs, out ++ map (fun f => "Archivo " +:+ f +:+ " movido a ") (nc_files names)
              ++ ["Archivos movidos correctamente."])).
Proof.
  intros Hnames Hsome Hfree Hexists Hrename.
  unfold sort_model_files_by_folder. unfold io_bind at 1. unfold os_read at 1.
  rewrite Hnames. cbv zeta. fold (nc_files names).
  destruct (nc_files names) as [|f files] eqn:Hfiles; [contradiction|].
  cbn [length Nat.eqb]. unfold io_bind at 1.
  pose proof (loop_without_underscore sys data_path (f :: files) fs out
                Hfree Hexists Hrename) as Hloop.
  cbv zeta in Hloop. rewrite Hloop.
  cbn [print]. now rewrite <- app_assoc.
Qed.

(** X16. A single [.nc] file [model_last], where [last] has no ["_"] and
    [model] is not empty, listed in a folder [data_path] that is not
    empty and does not end with ["/"]: when [data_path/model] does not
    exist it is made, and the file is renamed from [data_path/model_last]
    to [data_path/model/model_last]. *)
Theorem sort_model_files_by_folder_moves_to_model_folder (data_path model last : string)
    (names : list string) (fs fs1 fs2 : FS) (out : list string) :
  os.listdir sys data_path fs = inr names ->
  nc_files names = [model +:+ "_" +:+ last] ->
  str_free "_" last -> plain_name model -> str_free "/" last ->
  data_path <> "" -> str_endswith data_path "/" = false ->
  os.path_exists sys (data_path +:+ "/" +:+ model) fs = false ->
  os.makedirs sys (data_path +:+ "/" +:+ model) fs = (None, fs1) ->
  os.rename sys (data_path +:+ "/" +:+ model +:+ "_" +:+ last)
    (data_path +:+ "/" +:+ model +:+ "/" +:+ model +:+ "_" +:+ last) fs1 = (None, fs2) ->
  sort_model_files_by_folder sys data_path (fs, out) =
    (inr tt,
     (fs2, out ++ ["Archivo " +:+ (model +:+ "_" +:+ last) +:+ " movido a " +:+ model;
                   "Archivos movidos correctamente."])).
Proof.
  intros Hnames Hfiles Hlast Hmodel Hlast' Hpath Hend Hexists Hmake Hrename.
  assert (Hfile : plain_name (model +:+ "_" +:+ last)).
  { destruct Hmodel as [Hne Hfree]. split.
    - destruct model; [contradiction | discriminate].
    - apply str_free_app; [exact Hfree|].
      change ("_" +:+ last) with (String "_" last). split; [discriminate | exact Hlast']. }
  unfold sort_model_files_by_folder. unfold io_bind at 1. unfold os_read at 1.
  rewrite Hnames. cbv zeta. fold (nc_files names). rewrite Hfiles.
  cbn [length Nat.eqb io_for].
  rewrite (model_before_last_field model last Hlast).
  assert (Hdir : os_path_join data_path [model] = data_path +:+ "/" +:+ model).
  { unfold os_path_join. cbn [fold_left].
    now rewrite (path_join_step_plain data_path model Hpath Hend Hmodel). }
  assert (Hsrc : os_path_join data_path [model +:+ "_" +:+ last]
                 = data_path +:+ "/" +:+ model +:+ "_" +:+ last).
  { unfold os_path_join. cbn [fold_left].
    now rewrite (path_join_step_plain data_path _ Hpath Hend Hfile). }
  assert (Hdst : os_path_join data_path [model; model +:+ "_" +:+ last]
                 = data_path +:+ "/" +:+ model +:+ "/" +:+ model +:+ "_" +:+ last).
  { unfold os_path_join. cbn [fold_left].
    rewrite (path_join_step_plain data_path model Hpath Hend Hmodel).
    rewrite path_join_step_plain; [| |  | exact Hfile].
    - now rewrite !str_app_assoc.
    - apply str_app_not_nil. discriminate.
    - change (String "/" model) with ("/" +:+ model). rewrite <- str_app_assoc.
      now apply str_endswith_plain. }
  rewrite Hdir, Hsrc, Hdst.
  unfold io_bind, os_read, os_write, io_ret, print.
  rewrite Hexists. cbn [negb]. rewrite Hmake, Hrename.
  now rewrite <- app_assoc.
Qed.

End SortExtras.

(** ** [auxiliar.py] *)

Lemma last_str_split_app (sep : ascii) (p x : string) :
  str_free sep x ->
  List.last (str_split sep (p +:+ x)) "" = List.last (str_split sep p) "" +:+ x.
Proof.
  intros Hx. induction p as [|c p IH].
  - rewrite str_app_nil_l, (str_split_free sep x Hx). reflexivity.
  - rewrite str_app_cons. cbn [str_split].
    pose proof (str_count_split sep (p +:+ x)) as Hlen.
    pose proof (str_count_split sep p) as Hlen'.
    rewrite str_count_app, (str_count_free sep x Hx), Nat.add_0_r in Hlen.
    destruct (Ascii.eqb c sep).
    + destruct (str_split sep (p +:+ x)) as [|w ws]; [discriminate|].
      destruct (str_split sep p) as [|w' ws']; [discriminate|].
      exact IH.
    + destruct (str_split sep (p +:+ x)) as [|w ws]; [discriminate|].
      destruct (str_split sep p) as [|w' ws']; [discriminate|].
      destruct ws as [|v ws], ws' as [|v' ws']; cbn [length] in Hlen, Hlen'; try lia.
      * cbn [List.last] in *. rewrite str_app_cons. now f_equal.
      * exact IH.
Qed.

Lemma os_path_basename_endswith (root x : string) :
  str_free "/" x -> str_endswith root x = true ->
  str_endswith (os_path_basename root) x = true.
Proof.
  intros Hx Hroot. apply str_endswith_inv in Hroot as [p ->].
  unfold os_path_basename. rewrite (last_str_split_app "/" p x Hx).
  apply str_endswith_app.
Qed.

Lemma aux_vars_fold (dirs : list string) (aux_vars : gset string) :
  fold_left (fun aux_vars dir_name =>
               if bool_decide (dir_name <> variable_principal)
               then aux_vars ∪ {[dir_name]} else aux_vars)
            dirs aux_vars
  = aux_vars ∪ other_folders dirs.
Proof.
  revert aux_vars. induction dirs as [|d dirs IH]; intros aux_vars.
  - cbn. unfold other_folders. cbn. now rewrite (right_id_L ∅ (∪)).
  - cbn [fold_left]. rewrite IH. unfold other_folders. rewrite filter_cons.
    destruct (decide (d <> variable_principal)) as [Hd|Hd].
    + rewrite bool_decide_eq_true_2 by assumption. cbn [list_to_set].
      now rewrite (assoc_L (∪)).
    + rewrite bool_decide_eq_false_2 by assumption. reflexivity.
Qed.

Lemma walk_group_snoc (c : nat) (done : list walk_entry) (e : walk_entry) :
  walk_group c (done ++ [e]) =
    if str_endswith e.1.1 variable_principal
    then if decide (size (other_folders e.1.2) = c)
         then Some (default [] (walk_group c done) ++ [os_path_basename e.1.1])
         else walk_group c done
    else walk_group c done.
Proof.
  unfold walk_group. rewrite filter_app, filter_cons, filter_nil.
  destruct (str_endswith e.1.1 variable_principal) eqn:He.
  - rewrite decide_True by reflexivity.
    rewrite filter_app, filter_cons, filter_nil.
    destruct (decide (size (other_folders e.1.2) = c)) as [Hc|Hc].
    + destruct (filter _ (filter _ done)) as [|q g]; cbn; [reflexivity|].
      rewrite map_app. reflexivity.
    + now rewrite app_nil_r.
  - rewrite decide_False by discriminate. now rewrite app_nil_r.
Qed.

Lemma walk_group_names (c : nat) (entries : list walk_entry) (names : list string) :
  walk_group c entries = Some names ->
  names <> [] /\
  Forall (fun name => str_endswith name variable_principal = true) names.
Proof.
  unfold walk_group.
  destruct (filter _ (filter _ entries)) as [|q g] eqn:Hg; [discriminate|].
  intros [= <-]. split; [discriminate|].
  match goal with
  | |- Forall ?P _ =>
      change (Forall P ((fun e : walk_entry => os_path_basename e.1.1) <$> (q :: g)))
  end.
  apply Forall_fmap, Forall_forall. intros e He.
  assert (He' : e ∈ filter (fun e : walk_entry => size (other_folders e.1.2) = c)
                  (filter (fun e : walk_entry =>
                             str_endswith e.1.1 variable_principal = true) entries))
    by now rewrite Hg.
  apply list_elem_of_filter in He' as [_ He'].
  apply list_elem_of_filter in He' as [He' _]. cbn.
  apply os_path_basename_endswith; [|exact He'].
  cbn. intuition discriminate.
Qed.

Lemma result_dict_loop (todo done : list walk_entry) (d : gmap nat (list string)) :
  (forall c, d !! c = walk_group c done) ->
  exists d',
    for_loop todo
      (fun result_dict '(root, dirs, files) =>
         if str_endswith root variable_principal then
           let model_name := os_path_basename root in
           let aux_vars : gset string :=
             fold_left (fun aux_vars dir_name =>
                          if bool_decide (dir_name <> variable_principal)
                          then aux_vars ∪ {[dir_name]} else aux_vars)
                       dirs ∅ in
           let num_aux_vars := size aux_vars in
           let result_dict :=
             if bool_decide (is_Some (result_dict !! num_aux_vars)) then result_dict
             else <[num_aux_vars := []]> result_dict in
           obind (dict_getitem result_dict num_aux_vars) (fun entries =>
           inr (<[num_aux_vars := entries ++ [model_name]]> result_dict))
         else inr result_dict)
      d = inr d' /\
    forall c, d' !! c = walk_group c (done ++ todo).
Proof.
  revert done d. induction todo as [|[[root dirs] files] todo IH]; intros done d Hd.
  - exists d. split; [reflexivity|]. intros c. now rewrite app_nil_r.
  - cbn [for_loop].
    assert (Hstep : exists d1,
      (if str_endswith root variable_principal then
         let model_name := os_path_basename root in
         let aux_vars : gset string :=
           fold_left (fun aux_vars dir_name =>
                        if bool_decide (dir_name <> variable_principal)
                        then aux_vars ∪ {[dir_name]} else aux_vars)
                     dirs ∅ in
         let num_aux_vars := size aux_vars in
         let result_dict :=
           if bool_decide (is_Some (d !! num_aux_vars)) then d
           else <[num_aux_vars := []]> d in
         obind (dict_getitem result_dict num_aux_vars) (fun entries =>
         inr (<[num_aux_vars := entries ++ [model_name]]> result_dict))
       else inr d) = inr d1 /\
      forall c, d1 !! c = walk_group c (done ++ [(root, dirs, files)])).
    { destruct (str_endswith root variable_principal) eqn:Hroot.
      - cbv zeta. rewrite aux_vars_fold, (left_id_L ∅ (∪)).
        set (k := size (other_folders dirs)).
        set (d0 := if bool_decide (is_Some (d !! k)) then d else <[k := []]> d).
        assert (Hk : d0 !! k = Some (default [] (walk_group k done))).
        { unfold d0. destruct (bool_decide (is_Some (d !! k))) eqn:Hsome.
          - apply bool_decide_eq_true_1 in Hsome as [entries Hentries].
            rewrite Hentries. rewrite Hd in Hentries. now rewrite Hentries.
          - apply bool_decide_eq_false_1 in Hsome.
            rewrite lookup_insert_eq.
            destruct (walk_group k done) eqn:Hg; [|reflexivity].
            exfalso. apply Hsome. rewrite Hd, Hg. eauto. }
        rewrite (dict_getitem_some _ _ _ Hk). cbn [obind].
        eexists. split; [reflexivity|].
        intros c. rewrite walk_group_snoc. cbn [fst snd]. rewrite Hroot. fold k.
        destruct (decide (k = c)) as [<-|Hc].
        + now rewrite lookup_insert_eq.
        + rewrite lookup_insert_ne by assumption. unfold d0.
          destruct (bool_decide (is_Some (d !! k))); [apply Hd|].
          rewrite lookup_insert_ne by assumption. apply Hd.
      - exists d. split; [reflexivity|].
        intros c. rewrite walk_group_snoc. cbn [fst snd]. rewrite Hroot. apply Hd. }
    destruct Hstep as (d1 & Hstep & Hd1). cbv zeta in Hstep. cbv zeta.
    rewrite Hstep. cbn [obind].
    destruct (IH (done ++ [(root, dirs, files)]) d1 Hd1) as (d' & Hrun & Hd').
    exists d'. split; [exact Hrun|].
    intros c. rewrite Hd'. now rewrite <- app_assoc.
Qed.

Section AuxiliarExtras.
Context {FS : Type}.
Variable sys : os.calls FS.

(** X17. The script raises nothing of its own, and in the dict it prints
    key [c] holds, in the order walked, the last component of the path of
    every folder walked whose path ends with ["huss"] and that holds
    exactly [c] folders with different names other than ["huss"]; a
    count that no such folder has is not a key. *)
Theorem result_dict_groups (fs : FS) :
  exists d,
    result_dict sys fs = inr d /\
    forall c, d !! c = walk_group c (os.walk sys base_dir fs).
Proof.
  destruct (result_dict_loop (os.walk sys base_dir fs) [] ∅) as (d & Hrun & Hd).
  { intros c. now rewrite lookup_empty. }
  exists d. split; [exact Hrun | exact Hd].
Qed.

(** X18. Every name in the dict that the script prints ends with
    ["huss"]: what is recorded for a folder [.../huss] is ["huss"], not
    the name of a model; and no key holds an empty list. *)
Theorem result_dict_names_end_with_huss (fs : FS) :
  match result_dict sys fs with
  | inr d =>
      forall c names, d !! c = Some names ->
        names <> [] /\ Forall (fun name => str_endswith name "huss" = true) names
  | inl _ => False
  end.
Proof.
  destruct (result_dict_loop (os.walk sys base_dir fs) [] ∅) as (d & Hrun & Hd).
  { intros c. now rewrite lookup_empty. }
  change (result_dict sys fs = inr d) in Hrun. rewrite Hrun.
  intros c names Hnames. rewrite Hd in Hnames.
  exact (walk_group_names c _ names Hnames).
Qed.

End AuxiliarExtras.

(** ** Paths that hold separators *)

Lemma str_startswith_app (old s : string) : str_startswith (old +:+ s) old = true.
Proof.
  induction old as [|c old IH]; [now destruct s|].
  rewrite str_app_cons. cbn [str_startswith]. now rewrite Ascii.eqb_refl, IH.
Qed.

Lemma str_startswith_inv (s old : string) :
  str_startswith s old = true -> exists b, s = old +:+ b.
Proof.
  revert s. induction old as [|c old IH]; intros s Hs.
  - exists s. now rewrite str_app_nil_l.
  - destruct s as [|d s]; [discriminate|]. cbn [str_startswith] in Hs.
    apply andb_true_iff in Hs as [Hc Hs]. apply Ascii.eqb_eq in Hc. subst d.
    destruct (IH s Hs) as [b ->]. exists b. now rewrite str_app_cons.
Qed.

Lemma str_length_app (a b : string) :
  String.length (a +:+ b) = String.length a + String.length b.
Proof.
  induction a as [|c a IH]; [reflexivity|].
  rewrite str_app_cons. cbn [String.length]. now rewrite IH.
Qed.

Lemma str_drop_app (a s : string) : str_drop (String.length a) (a +:+ s) = s.
Proof.
  induction a as [|c a IH]; [rewrite str_app_nil_l; now destruct s|].
  rewrite str_app_cons. exact IH.
Qed.

Lemma occurs_later_false (path root : string) :
  occurs_later path root = false -> occurs_first_only path root.
Proof.
  intros Hlater a b Hroot. destruct a as [|c a]; [reflexivity|]. exfalso.
  assert (Hin : existsb (fun k => str_startswith (str_drop k root) path)
                  (seq 1 (String.length root)) = true).
  { apply existsb_exists. exists (String.length (String c a)). split.
    - apply in_seq. rewrite Hroot, str_length_app. cbn [String.length]. lia.
    - rewrite Hroot, str_drop_app. apply str_startswith_app. }
  unfold occurs_later in Hlater. congruence.
Qed.

Lemma str_replace_from_skip (old new a s : string) :
  str_replace_from old new (String.length a) (a +:+ s) = str_replace_from old new 0 s.
Proof.
  induction a as [|c a IH]; [rewrite str_app_nil_l; now destruct s|].
  rewrite str_app_cons. exact IH.
Qed.

Lemma str_replace_from_absent (old new s : string) :
  (forall a b, s <> a +:+ old +:+ b) -> str_replace_from old new 0 s = s.
Proof.
  induction s as [|c s IH]; intros Habsent; [reflexivity|].
  cbn [str_replace_from].
  destruct (str_startswith (String c s) old) eqn:Hstart.
  - apply str_startswith_inv in Hstart as [b Hb].
    exfalso. apply (Habsent "" b). now rewrite str_app_nil_l.
  - f_equal. apply IH. intros a b ->.
    apply (Habsent (String c a) b). now rewrite str_app_cons.
Qed.

(** Taking the path out of a folder below it leaves what follows the
    path, when the path occurs at the beginning only. *)
Lemma str_replace_leading (path rest : string) :
  path <> "" -> occurs_first_only path (path +:+ rest) ->
  str_replace (path +:+ rest) path "" = rest.
Proof.
  intros Hpath Honly. unfold str_replace.
  destruct path as [|c path]; [contradiction|].
  rewrite str_app_cons. cbn [str_replace_from].
  rewrite <- str_app_cons, str_startswith_app, str_app_nil_l.
  replace (String.length (String c path) - 1) with (String.length path)
    by (cbn [String.length]; lia).
  rewrite str_replace_from_skip. apply str_replace_from_absent.
  intros a b ->. specialize (Honly (String c path +:+ a) b).
  rewrite str_app_assoc in Honly. specialize (Honly eq_refl). discriminate.
Qed.

Lemma path_join_below (path : string) (comps : list string) :
  path <> "" -> str_endswith path "/" = false -> Forall plain_name comps ->
  exists rest, os_path_join path comps = path +:+ rest.
Proof.
  intros Hpath Hend Hcomps. revert path Hpath Hend.
  induction Hcomps as [|b comps Hb _ IH]; intros path Hpath Hend.
  - exists "". cbn. now rewrite str_app_nil_r.
  - unfold os_path_join. cbn [fold_left]. fold (os_path_join (path_join_step path b) comps).
    rewrite (path_join_step_plain path b Hpath Hend Hb).
    destruct (IH (path +:+ String "/" b)) as [rest Hrest].
    + apply str_app_not_nil. discriminate.
    + change (String "/" b) with ("/" +:+ b). rewrite <- str_app_assoc.
      now apply str_endswith_plain.
    + exists (String "/" b +:+ rest). rewrite Hrest. now rewrite str_app_assoc.
Qed.

(** A folder [comps] below a path: its depth and its name. *)
Lemma path_join_depth_below (path : string) (comps : list string) :
  path <> "" -> str_endswith path "/" = false -> Forall plain_name comps ->
  occurs_first_only path (os_path_join path comps) ->
  str_count (str_replace (os_path_join path comps) path "") "/" = length comps /\
  os_path_basename (os_path_join path comps) = List.last comps (os_path_basename path).
Proof.
  intros Hpath Hend Hcomps Honly.
  pose proof (str_split_path_join path comps Hpath Hend Hcomps) as Hsplit.
  split.
  - destruct (path_join_below path comps Hpath Hend Hcomps) as [rest Hrest].
    pose proof (str_count_split "/" (os_path_join path comps)) as Hcount.
    rewrite Hsplit, length_app, str_count_split in Hcount.
    rewrite Hrest in Hcount, Honly |- *.
    rewrite (str_replace_leading path rest Hpath Honly).
    rewrite str_count_app in Hcount. lia.
  - unfold os_path_basename. rewrite Hsplit.
    apply last_app_cons, str_split_not_nil.
Qed.

Section TreeExtras.
Context {FS : Type}.
Variable sys : os.calls FS.

(** X19. For a path that is not empty and does not end with ["/"], and
    folders walked in whose paths it occurs at the beginning only, what is
    printed for the folder reached through the folders [comps] below the
    path is four spaces for each of them, then the name of the last one
    (that of the path when there is none) and ["/"]. *)
Theorem print_tree_folders_indents_below_path (path : string)
    (below : list (list string)) (fs : FS) (out : list string) :
  path <> "" -> str_endswith path "/" = false ->
  Forall2 (fun (e : walk_entry) comps =>
             e.1.1 = os_path_join path comps /\ Forall plain_name comps /\
             occurs_first_only path e.1.1)
          (os.walk sys path fs) below ->
  print_tree_folders sys path (fs, out) =
    (inr tt,
     (fs, out ++ map (fun comps =>
                        str_mul "    " (length comps)
                        +:+ List.last comps (os_path_basename path) +:+ "/")
                     below)).
Proof.
  intros Hpath Hend Hwalk. unfold print_tree_folders, io_bind, os_read.
  generalize dependent out.
  induction Hwalk as [|[[root dirs] files] comps es below (He & Hcomps & Honly) _ IH];
    intros out.
  - cbn. now rewrite app_nil_r.
  - cbn [fst snd] in He, Honly. subst root.
    destruct (path_join_depth_below path comps Hpath Hend Hcomps Honly) as [Hdepth Hname].
    cbn [io_for map]. unfold io_bind at 1. unfold os_sep.
    rewrite Hdepth, Hname. cbn [print].
    change (str_mul " " 4) with "    ". rewrite IH.
    now rewrite <- app_assoc.
Qed.

End TreeExtras.

Lemma print_tree_folders_indents_below_path_witness :
  print_tree_folders sample_system "cordex_models/historical" (0, []) =
    (inr tt,
     (0, ["historical/"; "    huss/"; "        RCA4/"; "    tas/"])).
Proof.
  apply (print_tree_folders_indents_below_path sample_system "cordex_models/historical"
           [[]; ["huss"]; ["huss"; "RCA4"]; ["tas"]] 0 []).
  - discriminate.
  - reflexivity.
  - repeat constructor; cbn; try discriminate; try (repeat split; discriminate);
      now apply occurs_later_false.
Defined.

(** ** The extras on the sample system *)

Lemma print_tree_folders_indents_by_depth_witness :
  print_tree_folders sample_system "cordex" (0, []) =
    (inr tt,
     (0, ["cordex/"; "    historical/"; "        huss/"; "        tas/"])).
Proof.
  apply (print_tree_folders_indents_by_depth sample_system "cordex"
           [[]; ["historical"]; ["historical"; "huss"]; ["historical"; "tas"]] 0 []).
  - discriminate.
  - cbn. repeat split; discriminate.
  - repeat constructor; cbn; try discriminate; repeat split; discriminate.
Defined.

Lemma sort_model_files_by_folder_nothing_to_move_witness :
  sort_model_files_by_folder sample_system "notes" (0, []) =
    (inr tt, (0, ["No hay archivos .nc en el directorio."])).
Proof.
  apply (proj2 (sort_model_files_by_folder_nothing_to_move sample_system "notes" 0 [])
           ["readme.txt"; "nc"]).
  - reflexivity.
  - repeat constructor.
Defined.

Lemma sort_model_files_by_folder_without_underscore_witness :
  sort_model_files_by_folder sample_system "data" (0, []) =
    (inr tt, (0, ["Archivo pr.nc movido a "; "Archivos movidos correctamente."])).
Proof.
  apply (sort_model_files_by_folder_without_underscore sample_system "data"
           ["pr.nc"; "readme.txt"] 0 []).
  - reflexivity.
  - discriminate.
  - repeat constructor; discriminate.
  - reflexivity.
  - repeat constructor.
Defined.

Lemma sort_model_files_by_folder_moves_to_model_folder_witness :
  sort_model_files_by_folder sample_system "models" (0, []) =
    (inr tt,
     (2, ["Archivo tas_EUR-11_day.nc movido a tas_EUR-11";
          "Archivos movidos correctamente."])).
Proof.
  apply (sort_model_files_by_folder_moves_to_model_folder sample_system
           "models" "tas_EUR-11" "day.nc" ["tas_EUR-11_day.nc"] 0 1 2 []).
  - reflexivity.
  - reflexivity.
  - cbn. repeat split; discriminate.
  - split; [discriminate | cbn; repeat split; discriminate].
  - cbn. repeat split; discriminate.
  - discriminate.
  - reflexivity.
  - reflexivity.
  - reflexivity.
  - reflexivity.
Defined.

(** * Binary64 items: where anomaly + fit is not the grid *)

Section Binary64.
Variables cos sin : spec_float -> spec_float.

Lemma constant_solver_total : @solver_total _ (binary64 cos sin) (@constant_solver _ (binary64 cos sin)).
Proof. intros b _. eexists. split; reflexivity. Qed.

(** One and four finite numbers against the coefficients 1, 0, 0, 0, 0. *)
Lemma dot_one_zeros (v1 v2 v3 v4 : spec_float) :
  finite v1 -> finite v2 -> finite v3 -> finite v4 ->
  SFadd 53 1024
    (SFadd 53 1024
       (SFadd 53 1024
          (SFadd 53 1024
             (SFadd 53 1024 (S754_zero false)
                (SFmul 53 1024 (S754_finite false 4503599627370496 (-52))
                   (S754_finite false 4503599627370496 (-52))))
             (SFmul 53 1024 v1 (S754_zero false)))
          (SFmul 53 1024 v2 (S754_zero false)))
       (SFmul 53 1024 v3 (S754_zero false)))
    (SFmul 53 1024 v4 (S754_zero false)) =
  S754_finite false 4503599627370496 (-52).
Proof.
  intros H1 H2 H3 H4.
  destruct v1; try contradiction; destruct v2; try contradiction;
    destruct v3; try contradiction; destruct v4; try contradiction; reflexivity.
Qed.

Lemma constant_fit_one :
  (forall x, finite (cos x)) -> (forall x, finite (sin x)) ->
  @regression_value _ (binary64 cos sin) (@constant_solver _ (binary64 cos sin))
    {| shape := [12]; data := replicate 12 (S754_finite false 4503599627370496 (-52)) |}
  = ok {| shape := [12];
          data := replicate 12 (S754_finite false 4503599627370496 (-52)) |}.
Proof.
  intros Hcos Hsin.
  rewrite regression_value_12 by reflexivity.
  unfold constant_solver, rbind. unfold ok at 1. cbv beta iota.
  rewrite matmul_design by reflexivity.
  do 2 f_equal. cbn [map seq replicate].
  repeat (apply (f_equal2 cons); [|]).
  all: try exact eq_refl.
  all: lazy [dot_row sum_items fold_left map seq item nth data design_matrix design_row
                  concat app Nat.add Nat.mul f_mul f_add f_zero f_one f_cos f_sin binary64].
  all: apply dot_one_zeros; auto.
Qed.

(** The call on the two-year grid: the fit is 1 in the first month, the
    anomaly 0.1 - 1, and their sum is not 0.1. *)
Lemma two_year_run :
  (forall x, finite (cos x)) -> (forall x, finite (sin x)) ->
  exists (news : heap spec_float) (l_anom l_fit : loc) (anomaly fit : ndarray spec_float),
    @monthly_anomaly_series _ (binary64 cos sin) (@constant_solver _ (binary64 cos sin))
      (Arr 0) (Arr 1) (Arr 2) two_year_store =
      (ok (l_anom, l_fit, 3), two_year_store ++ news) /\
    (two_year_store ++ news) !! l_anom = Some anomaly /\
    (two_year_store ++ news) !! l_fit = Some fit /\
    @item _ (binary64 cos sin) two_year_grid 0 = S754_finite false 7205759403792794 (-56) /\
    @item _ (binary64 cos sin) fit 0 = S754_finite false 4503599627370496 (-52) /\
    @item _ (binary64 cos sin) (@add_items _ (binary64 cos sin) anomaly fit) 0
      = S754_finite false 7205759403792792 (-56) /\
    @add_items _ (binary64 cos sin) anomaly fit <> two_year_grid.
Proof.
  intros Hcos Hsin.
  destruct (@monthly_anomaly_series_run_cells _ (binary64 cos sin)
              (@constant_solver _ (binary64 cos sin)) two_year_store
              (Arr 0) (Arr 1) (Arr 2) two_year_grid one_point_axis one_point_axis
              24 1 1 1 1 constant_solver_total
              eq_refl eq_refl eq_refl eq_refl eq_refl eq_refl eq_refl)
    as (news & fit & l_anom & l_fit & Hsf & Hrun & _ & Hfit & Hanom & Hcells).
  change (24 / 12 * 12) with 24 in Hsf, Hcells.
  pose proof (@subtract_same_shape _ (binary64 cos sin) two_year_grid fit 24 1 1
                eq_refl Hsf) as Hsub.
  rewrite Hsub in Hrun.
  destruct (Hcells 0 0 ltac:(lia) ltac:(lia)) as (cell & out & Hcell & Hout & Hitems).
  vm_compute in Hcell. injection Hcell as <-.
  assert (Hone : ok out = ok {| shape := [12];
                                data := replicate 12 (S754_finite false 4503599627370496 (-52)) |}).
  { rewrite <- Hout. exact (constant_fit_one Hcos Hsin). }
  injection Hone as ->.
  specialize (Hitems 0 ltac:(lia)).
  unfold item3 in Hitems. rewrite Hsf in Hitems.
  change (@item _ (binary64 cos sin) fit 0 = S754_finite false 4503599627370496 (-52))
    in Hitems.
  assert (Hsum : @item _ (binary64 cos sin)
                   (@add_items _ (binary64 cos sin)
                      {| shape := [24; 1; 1];
                         data := map (fun k => @f_sub _ (binary64 cos sin)
                                                (@item _ (binary64 cos sin) two_year_grid k)
                                                (@item _ (binary64 cos sin) fit k))
                                     (seq 0 (shape_size [24; 1; 1])) |} fit) 0
                 = S754_finite false 7205759403792792 (-56)).
  { destruct fit as [sf df]. unfold item in Hitems |- *. cbn [data] in Hitems |- *.
    destruct df as [|f0 df]; [discriminate Hitems|].
    cbn [nth] in Hitems. subst f0. reflexivity. }
  eexists news, l_anom, l_fit, _, fit.
  split; [exact Hrun|]. split; [exact (Hanom _ Hsub)|]. split; [exact Hfit|].
  split; [reflexivity|]. split; [exact Hitems|]. split; [exact Hsum|].
  intros Heq. apply (f_equal (fun a => @item _ (binary64 cos sin) a 0)) in Heq.
  rewrite Hsum in Heq. discriminate Heq.
Qed.

End Binary64.

(** C6, refuted as stated: in binary64, on two years at one cell with
    0.1 in the first year and 1.9 in the second, and a fit of 1 in every
    month, the anomaly of the first month is 0.1 - 1 and anomaly + fit is
    0.09999999999999998, not 0.1. *)
Lemma anomaly_plus_fit_is_not_the_grid :
  well_formed two_year_grid /\
  forall cos sin : spec_float -> spec_float,
    (forall x, finite (cos x)) -> (forall x, finite (sin x)) ->
    @solver_total _ (binary64 cos sin) (@constant_solver _ (binary64 cos sin)) /\
    exists (news : heap spec_float) (l_anom l_fit : loc)
           (anomaly fit : ndarray spec_float),
      @monthly_anomaly_series _ (binary64 cos sin) (@constant_solver _ (binary64 cos sin))
        (Arr 0) (Arr 1) (Arr 2) two_year_store =
        (ok (l_anom, l_fit, 3), two_year_store ++ news) /\
      (two_year_store ++ news) !! l_anom = Some anomaly /\
      (two_year_store ++ news) !! l_fit = Some fit /\
      @item _ (binary64 cos sin) two_year_grid 0
        = S754_finite false 7205759403792794 (-56) /\
      @item _ (binary64 cos sin) fit 0 = S754_finite false 4503599627370496 (-52) /\
      @item _ (binary64 cos sin) (@add_items _ (binary64 cos sin) anomaly fit) 0
        = S754_finite false 7205759403792792 (-56) /\
      @add_items _ (binary64 cos sin) anomaly fit <> two_year_grid.
Proof.
  split; [reflexivity|].
  intros cos sin Hcos Hsin.
  split; [apply constant_solver_total | exact (two_year_run cos sin Hcos Hsin)].
Qed.
